(** * Library back end: query construction, pagination and the resource routes

    A shallow embedding of the Express/Mongoose back end
    ([utils/dbUtils.js], [routes/members.js], [routes/books.js],
    [routes/loans.js], [Models/*.js], the [/borrowed] route of [server.js]
    and [seedData.js]) and the properties of its query-construction,
    pagination, authentication, creation, update and statistics paths.

    Conventions of the embedding.
    - A JavaScript value is a [value]; [undefined] is the absence of a value
      ([None] in an [option value]).  Objects are ordinary objects: a
      finite map holds their own properties, and they inherit the members
      of [Object.prototype].  A request body, a query string, a filter and
      a stored document are all [gmap string value]; [o !! k] reads an own
      property, [getProp o k] reads [o[k]].
    - JavaScript numbers are doubles.  The code only computes with page
      numbers, limits, offsets and counts, so a number is a [num]: an
      integer that a double holds, an infinity or NaN; every operation
      rounds its exact result to the nearest double.
    - Strings are sequences of bytes, the UTF-8 encoding of the text.
      [parseInt] skips the white space of ECMAScript, in whatever bytes it
      comes; the case mapping of the engine is external, and known on
      ASCII strings.
    - A conversion of an object to a primitive may throw; a handler
      answers that as it answers any other exception.
    - Mongoose, the MongoDB query engine, bcrypt and the clock are external
      collaborators.  What the schemas in [Models/] fix (types, setters,
      defaults, required and unique paths) is embedded; the rest is a
      parameter of the development (class [External]). *)

From Stdlib Require Import ZArith Ascii String.
From stdpp Require Import gmap strings list pretty.

#[local] Set Warnings "-register-all,-clear-no-such-hyp".
#[local] Open Scope Z_scope.

(** ** JavaScript values and coercions *)

Module Js.

(** [VFun name] is the built-in function that an object inherits under
    [name] from [Object.prototype]. *)
Inductive value :=
| VNull
| VBool (b : bool)
| VNum (n : Z)
| VStr (s : string)
| VArr (vs : list value)
| VObj (fields : gmap string value)
| VFun (name : string).

Abbreviation obj := (gmap string value).

#[global] Instance value_eq_dec : EqDecision value.
Proof.
  refine (fix go (a b : value) {struct a} : Decision (a = b) :=
    match a, b with
    | VNull, VNull => left _
    | VBool x, VBool y => cast_if (decide (x = y))
    | VNum x, VNum y => cast_if (decide (x = y))
    | VStr x, VStr y => cast_if (decide (x = y))
    | VArr x, VArr y => cast_if (@decide (x = y) (@list_eq_dec _ go x y))
    | VObj x, VObj y => cast_if (@decide (x = y) (@gmap_eq_dec _ _ _ _ go x y))
    | VFun x, VFun y => cast_if (decide (x = y))
    | _, _ => right _
    end); congruence.
Defined.

(** ToBoolean, as used by [!x], [if (x)] and [x || d]. *)
Definition truthy (v : option value) : bool :=
  match v with
  | None | Some VNull => false
  | Some (VBool b) => b
  | Some (VNum n) => negb (n =? 0)
  | Some (VStr s) => negb (String.eqb s "")
  | Some (VArr _) | Some (VObj _) | Some (VFun _) => true
  end.

(** [v === 'lit'] for a string literal. *)
Definition is_str (v : value) (lit : string) : bool :=
  match v with
  | VStr s => String.eqb s lit
  | _ => false
  end.

(** *** Property access *)

(** The functions of [Object.prototype]. *)
Definition objectPrototype : list string :=
  ["constructor"; "__defineGetter__"; "__defineSetter__"; "hasOwnProperty";
   "__lookupGetter__"; "__lookupSetter__"; "isPrototypeOf"; "propertyIsEnumerable";
   "toString"; "valueOf"; "toLocaleString"].

(** [o[k]]: the property of [o] itself, or the one it inherits; [__proto__]
    reads as the prototype. *)
Definition getProp (o : obj) (k : string) : option value :=
  match o !! k with
  | Some v => Some v
  | None =>
      if bool_decide (k ∈ objectPrototype) then Some (VFun k)
      else if String.eqb k "__proto__"
      then Some (VObj (list_to_map ((λ name, (name, VFun name)) <$> objectPrototype)))
      else None
  end.

(** [o[k] = v] on an object literal.  Assigning to [__proto__] sets the
    prototype (or does nothing) and creates no property. *)
Definition setProp (k : string) (v : value) (o : obj) : obj :=
  if String.eqb k "__proto__" then o else <[k := v]> o.

(** *** Exceptions *)

(** The errors the code meets: those of Mongoose and of the driver, and
    the TypeError of a conversion that fails. *)
Inductive Error :=
| CastError (path : string)
| ValidationError (path : string)
| DuplicateKey (field : string)
| MissingSchemaError (model : string)
| UpdateError
| StoreError (msg : string)
| TypeError.

(** A computation that returns or throws. *)
Inductive Result (A : Type) :=
| Ok (a : A)
| Throw (e : Error).

Arguments Ok {A} a.
Arguments Throw {A} e.

#[global] Instance Result_ret : MRet Result := λ A a, Ok a.
#[global] Instance Result_bind : MBind Result :=
  λ A B f r, match r with Ok a => f a | Throw e => Throw e end.

(** *** Conversion to a primitive *)

(** [String(v)], [parseInt(v)] and the arithmetic operators first convert
    an object to a primitive, through its [toString] method.  The one that
    an object inherits answers ["[object Object]"].  A property [toString]
    of the object itself hides it: parsed request data holds no function,
    so no method is left to call and the conversion throws a TypeError.
    An array joins its converted elements, and throws if one of them
    does. *)
Fixpoint unprintable (v : value) : bool :=
  match v with
  | VObj fields => bool_decide (is_Some (fields !! "toString"))
  | VArr vs => existsb unprintable vs
  | _ => false
  end.

(** *** Numbers *)

(** The doubles the code computes with.  [Int z] is the double whose value
    is the integer [z] (0 also stands for -0).  [Other] is a double outside
    this fragment (a fraction, the value of a string that is not a plain
    decimal integer) or the result of computing with one: the embedding
    does not determine it. *)
Inductive num :=
| Int (z : Z)
| PosInf
| NegInf
| NaN
| Other.

#[global] Instance num_eq_dec : EqDecision num.
Proof. solve_decision. Defined.

(** The double nearest to the integer [n], ties going to the even
    significand; a magnitude that rounds to 2^1024 or more is an
    infinity. *)
Definition roundDouble (n : Z) : num :=
  let a := Z.abs n in
  if a <? 2 ^ 53 then Int n
  else
    let e := Z.log2 a - 52 in
    let q := a / 2 ^ e in
    let r := a mod 2 ^ e in
    let half := 2 ^ (e - 1) in
    let q' := if (half <? r) || ((half =? r) && Z.odd q) then q + 1 else q in
    let m := q' * 2 ^ e in
    if 2 ^ 1024 <=? m then (if 0 <? n then PosInf else NegInf)
    else Int (Z.sgn n * m).

Definition code (c : ascii) : Z := Z.of_N (N_of_ascii c).

(** White space and line terminators.  In one byte: TAB, LF, VT, FF, CR
    and SPACE.  By their UTF-8 encoding: U+00A0 in two bytes; U+1680,
    U+2000 to U+200A, U+2028, U+2029, U+202F, U+205F, U+3000 and U+FEFF in
    three. *)
Definition isWhite (c : ascii) : bool :=
  ((9 <=? code c) && (code c <=? 13)) || (code c =? 32).

Definition isWhite2 (a b : ascii) : bool := (code a =? 194) && (code b =? 160).

Definition isWhite3 (a b c : ascii) : bool :=
  ((code a =? 225) && (code b =? 154) && (code c =? 128))
  || ((code a =? 226) && (code b =? 128)
      && (((128 <=? code c) && (code c <=? 138))
          || (code c =? 168) || (code c =? 169) || (code c =? 175)))
  || ((code a =? 226) && (code b =? 129) && (code c =? 159))
  || ((code a =? 227) && (code b =? 128) && (code c =? 128))
  || ((code a =? 239) && (code b =? 187) && (code c =? 191)).

Fixpoint skipWhite (s : string) : string :=
  match s with
  | String a s1 =>
      if isWhite a then skipWhite s1
      else match s1 with
           | String b s2 =>
               if isWhite2 a b then skipWhite s2
               else match s2 with
                    | String c s3 => if isWhite3 a b c then skipWhite s3 else s
                    | EmptyString => s
                    end
           | EmptyString => s
           end
  | EmptyString => s
  end.

(** The value of [c] as a digit of radix [R], if it is one. *)
Definition digitValue (R : Z) (c : ascii) : option Z :=
  let n := code c in
  let d := if (48 <=? n) && (n <=? 57) then Some (n - 48)
           else if (97 <=? n) && (n <=? 122) then Some (n - 87)
           else if (65 <=? n) && (n <=? 90) then Some (n - 55)
           else None in
  match d with
  | Some k => if k <? R then Some k else None
  | None => None
  end.

(** Reads the longest prefix of radix-[R] digits; [acc] is [None] until a
    first digit has been read. *)
Fixpoint parseDigits (R : Z) (s : string) (acc : option Z) : option Z :=
  match s with
  | String c s' =>
      match digitValue R c with
      | Some d => parseDigits R s' (Some (R * default 0 acc + d))
      | None => acc
      end
  | EmptyString => acc
  end.

(** [parseInt(s)] without a radix: leading white space, an optional sign,
    an optional [0x]/[0X] prefix, then the longest run of digits; anything
    after it is ignored.  The integer read is returned as a double; without
    a digit the result is NaN. *)
Definition parseIntStr (s : string) : num :=
  let s1 := skipWhite s in
  let '(sign, s2) :=
    match s1 with
    | String c r => if Ascii.eqb c "-" then (-1, r)
                    else if Ascii.eqb c "+" then (1, r)
                    else (1, s1)
    | EmptyString => (1, s1)
    end in
  let '(R, s3) :=
    match s2 with
    | String c (String x r) =>
        if Ascii.eqb c "0" && (Ascii.eqb x "x" || Ascii.eqb x "X") then (16, r)
        else (10, s2)
    | _ => (10, s2)
    end in
  match parseDigits R s3 None with
  | Some m => roundDouble (sign * m)
  | None => NaN
  end.

(** The first digit and the weight of the first digit of [x]. *)
Fixpoint leading (fuel : nat) (x unit : Z) : Z * Z :=
  match fuel with
  | O => (x, unit)
  | S f => if x <? 10 then (x, unit) else leading f (x / 10) (unit * 10)
  end.

(** The first digit of [String(x)] for a double [x] of 10^21 or more, which
    prints in exponent notation with the fewest digits that read back as
    [x]: the first digit of [x], or the next digit up when that one,
    followed by zeros, already reads back as [x]. *)
Definition firstDigit (x : Z) : Z :=
  let '(d, unit) := leading (Z.to_nat (Z.log2 x)) x 1 in
  if bool_decide (roundDouble ((d + 1) * unit) = Int x)
  then (if d =? 9 then 1 else d + 1)
  else d.

(** [parseInt(n)] for a number: [String(n)] is the decimal numeral of [n]
    below 10^21, exponent notation from there on (of which [parseInt] reads
    the first digit), and [Infinity]. *)
Definition parseIntNum (n : Z) : num :=
  match roundDouble n with
  | Int x => if Z.abs x <? 10 ^ 21 then Int x
             else Int (Z.sgn x * firstDigit (Z.abs x))
  | _ => NaN
  end.

(** [parseInt(v)] for a value that converts to a string.  An array prints
    as its elements joined by commas, so only its first element can
    contribute digits; [null], booleans, objects and functions print as
    text. *)
Fixpoint parseIntVal (v : value) : num :=
  match v with
  | VStr s => parseIntStr s
  | VNum n => parseIntNum n
  | VArr (x :: _) => parseIntVal x
  | _ => NaN
  end.

(** [parseInt(v)] on a value that may be [undefined], which prints as
    text too; the conversion to a string comes first, and may throw. *)
Definition parseInt (v : option value) : Result num :=
  match v with
  | Some x => if unprintable x then Throw TypeError else Ok (parseIntVal x)
  | None => Ok NaN
  end.

(** [x || d] on a number: NaN and 0 are falsy. *)
Definition jsOr (x d : num) : num :=
  match x with
  | Int n => if n =? 0 then d else x
  | NaN => d
  | _ => x
  end.

(** [Math.max(a, b)] and [Math.min(a, b)]. *)
Definition jsMax (a b : num) : num :=
  match a, b with
  | NaN, _ | _, NaN => NaN
  | Other, _ | _, Other => Other
  | PosInf, _ | _, PosInf => PosInf
  | NegInf, _ => b
  | _, NegInf => a
  | Int x, Int y => Int (Z.max x y)
  end.

Definition jsMin (a b : num) : num :=
  match a, b with
  | NaN, _ | _, NaN => NaN
  | Other, _ | _, Other => Other
  | NegInf, _ | _, NegInf => NegInf
  | PosInf, _ => b
  | _, PosInf => a
  | Int x, Int y => Int (Z.min x y)
  end.

Fixpoint allDigits (s : string) : bool :=
  match s with
  | String c s' => (48 <=? code c) && (code c <=? 57) && allDigits s'
  | EmptyString => true
  end.

(** ToNumber on a string, for the strings that hold nothing but decimal
    digits (the empty string is 0). *)
Definition toNumberStr (s : string) : num :=
  if allDigits s then roundDouble (default 0 (parseDigits 10 s None)) else Other.

(** ToNumber, as applied by [-], [*] and [/] to a raw query value that
    converts to a primitive. *)
Definition toNumber (v : value) : num :=
  match v with
  | VNum n => Int n
  | VStr s => toNumberStr s
  | VBool b => Int (if b then 1 else 0)
  | VNull => Int 0
  | VFun _ => NaN
  | VArr _ | VObj _ => Other
  end.

(** [a - b] and [a * b]: the exact result, rounded. *)
Definition jsSub (a b : num) : num :=
  match a, b with
  | NaN, _ | _, NaN => NaN
  | Other, _ | _, Other => Other
  | Int x, Int y => roundDouble (x - y)
  | PosInf, PosInf | NegInf, NegInf => NaN
  | PosInf, _ | _, NegInf => PosInf
  | NegInf, _ | _, PosInf => NegInf
  end.

Definition jsMul (a b : num) : num :=
  match a, b with
  | NaN, _ | _, NaN => NaN
  | Other, _ | _, Other => Other
  | Int x, Int y => roundDouble (x * y)
  | Int x, PosInf | PosInf, Int x =>
      if x =? 0 then NaN else if 0 <? x then PosInf else NegInf
  | Int x, NegInf | NegInf, Int x =>
      if x =? 0 then NaN else if 0 <? x then NegInf else PosInf
  | PosInf, PosInf | NegInf, NegInf => PosInf
  | PosInf, NegInf | NegInf, PosInf => NegInf
  end.

(** [(page - 1) * limit] on two values: both are converted to numbers, the
    page first, and either conversion may throw. *)
Definition skipOf (page limit : value) : Result num :=
  if unprintable page || unprintable limit then Throw TypeError
  else Ok (jsMul (jsSub (toNumber page) (Int 1)) (toNumber limit)).

(** [Math.ceil(total / limit)]; [0/0] is NaN, [n/0] an infinity and
    [n/Infinity] is 0. *)
Definition ceilDiv (total : Z) (limit : num) : num :=
  match limit with
  | Int b => if b =? 0 then (if total =? 0 then NaN else Other)
             else Int (- ((- total) / b))
  | PosInf | NegInf => Int 0
  | NaN => NaN
  | Other => Other
  end.

(** *** Letter case *)

(** The lower case of the letters A to Z. *)
Definition lower (c : ascii) : ascii :=
  if (65 <=? code c) && (code c <=? 90)
  then ascii_of_N (N_of_ascii c + 32)
  else c.

Fixpoint lowerAscii (s : string) : string :=
  match s with
  | String c s' => String (lower c) (lowerAscii s')
  | EmptyString => EmptyString
  end.

(** A string of ASCII characters only. *)
Fixpoint isAscii (s : string) : bool :=
  match s with
  | String c s' => (code c <? 128) && isAscii s'
  | EmptyString => true
  end.

End Js.

Export Js.

(** ** utils/dbUtils.js *)

Module DbUtils.

(** The body of the [forEach] callback of [buildFilter]. *)
Definition filterStep (queryParams : obj) (filter : obj) (field : string) : obj :=
  match getProp queryParams field with
  | Some value =>
      if is_str value "true" then setProp field (VBool true) filter
      else if is_str value "false" then setProp field (VBool false) filter
      else setProp field value filter
  | None => filter
  end.

Definition buildFilter (queryParams : obj) (allowedFields : list string) : obj :=
  foldl (filterStep queryParams) ∅ allowedFields.

Definition regexOf (searchTerm : value) : value :=
  VObj (<["$regex" := searchTerm]> {["$options" := VStr "i"]}).

Definition buildSearchFilter (searchTerm : option value) (searchFields : list string) : obj :=
  match searchTerm with
  | Some term =>
      if truthy searchTerm
      then {["$or" := VArr (map (λ field, VObj {[field := regexOf term]}) searchFields)]}
      else ∅
  | None => ∅
  end.

Record PaginationParams := { page : num; limit : num; skip : num }.

Definition getPaginationParams (query : obj) : Result PaginationParams :=
  parsedPage ← parseInt (query !! "page");
  let page := jsMax (Int 1) (jsOr parsedPage (Int 1)) in
  parsedLimit ← parseInt (query !! "limit");
  let limit := jsMin (Int 100) (jsMax (Int 1) (jsOr parsedLimit (Int 10))) in
  let skip := jsMul (jsSub page (Int 1)) limit in
  Ok {| page := page; limit := limit; skip := skip |}.

Record Envelope := {
  data : list obj;
  total : Z;
  pageOut : num;
  limitOut : num;
  pages : num }.

(** [{ data, pagination: { total, page, limit, pages } }] *)
Definition formatPaginationResponse (data : list obj) (total : Z) (page limit : num) : Envelope :=
  {| data := data; total := total; pageOut := page; limitOut := limit;
     pages := ceilDiv total limit |}.

Fixpoint allHex (s : string) : bool :=
  match s with
  | String c s' => bool_decide (is_Some (digitValue 16 c)) && allHex s'
  | EmptyString => true
  end.

(** [/^[0-9a-fA-F]{24}$/.test(id)] *)
Definition isValidObjectId (id : string) : bool :=
  (Z.of_nat (String.length id) =? 24) && allHex id.

End DbUtils.

Export DbUtils.

(** ** The Mongoose layer

    The fragment of Mongoose and of the MongoDB driver that the routes rely
    on: schema casting, document creation with defaults and validation,
    unique indexes, [findOne], [findById], [findByIdAndUpdate],
    [findByIdAndDelete], projections and [populate]. *)

Module Mongoose.

(** A collection: the documents in insertion order, each under its
    ObjectId (embedded as the number it denotes). *)
Abbreviation collection := (list (N * obj)).

(** What the embedding takes from outside the repository. *)
Class External := {
  (** Mongoose's cast of a value to an ObjectId. *)
  castObjectId : value → option N;
  (** Mongoose's casts to Date and to Number. *)
  castDate : value → option value;
  castNumber : value → option value;
  (** Whether a stored value satisfies a query condition that is not a
      plain string, number or boolean (an operator object, [null]). *)
  queryMatches : value → option value → bool;
  (** MongoDB's update operators other than [$set] and [$unset]. *)
  updateOperator : string → value → obj → Result obj;
  (** [Model.find(filter).sort(key).skip(skip).limit(limit)] and
      [Model.countDocuments(filter)]. *)
  runFind : collection → obj → string → num → num → Result collection;
  countDocuments : collection → obj → Result Z;
  (** [bcrypt.hash(password, 10)] and [bcrypt.compare(password, hash)] of
      bcryptjs; [compare] rejects arguments that are not two strings. *)
  bcryptHash : value → Result string;
  bcryptCompare : value → option value → Result bool;
  bcryptCompare_illegal :
    ∀ password hash,
      (∀ s, password ≠ VStr s) ∨ (∀ h, hash ≠ Some (VStr h)) →
      ∃ err, bcryptCompare password hash = Throw err;
  (** [Date.now]. *)
  now : value;
  (** [err.message]. *)
  message : Error → string;
  (** [String.prototype.toLowerCase], the case mapping of the engine.  On
      a string of ASCII characters it lowers the letters A to Z and leaves
      the rest. *)
  toLowerCase : string → string;
  toLowerCase_ascii : ∀ s, isAscii s = true → toLowerCase s = lowerAscii s }.

Inductive SchemaType := TString | TBoolean | TDate | TObjectId | TNumber.

Inductive Default :=
| NoDefault
| Const (v : value)
| DateNow.

Record SchemaPath := {
  ty : SchemaType;
  required : bool;
  unique : bool;
  lowercase : bool;
  dflt : Default;
  enum : list string;
  ref : option string }.

Abbreviation Schema := (list (string * SchemaPath)).

Definition path (t : SchemaType) : SchemaPath :=
  {| ty := t; required := false; unique := false; lowercase := false;
     dflt := NoDefault; enum := []; ref := None |}.
Definition withRequired (p : SchemaPath) : SchemaPath :=
  {| ty := ty p; required := true; unique := unique p; lowercase := lowercase p;
     dflt := dflt p; enum := enum p; ref := ref p |}.
Definition withUnique (p : SchemaPath) : SchemaPath :=
  {| ty := ty p; required := required p; unique := true; lowercase := lowercase p;
     dflt := dflt p; enum := enum p; ref := ref p |}.
Definition withLowercase (p : SchemaPath) : SchemaPath :=
  {| ty := ty p; required := required p; unique := unique p; lowercase := true;
     dflt := dflt p; enum := enum p; ref := ref p |}.
Definition withDefault (d : Default) (p : SchemaPath) : SchemaPath :=
  {| ty := ty p; required := required p; unique := unique p; lowercase := lowercase p;
     dflt := d; enum := enum p; ref := ref p |}.
Definition withEnum (l : list string) (p : SchemaPath) : SchemaPath :=
  {| ty := ty p; required := required p; unique := unique p; lowercase := lowercase p;
     dflt := dflt p; enum := l; ref := ref p |}.
Definition withRef (r : string) (p : SchemaPath) : SchemaPath :=
  {| ty := ty p; required := required p; unique := unique p; lowercase := lowercase p;
     dflt := dflt p; enum := enum p; ref := Some r |}.

Definition schemaPath (sch : Schema) (k : string) : option SchemaPath :=
  snd <$> List.find (λ kp, String.eqb (fst kp) k) sch.

(** *** Casting *)

(** The name a built-in function prints with: [constructor] is the
    function [Object]. *)
Definition nativeName (name : string) : string :=
  if String.eqb name "constructor" then "Object" else name.

Definition castString (v : value) : option value :=
  match v with
  | VNull | VStr _ => Some v
  | VNum n => Some (VStr (pretty n))
  | VBool b => Some (VStr (if b then "true" else "false"))
  | VObj m => match m !! "_id" with
              | Some (VStr s) => Some (VStr s)
              | _ => None
              end
  | VArr _ => None
  | VFun name => Some (VStr ("function " ++ nativeName name ++ "() { [native code] }"))
  end.

(** [true, 'true', 1, '1', 'yes'] and [false, 'false', 0, '0', 'no']. *)
Definition castBoolean (v : value) : option value :=
  match v with
  | VNull | VBool _ => Some v
  | VNum n => if n =? 1 then Some (VBool true)
              else if n =? 0 then Some (VBool false) else None
  | VStr s => if String.eqb s "true" || String.eqb s "1" || String.eqb s "yes"
              then Some (VBool true)
              else if String.eqb s "false" || String.eqb s "0" || String.eqb s "no"
              then Some (VBool false)
              else None
  | VArr _ | VObj _ | VFun _ => None
  end.

Definition oid (i : N) : value := VNum (Z.of_N i).

Section Casting.

Context `{External}.

Definition castValue (t : SchemaType) (v : value) : option value :=
  match v with
  | VNull => Some VNull
  | _ => match t with
         | TString => castString v
         | TBoolean => castBoolean v
         | TDate => castDate v
         | TNumber => castNumber v
         | TObjectId => oid <$> castObjectId v
         end
  end.

Definition applySetters (p : SchemaPath) (v : value) : value :=
  match v with
  | VStr s => if lowercase p then VStr (toLowerCase s) else v
  | _ => v
  end.

Definition castPath (p : SchemaPath) (v : value) : option value :=
  applySetters p <$> castValue (ty p) v.

End Casting.

End Mongoose.

Export Mongoose.

(** ** Documents and collections *)

Module Model.

Definition sameKey (a b : value) : bool :=
  match a, b with
  | VStr s, VStr t => String.eqb s t
  | VNum x, VNum y => x =? y
  | VBool x, VBool y => Bool.eqb x y
  | _, _ => false
  end.

Definition lookupId (coll : collection) (i : N) : option obj :=
  snd <$> List.find (λ e, (fst e =? i)%N) coll.

(** A stored document as a plain object, [_id] included. *)
Definition lean (i : N) (d : obj) : obj := <["_id" := oid i]> d.

(** [.select('-a -b')] and [.select('a b')] (which keeps [_id]). *)
Definition exclude (ks : list string) (d : obj) : obj := foldr delete d ks.
Definition only (ks : list string) (d : obj) : obj :=
  filter (λ kv, kv.1 ∈ "_id" :: ks) d.

Fixpoint replaceFirst (i : N) (d : obj) (coll : collection) : collection :=
  match coll with
  | e :: rest => if (fst e =? i)%N then (i, d) :: rest else e :: replaceFirst i d rest
  | [] => []
  end.

Fixpoint removeFirst (i : N) (coll : collection) : collection :=
  match coll with
  | e :: rest => if (fst e =? i)%N then rest else e :: removeFirst i rest
  | [] => []
  end.

(** Paths every schema has: the version key and, with
    [{ timestamps: true }], the two time stamps. *)
Definition implicitPaths : Schema :=
  [("__v", path TNumber); ("createdAt", path TDate); ("updatedAt", path TDate)].

Definition pathOf (sch : Schema) (k : string) : option SchemaPath :=
  schemaPath (sch ++ implicitPaths) k.

Definition isOperator (k : string) : bool :=
  match k with
  | String "$" _ => true
  | _ => false
  end.

(** The keys of an update document that are not operators: Mongoose moves
    them under [$set]. *)
Definition plainKeys (upd : obj) : obj :=
  filter (λ kv, isOperator kv.1 = false) upd.

Definition otherOperators (upd : obj) : obj :=
  filter (λ kv, isOperator kv.1 = true ∧ kv.1 ≠ "$set" ∧ kv.1 ≠ "$unset") upd.

Definition operand (upd : obj) (op : string) : Result obj :=
  match upd !! op with
  | None => Ok ∅
  | Some (VObj m) => Ok m
  | Some _ => Throw UpdateError
  end.

Record Update := {
  sets : obj;
  unsets : obj;
  others : obj;
  newId : option value }.

Section Model.

Context `{External}.

(** *** Creating a document: [new Model(src)] and [save()] *)

Definition castField (src : obj) (acc : Result obj) (kp : string * SchemaPath) : Result obj :=
  doc ← acc;
  match src !! kp.1 with
  | Some v => match castPath kp.2 v with
              | Some v' => Ok (<[kp.1 := v']> doc)
              | None => Throw (ValidationError kp.1)
              end
  | None => match dflt kp.2 with
            | Const v => Ok (<[kp.1 := v]> doc)
            | DateNow => Ok (<[kp.1 := now]> doc)
            | NoDefault => Ok doc
            end
  end.

(** Strict mode: only the paths of the schema are read from [src]. *)
Definition construct (sch : Schema) (src : obj) : Result obj :=
  foldl (castField src) (Ok ∅) sch.

Definition blank (p : SchemaPath) (v : option value) : bool :=
  match v with
  | None | Some VNull => true
  | Some (VStr s) => match ty p with
                     | TString => String.eqb s ""
                     | _ => false
                     end
  | Some _ => false
  end.

Definition inEnum (p : SchemaPath) (v : option value) : bool :=
  match enum p, v with
  | _ :: _, Some (VStr s) => bool_decide (s ∈ enum p)
  | _, _ => true
  end.

Definition invalid (doc : obj) (kp : string * SchemaPath) : bool :=
  (required kp.2 && blank kp.2 (doc !! kp.1)) || negb (inEnum kp.2 (doc !! kp.1)).

Definition validate (sch : Schema) (doc : obj) : Result obj :=
  match List.find (invalid doc) sch with
  | Some kp => Throw (ValidationError kp.1)
  | None => Ok doc
  end.

Definition clashes (k : string) (doc other : obj) : bool :=
  match doc !! k, other !! k with
  | Some a, Some b => sameKey a b
  | _, _ => false
  end.

(** The unique index, if any, that inserting [doc] would violate. *)
Definition duplicateOf (sch : Schema) (coll : collection) (doc : obj) : option string :=
  fst <$> List.find (λ kp, unique kp.2 && existsb (λ e, clashes kp.1 doc e.2) coll) sch.

Definition stamped (doc : obj) : obj :=
  <["__v" := VNum 0]> (<["updatedAt" := now]> (<["createdAt" := now]> doc)).

Definition insertDoc (sch : Schema) (coll : collection) (i : N) (doc : obj) : Result collection :=
  doc ← validate sch doc;
  if existsb (λ e, (fst e =? i)%N) coll then Throw (DuplicateKey "_id")
  else match duplicateOf sch coll doc with
       | Some k => Throw (DuplicateKey k)
       | None => Ok (coll ++ [(i, stamped doc)])
       end.

(** *** Queries *)

(** The test that [{ k: cond }] puts on the stored value of [k].  A plain
    condition is cast like a value of the path, setters included. *)
Definition condition (sch : Schema) (k : string) (cond : value) : Result (option value → bool) :=
  match cond with
  | VStr _ | VNum _ | VBool _ =>
      match pathOf sch k with
      | Some p => match castPath p cond with
                  | Some c => Ok (λ stored, match stored with
                                            | Some v => sameKey c v
                                            | None => false
                                            end)
                  | None => Throw (CastError k)
                  end
      | None => Ok (queryMatches cond)
      end
  | _ => Ok (queryMatches cond)
  end.

Definition findOne (sch : Schema) (coll : collection) (k : string) (cond : value)
    : Result (option (N * obj)) :=
  test ← condition sch k cond;
  Ok (List.find (λ e, test (e.2 !! k)) coll).

Definition findById (coll : collection) (idv : value) : Result (option (N * obj)) :=
  match castObjectId idv with
  | Some i => Ok (List.find (λ e, (fst e =? i)%N) coll)
  | None => Throw (CastError "_id")
  end.

Definition findByIdAndDelete (coll : collection) (idv : value)
    : Result (collection * option (N * obj)) :=
  found ← findById coll idv;
  match found with
  | Some e => Ok (removeFirst e.1 coll, Some e)
  | None => Ok (coll, None)
  end.

(** *** Updates *)

Definition castable (sch : Schema) (kv : string * value) : bool :=
  match pathOf sch kv.1 with
  | Some p => bool_decide (is_Some (castPath p kv.2))
  | None => true
  end.

(** Strict mode drops the keys that are no path of the schema; a value that
    does not cast fails the whole update. *)
Definition castAssignments (sch : Schema) (a : obj) : Result obj :=
  match List.find (λ kv, negb (castable sch kv)) (map_to_list a) with
  | Some kv => Throw (CastError kv.1)
  | None => Ok (map_imap (λ k v, p ← pathOf sch k; castPath p v) a)
  end.

Definition castUpdate (sch : Schema) (upd : obj) : Result Update :=
  s ← operand upd "$set";
  u ← operand upd "$unset";
  c ← castAssignments sch (plainKeys upd ∪ s);
  if bool_decide (dom c ∩ dom u = ∅)
  then Ok {| sets := <["updatedAt" := now]> c; unsets := u;
             others := otherOperators upd;
             newId := (plainKeys upd ∪ s) !! "_id" |}
  else Throw UpdateError.

Definition applyUpdate (u : Update) (doc : obj) : Result obj :=
  map_fold (λ op arg acc, d ← acc; updateOperator op arg d)
           (Ok ((sets u ∪ doc) ∖ unsets u)) (others u).

(** [_id] is immutable: an update may only assign the value it has. *)
Definition keepsId (i : N) (u : Update) : bool :=
  match newId u with
  | Some v => bool_decide (castObjectId v = Some i)
  | None => true
  end.

(** [findByIdAndUpdate(id, upd, { new: true })]: the collection after the
    update and the updated document, if one has this id. *)
Definition findByIdAndUpdate (sch : Schema) (coll : collection) (idv : value) (upd : obj)
    : Result (collection * option (N * obj)) :=
  match castObjectId idv with
  | None => Throw (CastError "_id")
  | Some i =>
      u ← castUpdate sch upd;
      match lookupId coll i with
      | None => Ok (coll, None)
      | Some d =>
          if keepsId i u
          then d' ← applyUpdate u d; Ok (replaceFirst i d' coll, Some (i, d'))
          else Throw (StoreError "_id is immutable")
      end
  end.

(** *** Populate *)

(** Replaces the reference stored under [k] by the selected fields of the
    document it names, looked up in the model that the schema's [ref]
    names.  Populating a path that holds a value throws when no model is
    registered under that name. *)
Definition populate (models : string → option collection) (sch : Schema)
    (k : string) (fields : list string) (d : obj) : Result obj :=
  match d !! k, pathOf sch k ≫= ref with
  | Some v, Some r =>
      match models r with
      | None => Throw (MissingSchemaError r)
      | Some coll =>
          match v with
          | VNum i =>
              Ok (<[k := match lookupId coll (Z.to_N i) with
                         | Some m => VObj (only fields (lean (Z.to_N i) m))
                         | None => VNull
                         end]> d)
          | _ => Ok d
          end
      end
  | _, _ => Ok d
  end.

End Model.

End Model.

Export Model.

(** ** Models/Members.js and the loan model *)

Module Schemas.

Definition memberSchema : Schema :=
  [ ("name", withRequired (path TString));
    ("email", withLowercase (withUnique (withRequired (path TString))));
    ("password", withRequired (path TString));
    ("role", withDefault (Const (VStr "student"))
               (withEnum ["student"; "patron"; "admin"] (path TString)));
    ("studentId", path TString);
    ("department", path TString);
    ("phone", path TString);
    ("address", path TString);
    ("registrationDate", withDefault DateNow (path TDate));
    ("isActive", withDefault (Const (VBool true)) (path TBoolean)) ].

Definition borrowedSchema : Schema :=
  [ ("userId", withRequired (withRef "User" (path TObjectId)));
    ("bookId", withRequired (withRef "Book" (path TObjectId)));
    ("borrowDate", withDefault DateNow (path TDate));
    ("dueDate", withRequired (path TDate));
    ("returnDate", path TDate);
    ("returned", withDefault (Const (VBool false)) (path TBoolean));
    ("isOverdue", withDefault (Const (VBool false)) (path TBoolean)) ].

(** Models/Books.js.  The [min: 0] validator of [quantity] is applied by
    the route that saves a book ([validateBook] below). *)
Definition bookSchema : Schema :=
  [ ("title", withRequired (path TString));
    ("author", withRequired (path TString));
    ("isbn", withUnique (path TString));
    ("available", withDefault (Const (VBool true)) (path TBoolean));
    ("quantity", withDefault (Const (VNum 1)) (path TNumber));
    ("category", path TString);
    ("publicationYear", path TNumber) ].

End Schemas.

Export Schemas.

(** ** The state of the store and HTTP responses *)

Module Http.

Record Db := {
  members : collection;
  books : collection;
  loans : collection;
  nextId : N }.

Definition withMembers (c : collection) (db : Db) : Db :=
  {| members := c; books := books db; loans := loans db; nextId := nextId db |}.
Definition withLoans (c : collection) (db : Db) : Db :=
  {| members := members db; books := books db; loans := c; nextId := nextId db |}.
Definition withBooks (c : collection) (db : Db) : Db :=
  {| members := members db; books := c; loans := loans db; nextId := nextId db |}.
(** A fresh ObjectId has been drawn. *)
Definition bumped (db : Db) : Db :=
  {| members := members db; books := books db; loans := loans db;
     nextId := (nextId db + 1)%N |}.

(** The models registered with [mongoose.model(name, schema)]. *)
Definition models (db : Db) (name : string) : option collection :=
  if String.eqb name "Member" then Some (members db)
  else if String.eqb name "Book" then Some (books db)
  else if String.eqb name "Borrowed" then Some (loans db)
  else None.

Inductive Body :=
| Json (v : value)
| Page (e : Envelope).

Record response := { status : Z; body : Body }.

Definition json (st : Z) (fields : list (string * value)) : response :=
  {| status := st; body := Json (VObj (list_to_map fields)) |}.

(** [{ k: v }] in an object literal: an undefined property is left out when
    the object is sent to the store. *)
Definition setField (k : string) (v : option value) (o : obj) : obj :=
  match v with
  | Some x => <[k := x]> o
  | None => o
  end.

(** [v !== 'lit'] on a possibly undefined property. *)
Definition differs (v : option value) (lit : string) : bool :=
  match v with
  | Some x => negb (is_str x lit)
  | None => true
  end.

(** [{ $regex: term, $options: 'i' }] *)
Definition caseInsensitive (term : value) : value :=
  VObj (<["$regex" := term]> {["$options" := VStr "i"]}).

End Http.

Export Http.

(** ** utils/dbUtils.js: handleDBError *)

Module DbErrors.

Section DbErrors.

Context `{External}.

(** [error.name] and [error.code] are read off the constructor. *)
Definition handleDBError (error : Error) : response :=
  match error with
  | ValidationError _ =>
      json 400 [("error", VStr "Validation failed"); ("details", VStr (message error))]
  | CastError _ =>
      json 400 [("error", VStr "Invalid ID format")]
  | DuplicateKey field =>
      json 400 [("error", VStr (field ++ " must be unique"))]
  | _ =>
      json 500 [("error", VStr "Database operation failed");
                ("message", VStr (message error))]
  end.

End DbErrors.

End DbErrors.

Export DbErrors.

(** ** routes/members.js *)

Module Members.

Section Members.

Context `{External}.

Definition hidden : list string := ["password"; "__v"].

(** POST /members/login *)
Definition login (db : Db) (reqBody : obj) : response :=
  let email := reqBody !! "email" in
  let password := reqBody !! "password" in
  if negb (truthy email) || negb (truthy password)
  then json 400 [("message", VStr "Email and password are required")]
  else
    let attempt : Result response :=
      found ← findOne memberSchema (members db) "email" (default VNull email);
      match found with
      | None => Ok (json 401 [("message", VStr "Invalid email or password")])
      | Some e =>
          let user := lean e.1 e.2 in
          isPasswordValid ← bcryptCompare (default VNull password) (user !! "password");
          if negb isPasswordValid
          then Ok (json 401 [("message", VStr "Invalid email or password")])
          else Ok (json 200 [("message", VStr "login successful");
                             ("user", VObj (delete "password" user))])
      end in
    match attempt with
    | Ok r => r
    | Throw err => json 500 [("message", VStr (message err))]
    end.

(** The common part of the two registration routes, from the duplicate
    check on; [src] is the object literal given to [new Member]. *)
Definition register (db : Db) (email password : option value) (src : obj)
    (welcome : string) : Db * response :=
  let attempt : Result (Db * response) :=
    existingMember ← findOne memberSchema (members db) "email" (default VNull email);
    match existingMember with
    | Some _ => Ok (db, json 400 [("error", VStr "Email already registered")])
    | None =>
        hashedPassword ← bcryptHash (default VNull password);
        member ← construct memberSchema (<["password" := VStr hashedPassword]> src);
        members' ← insertDoc memberSchema (members db) (nextId db) member;
        Ok (withMembers members' (bumped db),
            json 201 [("message", VStr welcome); ("_id", oid (nextId db));
                      ("email", default VNull (member !! "email"))])
    end in
  match attempt with
  | Ok r => r
  | Throw err => (db, json 400 [("error", VStr (message err))])
  end.

(** POST /members/register/student *)
Definition registerStudent (db : Db) (reqBody : obj) : Db * response :=
  let name := reqBody !! "name" in
  let email := reqBody !! "email" in
  let password := reqBody !! "password" in
  let studentId := reqBody !! "studentId" in
  let department := reqBody !! "department" in
  let phone := reqBody !! "phone" in
  let address := reqBody !! "address" in
  if negb (truthy name) || negb (truthy email) || negb (truthy password)
     || negb (truthy studentId)
  then (db, json 400 [("error",
          VStr "Missing required fields: name, email, password, studentId")])
  else
    register db email password
      (setField "name" name (setField "email" email
        (<["role" := VStr "student"]> (setField "studentId" studentId
          (setField "department" department (setField "phone" phone
            (setField "address" address ∅)))))))
      "Student registered successfully".

(** POST /members/register/patron *)
Definition registerPatron (db : Db) (reqBody : obj) : Db * response :=
  let name := reqBody !! "name" in
  let email := reqBody !! "email" in
  let password := reqBody !! "password" in
  let phone := reqBody !! "phone" in
  let address := reqBody !! "address" in
  if negb (truthy name) || negb (truthy email) || negb (truthy password)
  then (db, json 400 [("error",
          VStr "Missing required fields: name, email, password")])
  else
    register db email password
      (setField "name" name (setField "email" email
        (<["role" := VStr "patron"]> (setField "phone" phone
          (setField "address" address ∅)))))
      "Patron registered successfully".

(** GET /members *)
Definition listMembers (db : Db) (query : obj) : response :=
  let page := default (VNum 1) (query !! "page") in
  let limit := default (VNum 10) (query !! "limit") in
  let role := query !! "role" in
  let search := query !! "search" in
  let isActive := query !! "isActive" in
  let filter : obj := ∅ in
  let filter := if truthy role then setField "role" role filter else filter in
  let filter := match isActive with
                | Some v => <["isActive" := VBool (is_str v "true")]> filter
                | None => filter
                end in
  let filter := match search with
                | Some term =>
                    if truthy search
                    then <["$or" := VArr [VObj {["name" := caseInsensitive term]};
                                          VObj {["email" := caseInsensitive term]};
                                          VObj {["studentId" := caseInsensitive term]}]]> filter
                    else filter
                | None => filter
                end in
  let attempt : Result response :=
    skip ← skipOf page limit;
    found ← runFind (members db) filter "registrationDate" skip
              (parseIntVal limit);
    total ← countDocuments (members db) filter;
    Ok {| status := 200;
          body := Page {| data := map (λ e, exclude hidden (lean e.1 e.2)) found;
                          total := total;
                          pageOut := parseIntVal page;
                          limitOut := parseIntVal limit;
                          pages := ceilDiv total (toNumber limit) |} |} in
  match attempt with
  | Ok r => r
  | Throw err => json 500 [("error", VStr (message err))]
  end.

(** GET /members/:id *)
Definition getMember (db : Db) (id : string) : response :=
  match findById (members db) (VStr id) with
  | Ok (Some e) =>
      {| status := 200; body := Json (VObj (exclude hidden (lean e.1 e.2))) |}
  | Ok None => json 404 [("error", VStr "Member not found")]
  | Throw err => json 500 [("error", VStr (message err))]
  end.

(** PUT /members/:id *)
Definition updateMember (db : Db) (id : string) (reqBody : obj) : Db * response :=
  let updateData := delete "password" reqBody in
  match findByIdAndUpdate memberSchema (members db) (VStr id) updateData with
  | Ok (members', Some e) =>
      (withMembers members' db,
       json 200 [("message", VStr "Member updated successfully");
                 ("member", VObj (exclude hidden (lean e.1 e.2)))])
  | Ok (_, None) => (db, json 404 [("error", VStr "Member not found")])
  | Throw err => (db, json 400 [("error", VStr (message err))])
  end.

(** The two profile routes: the update is issued first, the role of the
    document it returns is looked at afterwards. *)
Definition updateProfile (db : Db) (id : string) (updateData : obj)
    (role : string) (notFound wrongRole done : string) : Db * response :=
  match findByIdAndUpdate memberSchema (members db) (VStr id) updateData with
  | Ok (members', Some e) =>
      let member := exclude hidden (lean e.1 e.2) in
      if differs (member !! "role") role
      then (withMembers members' db, json 400 [("error", VStr wrongRole)])
      else (withMembers members' db,
            json 200 [("message", VStr done); ("member", VObj member)])
  | Ok (_, None) => (db, json 404 [("error", VStr notFound)])
  | Throw err => (db, json 400 [("error", VStr (message err))])
  end.

(** PUT /members/:id/student *)
Definition updateStudent (db : Db) (id : string) (reqBody : obj) : Db * response :=
  let updateData :=
    setField "studentId" (reqBody !! "studentId")
      (setField "department" (reqBody !! "department")
        (setField "phone" (reqBody !! "phone")
          (setField "address" (reqBody !! "address")
            (setField "name" (reqBody !! "name")
              (setField "email" (reqBody !! "email") ∅))))) in
  updateProfile db id updateData "student" "Student not found"
    "User is not a student" "Student profile updated successfully".

(** PUT /members/:id/patron *)
Definition updatePatron (db : Db) (id : string) (reqBody : obj) : Db * response :=
  let updateData :=
    setField "phone" (reqBody !! "phone")
      (setField "address" (reqBody !! "address")
        (setField "name" (reqBody !! "name")
          (setField "email" (reqBody !! "email") ∅))) in
  updateProfile db id updateData "patron" "Patron not found"
    "User is not a patron" "Patron profile updated successfully".

(** DELETE /members/:id *)
Definition deleteMember (db : Db) (id : string) : Db * response :=
  match findByIdAndDelete (members db) (VStr id) with
  | Ok (members', Some _) =>
      (withMembers members' db, json 200 [("message", VStr "Member deleted")])
  | Ok (_, None) => (db, json 404 [("error", VStr "Member not found")])
  | Throw err => (db, json 500 [("error", VStr (message err))])
  end.

(** The ObjectId of [new Model(src)]: the one [src] brings, or a fresh
    one. *)
Definition newDocumentId (db : Db) (src : obj) : Result N :=
  match src !! "_id" with
  | Some v => match castObjectId v with
              | Some i => Ok i
              | None => Throw (ValidationError "_id")
              end
  | None => Ok (nextId db)
  end.

(** POST /members *)
Definition createMember (db : Db) (reqBody : obj) : Db * response :=
  let saved : Result (N * collection) :=
    member ← construct memberSchema reqBody;
    i ← newDocumentId db reqBody;
    members' ← insertDoc memberSchema (members db) i member;
    Ok (i, members') in
  match saved with
  | Ok (i, members') =>
      (withMembers members' (bumped db),
       json 201 [("message", VStr "Member created"); ("_id", oid i)])
  | Throw err => (db, json 400 [("error", VStr (message err))])
  end.

End Members.

End Members.

Export Members.

(** ** routes/books.js *)

Module Books.

Section Books.

Context `{External}.

Definition bookFields : list string :=
  ["title"; "author"; "isbn"; "category"; "available"; "quantity"; "publicationYear"].

(** GET /books *)
Definition listBooks (db : Db) (query : obj) : response :=
  let page := default (VNum 1) (query !! "page") in
  let limit := default (VNum 10) (query !! "limit") in
  let category := query !! "category" in
  let available := query !! "available" in
  let search := query !! "search" in
  let filter : obj := ∅ in
  let filter := if truthy category then setField "category" category filter else filter in
  let filter := match available with
                | Some v => <["available" := VBool (is_str v "true")]> filter
                | None => filter
                end in
  let filter := match search with
                | Some term =>
                    if truthy search
                    then <["$or" := VArr [VObj {["title" := caseInsensitive term]};
                                          VObj {["author" := caseInsensitive term]}]]> filter
                    else filter
                | None => filter
                end in
  let attempt : Result response :=
    skip ← skipOf page limit;
    found ← runFind (books db) filter "createdAt" skip (parseIntVal limit);
    total ← countDocuments (books db) filter;
    Ok {| status := 200;
          body := Page {| data := map (λ e, only bookFields (lean e.1 e.2)) found;
                          total := total;
                          pageOut := parseIntVal page;
                          limitOut := parseIntVal limit;
                          pages := ceilDiv total (toNumber limit) |} |} in
  match attempt with
  | Ok r => r
  | Throw err => json 500 [("error", VStr (message err))]
  end.

(** GET /books/:id *)
Definition getBook (db : Db) (id : string) : response :=
  match findById (books db) (VStr id) with
  | Ok (Some e) => {| status := 200; body := Json (VObj (exclude ["__v"] (lean e.1 e.2))) |}
  | Ok None => json 404 [("error", VStr "Book not found")]
  | Throw err => json 500 [("error", VStr (message err))]
  end.

(** DELETE /books/:id *)
Definition deleteBook (db : Db) (id : string) : Db * response :=
  match findByIdAndDelete (books db) (VStr id) with
  | Ok (books', Some _) =>
      (withBooks books' db, json 200 [("message", VStr "Book deleted")])
  | Ok (_, None) => (db, json 404 [("error", VStr "Book not found")])
  | Throw err => (db, json 500 [("error", VStr (message err))])
  end.

(** [min: 0] on [quantity]: a number below zero fails validation. *)
Definition belowMin (v : option value) : bool :=
  match v with
  | Some (VNum n) => n <? 0
  | _ => false
  end.

(** [book.validate()]: the validators of the schema's paths. *)
Definition validateBook (book : obj) : Result obj :=
  book ← validate bookSchema book;
  if belowMin (book !! "quantity") then Throw (ValidationError "quantity") else Ok book.

(** The keys of the index on [isbn] ([unique], [sparse]): a document
    without the path has no entry, [null] is a key like any other. *)
Definition sameIndexKey (a b : value) : bool :=
  match a, b with
  | VNull, VNull => true
  | _, _ => sameKey a b
  end.

Definition isbnTaken (book : obj) (others : collection) : bool :=
  match book !! "isbn" with
  | Some a => existsb (λ e, match e.2 !! "isbn" with
                            | Some b => sameIndexKey a b
                            | None => false
                            end) others
  | None => false
  end.

(** POST /books *)
Definition createBook (db : Db) (reqBody : obj) : Db * response :=
  let saved : Result (N * obj * collection) :=
    book ← construct bookSchema reqBody;
    book ← validateBook book;
    i ← newDocumentId db reqBody;
    if isbnTaken book (books db) then Throw (DuplicateKey "isbn")
    else
      books' ← insertDoc bookSchema (books db) i book;
      Ok (i, stamped book, books') in
  match saved with
  | Ok (i, book, books') =>
      (withBooks books' (bumped db),
       {| status := 201; body := Json (VObj (lean i book)) |})
  | Throw err => (db, json 400 [("error", VStr (message err))])
  end.

(** PUT /books/:id.  The update is cast, not validated; the index on
    [isbn] refuses a key that another book holds. *)
Definition updateBook (db : Db) (id : string) (reqBody : obj) : Db * response :=
  match findByIdAndUpdate bookSchema (books db) (VStr id) reqBody with
  | Ok (books', Some e) =>
      if isbnTaken e.2 (removeFirst e.1 (books db))
      then (db, json 400 [("error", VStr (message (DuplicateKey "isbn")))])
      else (withBooks books' db,
            {| status := 200; body := Json (VObj (lean e.1 e.2)) |})
  | Ok (_, None) => (db, json 404 [("error", VStr "Book not found")])
  | Throw err => (db, json 400 [("error", VStr (message err))])
  end.

End Books.

End Books.

Export Books.

(** ** routes/loans.js *)

Module Loans.

Section Loans.

Context `{External}.

(** [.populate('userId', users).populate('bookId', books)] on one loan. *)
Definition populated (db : Db) (userFields bookFields : list string) (loan : obj)
    : Result obj :=
  loan ← populate (models db) borrowedSchema "userId" userFields loan;
  populate (models db) borrowedSchema "bookId" bookFields loan.

(** The filter that GET /loans builds from the query. *)
Definition loanFilter (query : obj) : obj :=
  let returned := query !! "returned" in
  let userId := query !! "userId" in
  let bookId := query !! "bookId" in
  let isOverdue := query !! "isOverdue" in
  let filter : obj := ∅ in
  let filter := match returned with
                | Some v => <["returned" := VBool (is_str v "true")]> filter
                | None => filter
                end in
  let filter := if truthy userId then setField "userId" userId filter else filter in
  let filter := if truthy bookId then setField "bookId" bookId filter else filter in
  let filter := match isOverdue with
                | Some v => <["isOverdue" := VBool (is_str v "true")]> filter
                | None => filter
                end in
  filter.

(** GET /loans *)
Definition listLoans (db : Db) (query : obj) : response :=
  let page := default (VNum 1) (query !! "page") in
  let limit := default (VNum 10) (query !! "limit") in
  let filter := loanFilter query in
  let attempt : Result response :=
    skip ← skipOf page limit;
    found ← runFind (loans db) filter "borrowDate" skip (parseIntVal limit);
    rows ← mapM (λ e, populated db ["name"; "email"; "studentId"; "role"]
                        ["title"; "author"; "isbn"; "category"] (lean e.1 e.2)) found;
    total ← countDocuments (loans db) filter;
    Ok {| status := 200;
          body := Page {| data := map (exclude ["__v"]) rows;
                          total := total;
                          pageOut := parseIntVal page;
                          limitOut := parseIntVal limit;
                          pages := ceilDiv total (toNumber limit) |} |} in
  match attempt with
  | Ok r => r
  | Throw err => json 500 [("error", VStr (message err))]
  end.

(** GET /loans/:id *)
Definition getLoan (db : Db) (id : string) : response :=
  let attempt : Result response :=
    found ← findById (loans db) (VStr id);
    match found with
    | Some e =>
        loan ← populated db ["name"; "email"; "studentId"; "role"]
                 ["title"; "author"; "isbn"; "category"] (lean e.1 e.2);
        Ok {| status := 200; body := Json (VObj (exclude ["__v"] loan)) |}
    | None => Ok (json 404 [("error", VStr "Loan not found")])
    end in
  match attempt with
  | Ok r => r
  | Throw err => json 500 [("error", VStr (message err))]
  end.

(** The answer of the two writing routes once the store has been written:
    the populated loan, or 400 when populating throws. *)
Definition answer (db : Db) (st : Z) (i : N) (loan : obj) : response :=
  match populated db ["name"; "email"] ["title"; "author"] (lean i loan) with
  | Ok d => {| status := st; body := Json (VObj d) |}
  | Throw err => json 400 [("error", VStr (message err))]
  end.

(** The ObjectId of [new Borrowed(src)]: the one [src] brings, or a fresh
    one. *)
Definition loanId (db : Db) (src : obj) : Result N :=
  match src !! "_id" with
  | Some v => match castObjectId v with
              | Some i => Ok i
              | None => Throw (ValidationError "_id")
              end
  | None => Ok (nextId db)
  end.

(** POST /loans *)
Definition createLoan (db : Db) (reqBody : obj) : Db * response :=
  let saved : Result (N * obj * collection) :=
    loan ← construct borrowedSchema reqBody;
    i ← loanId db reqBody;
    loans' ← insertDoc borrowedSchema (loans db) i loan;
    Ok (i, stamped loan, loans') in
  match saved with
  | Ok (i, loan, loans') =>
      let db' := withLoans loans' (bumped db) in
      (db', answer db' 201 i loan)
  | Throw err => (db, json 400 [("error", VStr (message err))])
  end.

(** PUT /loans/:id *)
Definition updateLoan (db : Db) (id : string) (reqBody : obj) : Db * response :=
  match findByIdAndUpdate borrowedSchema (loans db) (VStr id) reqBody with
  | Ok (loans', Some e) =>
      let db' := withLoans loans' db in
      (db', answer db' 200 e.1 e.2)
  | Ok (_, None) => (db, json 404 [("error", VStr "Loan not found")])
  | Throw err => (db, json 400 [("error", VStr (message err))])
  end.

(** DELETE /loans/:id *)
Definition deleteLoan (db : Db) (id : string) : Db * response :=
  match findByIdAndDelete (loans db) (VStr id) with
  | Ok (loans', Some _) =>
      (withLoans loans' db, json 200 [("message", VStr "Loan deleted")])
  | Ok (_, None) => (db, json 404 [("error", VStr "Loan not found")])
  | Throw err => (db, json 500 [("error", VStr (message err))])
  end.

(** The operations on loans that this layer exposes. *)
Inductive LoanOp :=
| PostLoan (reqBody : obj)
| PutLoan (id : string) (reqBody : obj)
| DeleteLoan (id : string).

Definition stepLoan (db : Db) (op : LoanOp) : Db :=
  match op with
  | PostLoan reqBody => (createLoan db reqBody).1
  | PutLoan id reqBody => (updateLoan db id reqBody).1
  | DeleteLoan id => (deleteLoan db id).1
  end.

Definition runLoans (db : Db) (ops : list LoanOp) : Db := foldl stepLoan db ops.

(** The [returned] flag of the loan with ObjectId [i], if it is stored. *)
Definition isReturned (db : Db) (i : N) : option bool :=
  d ← lookupId (loans db) i;
  Some (match d !! "returned" with
        | Some (VBool true) => true
        | _ => false
        end).

(** The filter that GET /loans/user/:userId builds. *)
Definition userLoanFilter (userId : string) (query : obj) : obj :=
  let returned := query !! "returned" in
  let filter : obj := {["userId" := VStr userId]} in
  let filter := match returned with
                | Some v => <["returned" := VBool (is_str v "true")]> filter
                | None => filter
                end in
  filter.

(** GET /loans/user/:userId.  Only [bookId] is populated. *)
Definition userLoans (db : Db) (userId : string) (query : obj) : response :=
  let page := default (VNum 1) (query !! "page") in
  let limit := default (VNum 10) (query !! "limit") in
  let filter := userLoanFilter userId query in
  let attempt : Result response :=
    skip ← skipOf page limit;
    found ← runFind (loans db) filter "borrowDate" skip (parseIntVal limit);
    rows ← mapM (λ e, populate (models db) borrowedSchema "bookId"
                        ["title"; "author"; "category"] (lean e.1 e.2)) found;
    total ← countDocuments (loans db) filter;
    Ok {| status := 200;
          body := Page {| data := rows;
                          total := total;
                          pageOut := parseIntVal page;
                          limitOut := parseIntVal limit;
                          pages := ceilDiv total (toNumber limit) |} |} in
  match attempt with
  | Ok r => r
  | Throw err => json 500 [("error", VStr (message err))]
  end.

(** GET /loans/reports/overdue; the rows are sorted by [dueDate]. *)
Definition overdueLoans (db : Db) (query : obj) : response :=
  let page := default (VNum 1) (query !! "page") in
  let limit := default (VNum 10) (query !! "limit") in
  let filter : obj := <["isOverdue" := VBool true]> {["returned" := VBool false]} in
  let attempt : Result response :=
    skip ← skipOf page limit;
    found ← runFind (loans db) filter "dueDate" skip (parseIntVal limit);
    rows ← mapM (λ e, populated db ["name"; "email"; "phone"] ["title"; "author"]
                        (lean e.1 e.2)) found;
    total ← countDocuments (loans db) filter;
    Ok {| status := 200;
          body := Page {| data := rows;
                          total := total;
                          pageOut := parseIntVal page;
                          limitOut := parseIntVal limit;
                          pages := ceilDiv total (toNumber limit) |} |} in
  match attempt with
  | Ok r => r
  | Throw err => json 500 [("error", VStr (message err))]
  end.

End Loans.

End Loans.

Export Loans.

(** ** server.js *)

Module Server.

Section Server.

Context `{External}.

(** GET /borrowed: every loan, twenty to the page unless asked
    otherwise. *)
Definition borrowed (db : Db) (query : obj) : response :=
  let page := default (VNum 1) (query !! "page") in
  let limit := default (VNum 20) (query !! "limit") in
  let attempt : Result response :=
    skip ← skipOf page limit;
    found ← runFind (loans db) ∅ "borrowDate" skip (parseIntVal limit);
    rows ← mapM (λ e, populated db ["name"; "email"] ["title"; "author"]
                        (lean e.1 e.2)) found;
    total ← countDocuments (loans db) ∅;
    Ok {| status := 200;
          body := Page {| data := rows;
                          total := total;
                          pageOut := parseIntVal page;
                          limitOut := parseIntVal limit;
                          pages := ceilDiv total (toNumber limit) |} |} in
  match attempt with
  | Ok r => r
  | Throw err => json 500 [("message", VStr "Error fetching borrowed books");
                           ("error", VStr (message err))]
  end.

End Server.

End Server.

Export Server.

(** ** seedData.js *)

Module Seed.

Definition mockMembers : list obj :=
  [ list_to_map [("name", VStr "John Student"); ("email", VStr "john.student@example.com");
                 ("password", VStr "password123"); ("role", VStr "student");
                 ("studentId", VStr "STU001"); ("department", VStr "Computer Science");
                 ("phone", VStr "555-0101"); ("address", VStr "123 Main St, City");
                 ("isActive", VBool true)];
    list_to_map [("name", VStr "Jane Patron"); ("email", VStr "jane.patron@example.com");
                 ("password", VStr "password456"); ("role", VStr "patron");
                 ("phone", VStr "555-0102"); ("address", VStr "456 Oak Ave, City");
                 ("isActive", VBool true)];
    list_to_map [("name", VStr "Alice Admin"); ("email", VStr "alice.admin@example.com");
                 ("password", VStr "admin123"); ("role", VStr "admin");
                 ("phone", VStr "555-0103"); ("address", VStr "789 Pine Rd, City");
                 ("isActive", VBool true)];
    list_to_map [("name", VStr "Bob Student"); ("email", VStr "bob.student@example.com");
                 ("password", VStr "password789"); ("role", VStr "student");
                 ("studentId", VStr "STU002"); ("department", VStr "Mathematics");
                 ("phone", VStr "555-0104"); ("address", VStr "321 Elm St, City");
                 ("isActive", VBool true)];
    list_to_map [("name", VStr "Carol Patron"); ("email", VStr "carol.patron@example.com");
                 ("password", VStr "password321"); ("role", VStr "patron");
                 ("phone", VStr "555-0105"); ("address", VStr "654 Maple Dr, City");
                 ("isActive", VBool false)];
    list_to_map [("name", VStr "David Student"); ("email", VStr "david.student@example.com");
                 ("password", VStr "password654"); ("role", VStr "student");
                 ("studentId", VStr "STU003"); ("department", VStr "Engineering");
                 ("phone", VStr "555-0106"); ("address", VStr "987 Cedar Ln, City");
                 ("isActive", VBool true)] ].

Section Seed.

Context `{External}.

(** [{ ...member, password: hashedPassword }] *)
Definition hashedMember (member : obj) : Result obj :=
  hashedPassword ← bcryptHash (default VNull (member !! "password"));
  Ok (<["password" := VStr hashedPassword]> member).

(** [Member.insertMany(docs)]: every document is built and validated; then
    the documents are inserted in order, each under the ObjectId it brings
    or a fresh one. *)
Definition insertNext (acc : Result Db) (entry : obj * obj) : Result Db :=
  db ← acc;
  i ← newDocumentId db entry.1;
  members' ← insertDoc memberSchema (members db) i entry.2;
  Ok (withMembers members' (bumped db)).

Definition insertMany (db : Db) (docs : list obj) : Result Db :=
  entries ← mapM (λ src, doc ← construct memberSchema src;
                         doc ← validate memberSchema doc;
                         Ok (src, doc)) docs;
  foldl insertNext (Ok db) entries.

(** [seedDatabase()]: the members are cleared, the mock members are hashed
    and inserted.  [Throw] is the exit with status 1. *)
Definition seedDatabase (db : Db) : Result Db :=
  let cleared := withMembers [] db in
  hashedMembers ← mapM hashedMember mockMembers;
  insertMany cleared hashedMembers.

End Seed.

End Seed.

Export Seed.

(** ** The statistics routes

    [stats/overview] (routes/members.js), [stats/by-category]
    (routes/books.js) and [stats/summary] (routes/loans.js) hand a fixed
    pipeline to [Model.aggregate]; the pipelines are evaluated here on the
    stored collection. *)

Module Stats.

(** The truth value of the condition of a [$cond]: [false], [null], [0]
    and a missing field are false, every other value is true. *)
Definition condTruthy (v : option value) : bool :=
  match v with
  | None | Some VNull => false
  | Some (VBool b) => b
  | Some (VNum n) => negb (n =? 0)
  | Some _ => true
  end.

(** Equality of group keys: documents are grouped by the value of the
    key, arrays and embedded documents included; a missing field groups
    with [null]. *)
Definition sameGroupKey (a b : value) : bool := bool_decide (a = b).

(** A group of [{ $group: { _id, n: { $sum: 1 }, m: { $sum: { $cond: [flag, 1, 0] } } } }]. *)
Record Group := { groupId : value; tally : Z; flagged : Z }.

Definition oneIf (b : bool) : Z := if b then 1 else 0.

(** A document joins the group of its key, or starts one. *)
Fixpoint addToGroup (k : value) (m : bool) (groups : list Group) : list Group :=
  match groups with
  | g :: rest =>
      if sameGroupKey (groupId g) k
      then {| groupId := groupId g; tally := tally g + 1; flagged := flagged g + oneIf m |} :: rest
      else g :: addToGroup k m rest
  | [] => [{| groupId := k; tally := 1; flagged := oneIf m |}]
  end.

Definition groupBy (field flag : string) (coll : collection) : list Group :=
  foldl (λ groups e, addToGroup (default VNull (e.2 !! field)) (condTruthy (e.2 !! flag)) groups)
        [] coll.

(** [{ $sort: { total: -1 } }] *)
Fixpoint insertBySize (g : Group) (sorted : list Group) : list Group :=
  match sorted with
  | h :: rest => if tally h <? tally g then g :: sorted else h :: insertBySize g rest
  | [] => [g]
  end.

Definition sortBySize (groups : list Group) : list Group := foldr insertBySize [] groups.

Definition groupJson (n m : string) (g : Group) : value :=
  VObj (list_to_map [("_id", groupId g); (n, VNum (tally g)); (m, VNum (flagged g))]).

(** [{ field: b }] in a [$match] stage: the stored value is [b], or an
    array that holds [b]. *)
Definition holdsBool (b : bool) (v : option value) : bool :=
  match v with
  | Some (VBool c) => Bool.eqb c b
  | Some (VArr vs) => existsb (λ x, match x with
                                    | VBool c => Bool.eqb c b
                                    | _ => false
                                    end) vs
  | _ => false
  end.

Definition countWhere (test : obj → bool) (coll : collection) : nat :=
  length (List.filter (λ e, test e.2) coll).

(** [{ $count: "total" }]: one document that holds the count, and none
    when no document reaches the stage. *)
Definition counted (n : nat) : value :=
  match n with
  | O => VArr []
  | S _ => VArr [VObj {["total" := VNum (Z.of_nat n)]}]
  end.

Definition isActiveLoan (d : obj) : bool := holdsBool false (d !! "returned").
Definition isReturnedLoan (d : obj) : bool := holdsBool true (d !! "returned").
Definition isOverdueLoan (d : obj) : bool :=
  holdsBool true (d !! "isOverdue") && holdsBool false (d !! "returned").

Section Stats.

Context `{External}.

(** [Model.aggregate(pipeline)]: the store fails with an error, or the
    pipeline is evaluated. *)
Definition aggregate {A : Type} (failure : option Error) (result : A) : Result A :=
  match failure with
  | Some err => Throw err
  | None => Ok result
  end.

(** GET /members/stats/overview *)
Definition memberStats (failure : option Error) (db : Db) : response :=
  match aggregate failure (groupBy "role" "isActive" (members db)) with
  | Ok stats => {| status := 200; body := Json (VArr (map (groupJson "count" "active") stats)) |}
  | Throw err => json 500 [("error", VStr (message err))]
  end.

(** GET /books/stats/by-category *)
Definition bookStats (failure : option Error) (db : Db) : response :=
  match aggregate failure (sortBySize (groupBy "category" "available" (books db))) with
  | Ok stats => {| status := 200;
                   body := Json (VArr (map (groupJson "total" "available") stats)) |}
  | Throw err => json 500 [("error", VStr (message err))]
  end.

(** GET /loans/stats/summary: the one document of the [$facet] stage. *)
Definition loanStats (failure : option Error) (db : Db) : response :=
  match aggregate failure
          [("activeLoans", counted (countWhere isActiveLoan (loans db)));
           ("returnedLoans", counted (countWhere isReturnedLoan (loans db)));
           ("overdueLoans", counted (countWhere isOverdueLoan (loans db)))] with
  | Ok facets => json 200 facets
  | Throw err => json 500 [("error", VStr (message err))]
  end.

End Stats.

End Stats.

Export Stats.

(** ** A stand-in for the collaborators

    Used to run the routes on concrete requests: ObjectIds are the 24-digit
    hexadecimal strings, dates are kept as they are sent, [find] returns
    the whole collection, a hash is the password behind the [$2b$10$]
    prefix, [compare] throws unless it is given two strings, letters are
    lowered as ASCII.  No theorem with an [External] parameter depends on it. *)

Module Stub.

Definition stubObjectId (v : value) : option N :=
  match v with
  | VStr s => if isValidObjectId s
              then Z.to_N <$> parseDigits 16 s None
              else None
  | _ => None
  end.

Definition stubDate (v : value) : option value :=
  match v with
  | VStr _ | VNum _ => Some v
  | _ => None
  end.

Definition stubNumber (v : value) : option value :=
  match v with
  | VNum _ => Some v
  | _ => None
  end.

Definition stubHash (v : value) : Result string :=
  match v with
  | VStr s => Ok ("$2b$10$" ++ s)%string
  | _ => Throw (StoreError "Illegal arguments")
  end.

Definition stubCompare (password : value) (hash : option value) : Result bool :=
  match password, hash with
  | VStr s, Some (VStr h) => Ok (String.eqb h ("$2b$10$" ++ s))
  | _, _ => Throw (StoreError "Illegal arguments")
  end.

Definition stubCompare_illegal (password : value) (hash : option value) :
  (∀ s, password ≠ VStr s) ∨ (∀ h, hash ≠ Some (VStr h)) →
  ∃ err, stubCompare password hash = Throw err.
Proof.
  intros Hbad. exists (StoreError "Illegal arguments").
  destruct password as [| | |s| | |]; try reflexivity.
  destruct hash as [[| | |h| | |]|]; try reflexivity.
  destruct Hbad as [Hbad|Hbad]; [destruct (Hbad s eq_refl) | destruct (Hbad h eq_refl)].
Qed.

Definition stubMessage (e : Error) : string :=
  match e with
  | CastError k => ("Cast failed at path " ++ k)%string
  | ValidationError k => ("Validation failed at path " ++ k)%string
  | DuplicateKey k => ("E11000 duplicate key error on " ++ k)%string
  | MissingSchemaError m => ("Schema hasn't been registered for model " ++ m)%string
  | UpdateError => "Invalid update"
  | StoreError msg => msg
  | TypeError => "Cannot convert object to primitive value"
  end.

Definition stub : External :=
  {| castObjectId := stubObjectId;
     castDate := stubDate;
     castNumber := stubNumber;
     queryMatches := λ _ _, false;
     updateOperator := λ _ _ _, Throw UpdateError;
     runFind := λ coll _ _ _ _, Ok coll;
     countDocuments := λ coll _, Ok (Z.of_nat (length coll));
     bcryptHash := stubHash;
     bcryptCompare := stubCompare;
     bcryptCompare_illegal := stubCompare_illegal;
     now := VStr "2026-01-24T00:00:00.000Z";
     message := stubMessage;
     toLowerCase := lowerAscii;
     toLowerCase_ascii := λ _ _, eq_refl |}.

(** A store that records the query it is given: [find] returns one
    document that holds the filter, the sort key, the offset and the
    limit. *)
Definition showNum (n : num) : value :=
  match n with
  | Int z => VNum z
  | PosInf => VStr "Infinity"
  | NegInf => VStr "-Infinity"
  | NaN => VStr "NaN"
  | Other => VStr "other"
  end.

Definition recorder : External :=
  {| castObjectId := stubObjectId;
     castDate := stubDate;
     castNumber := stubNumber;
     queryMatches := λ _ _, false;
     updateOperator := λ _ _ _, Throw UpdateError;
     runFind := λ _ filter sortKey skip limit,
       Ok [(0%N, list_to_map [("filter", VObj filter); ("sort", VStr sortKey);
                              ("skip", showNum skip); ("limit", showNum limit)])];
     countDocuments := λ _ _, Ok 25;
     bcryptHash := stubHash;
     bcryptCompare := stubCompare;
     bcryptCompare_illegal := stubCompare_illegal;
     now := VStr "2026-01-24T00:00:00.000Z";
     message := stubMessage;
     toLowerCase := lowerAscii;
     toLowerCase_ascii := λ _ _, eq_refl |}.

(** What the recorder saw, read back from a list response. *)
Definition recorded (r : response) (k : string) : option value :=
  match body r with
  | Page e => match data e with
              | row :: _ => row !! k
              | [] => None
              end
  | Json _ => None
  end.

Definition recordedFilter (r : response) (k : string) : option value :=
  match recorded r "filter" with
  | Some (VObj filter) => filter !! k
  | _ => None
  end.

Definition window (r : response) : option (num * num) :=
  match body r with
  | Page e => Some (pageOut e, limitOut e)
  | Json _ => None
  end.

(** A 24-digit identifier and a store for the examples. *)
Definition id1 : string := "000000000000000000000001".
Definition id2 : string := "000000000000000000000002".

Definition jane : obj :=
  list_to_map [("name", VStr "Jane Patron"); ("email", VStr "jane.patron@example.com");
               ("password", VStr "$2b$10$password456"); ("role", VStr "patron");
               ("phone", VStr "555-0102"); ("isActive", VBool true)].

Definition john : obj :=
  list_to_map [("name", VStr "John Student"); ("email", VStr "john.student@example.com");
               ("password", VStr "$2b$10$password123"); ("role", VStr "student");
               ("studentId", VStr "STU001"); ("isActive", VBool true)].

Definition returnedLoan : obj :=
  list_to_map [("userId", oid 1); ("bookId", oid 7); ("dueDate", VStr "2026-02-01");
               ("returnDate", VStr "2026-01-30"); ("returned", VBool true);
               ("isOverdue", VBool false)].

Definition emptyDb : Db := {| members := []; books := []; loans := []; nextId := 1 |}.

Definition sampleDb : Db :=
  {| members := [(1%N, jane); (2%N, john)]; books := [];
     loans := [(3%N, returnedLoan)]; nextId := 4 |}.

Definition id3 : string := "000000000000000000000003".

End Stub.

Export Stub.

(** ** Specification-side definitions *)

(** What the filter builder is specified to do to one value: the strings
    ['true'] and ['false'] become booleans, anything else passes through. *)
Definition coerced (v : value) : value :=
  match v with
  | VStr s => if decide (s = "true") then VBool true
              else if decide (s = "false") then VBool false
              else v
  | _ => v
  end.

(** A raw [page] or [limit]: absent, or a string. *)
Definition raw (v : option value) : bool :=
  match v with
  | None | Some (VStr _) => true
  | Some _ => false
  end.

(** A string that holds no numeral: the empty string, or a string that
    starts with a letter. *)
Definition wordy (s : string) : bool :=
  match s with
  | String c _ => ((65 <=? code c) && (code c <=? 90)) || ((97 <=? code c) && (code c <=? 122))
  | EmptyString => true
  end.

(** A list endpoint as the specification composes it from the utilities:
    the filter builder and the search builder give the predicate, the
    pagination resolver the window, the formatter the envelope.  [rows]
    is the projection the endpoint applies to what the store returns. *)
Definition listViaUtils `{External} (coll : collection)
    (allowedFields searchFields : list string) (sortKey : string)
    (rows : collection → Result (list obj)) (query : obj) : response :=
  let filter := buildSearchFilter (query !! "search") searchFields
                ∪ buildFilter query allowedFields in
  let attempt : Result response :=
    p ← getPaginationParams query;
    found ← runFind coll filter sortKey (skip p) (limit p);
    data ← rows found;
    total ← countDocuments coll filter;
    Ok {| status := 200;
          body := Page (formatPaginationResponse data total (page p) (limit p)) |} in
  match attempt with
  | Ok r => r
  | Throw err => json 500 [("error", VStr (message err))]
  end.

Definition memberRows (found : collection) : Result (list obj) :=
  Ok (map (λ e, exclude hidden (lean e.1 e.2)) found).

Definition bookRows (found : collection) : Result (list obj) :=
  Ok (map (λ e, only bookFields (lean e.1 e.2)) found).

Definition loanRows `{External} (db : Db) (found : collection) : Result (list obj) :=
  rows ← mapM (λ e, populated db ["name"; "email"; "studentId"; "role"]
                      ["title"; "author"; "isbn"; "category"] (lean e.1 e.2)) found;
  Ok (map (exclude ["__v"]) rows).

(** Requests on which the handlers and the utilities agree. *)

(** A page or limit that is absent, or that [Number] and [parseInt] read
    as the same integer, at least [lo] and, if [hi] is given, at most
    [hi]. *)
Definition reads (lo : Z) (hi : option Z) (param : option value) : bool :=
  match param with
  | None => true
  | Some v =>
      match toNumber v, parseIntVal v with
      | Int a, Int b =>
          (a =? b) && (lo <=? a) && match hi with
                                    | Some h => a <=? h
                                    | None => true
                                    end
      | _, _ => false
      end
  end.

(** A boolean filter parameter: absent, ['true'] or ['false']. *)
Definition flag (param : option value) : bool :=
  match param with
  | None => true
  | Some v => is_str v "true" || is_str v "false"
  end.

(** An exact-match filter parameter: absent, or a truthy value other than
    the strings ['true'] and ['false']. *)
Definition exact (param : option value) : bool :=
  match param with
  | None => true
  | Some v => truthy param && negb (is_str v "true") && negb (is_str v "false")
  end.

Definition windowed (query : obj) : bool :=
  reads 1 None (query !! "page") && reads 1 (Some 100) (query !! "limit").

(** The member objects a response carries, by the shape of the route's
    answer. *)
Inductive Shape :=
| Whole
| Under (k : string)
| Rows
| RowsUnder (k : string).

Definition inner (k : string) (o : obj) : list obj :=
  match o !! k with
  | Some (VObj m) => [m]
  | _ => []
  end.

Definition views (sh : Shape) (r : response) : list obj :=
  match sh, body r with
  | Whole, Json (VObj o) => [o]
  | Under k, Json (VObj o) => inner k o
  | Rows, Page e => data e
  | RowsUnder k, Page e => concat (map (inner k) (data e))
  | _, _ => []
  end.

Definition hides (k : string) (sh : Shape) (r : response) : Prop :=
  Forall (λ m : obj, m !! k = None) (views sh r).

(** The value a freshly built document has under a path of the schema:
    the cast of what the source object brings, or the default. *)
Definition built `{External} (src : obj) (k : string) (p : SchemaPath) : option value :=
  match src !! k with
  | Some v => castPath p v
  | None => match dflt p with
            | Const v => Some v
            | DateNow => Some now
            | NoDefault => None
            end
  end.

(** The one answer to a failed login. *)
Definition refused : response :=
  json 401 [("message", VStr "Invalid email or password")].

(** A stored reference: anything but an embedded object. *)
Definition reference (v : option value) : bool :=
  match v with
  | Some (VObj _) => false
  | _ => true
  end.

(** The loans of a collection name their member by reference. *)
Definition holdsReferences (coll : collection) : Prop :=
  ∀ e, e ∈ coll → reference (e.2 !! "userId") = true.

(** [find] returns documents of the collection it is run on. *)
Definition findsStored `{External} (coll : collection) : Prop :=
  ∀ filter sortKey skip limit found,
    runFind coll filter sortKey skip limit = Ok found → found ⊆ coll.

(** A registration request, by route. *)
Inductive Registration :=
| AsStudent (reqBody : obj)
| AsPatron (reqBody : obj).

Definition submit `{External} (db : Db) (r : Registration) : Db * response :=
  match r with
  | AsStudent reqBody => registerStudent db reqBody
  | AsPatron reqBody => registerPatron db reqBody
  end.

Definition bodyOf (r : Registration) : obj :=
  match r with
  | AsStudent reqBody | AsPatron reqBody => reqBody
  end.

Definition nonEmptyText (v : option value) : bool :=
  match v with
  | Some (VStr s) => negb (String.eqb s "")
  | _ => false
  end.

Definition optionalText (v : option value) : bool :=
  match v with
  | None | Some (VStr _) => true
  | _ => false
  end.

(** The presence check of the registration routes: [name], [email] and
    [password] are truthy, and so is [studentId] for a student. *)
Definition present (r : Registration) : bool :=
  let b := bodyOf r in
  truthy (b !! "name") && truthy (b !! "email") && truthy (b !! "password")
  && match r with
     | AsStudent _ => truthy (b !! "studentId")
     | AsPatron _ => true
     end.

(** The first registration is accepted and stored, the second is refused
    as a duplicate and changes nothing. *)
Definition acceptedThenRejected `{External} (db : Db) (first second : Registration) : Prop :=
  let r1 := submit db first in
  let r2 := submit r1.1 second in
  status r1.2 = 201
  ∧ length (members r1.1) = 1%nat
  ∧ r2 = (r1.1, json 400 [("error", VStr "Email already registered")]).

(** What an update document assigns to [k]: Mongoose reads it at top level
    first, then under [$set]. *)
Definition assigned (k : string) (upd : obj) : option value :=
  match upd !! "$set" with
  | Some (VObj m) => (plainKeys upd ∪ m) !! k
  | _ => plainKeys upd !! k
  end.

Definition unset (k : string) (upd : obj) : bool :=
  match upd !! "$unset" with
  | Some (VObj m) => bool_decide (is_Some (m !! k))
  | _ => false
  end.

(** An update document that leaves the [returned] flag of a returned loan
    alone: it uses no operator besides [$set] and [$unset], does not unset
    [returned], and assigns it nothing that casts to [false] or [null]. *)
Definition keepsReturned (upd : obj) : bool :=
  bool_decide (otherOperators upd = ∅)
  && negb (unset "returned" upd)
  && match assigned "returned" upd with
     | None => true
     | Some v => match castBoolean v with
                 | Some (VBool true) | None => true
                 | Some _ => false
                 end
     end.

(** An operation that neither deletes loan [i] nor updates it with a
    document that touches [returned]. *)
Definition spares `{External} (i : N) (op : LoanOp) : bool :=
  match op with
  | PostLoan _ => true
  | PutLoan id upd =>
      if bool_decide (castObjectId (VStr id) = Some i) then keepsReturned upd else true
  | DeleteLoan id => negb (bool_decide (castObjectId (VStr id) = Some i))
  end.

(** The test that the lookup by email puts on a stored address: the query
    is lower-cased by the schema's setter, the stored value is not. *)
Definition emailIs `{External} (e : string) (stored : option value) : bool :=
  match stored with
  | Some v => sameKey (VStr (toLowerCase e)) v
  | None => false
  end.

(** The body of a login request. *)
Definition credentials (e pw : string) : obj :=
  <["email" := VStr e]> {["password" := VStr pw]}.

(** The requests that write the member collection. *)
Inductive MemberOp :=
| Register (r : Registration)
| PostMember (reqBody : obj)
| PutMember (id : string) (reqBody : obj)
| PutStudent (id : string) (reqBody : obj)
| PutPatron (id : string) (reqBody : obj)
| DeleteMember (id : string).

Definition stepMember `{External} (db : Db) (op : MemberOp) : Db :=
  match op with
  | Register r => (submit db r).1
  | PostMember reqBody => (createMember db reqBody).1
  | PutMember id reqBody => (updateMember db id reqBody).1
  | PutStudent id reqBody => (updateStudent db id reqBody).1
  | PutPatron id reqBody => (updatePatron db id reqBody).1
  | DeleteMember id => (deleteMember db id).1
  end.

Definition runMembers `{External} (db : Db) (ops : list MemberOp) : Db :=
  foldl stepMember db ops.

(** No two documents of the collection hold the same key under [k]. *)
Fixpoint distinctOn (k : string) (coll : collection) : bool :=
  match coll with
  | x :: rest => forallb (λ y, negb (clashes k x.2 y.2)) rest && distinctOn k rest
  | [] => true
  end.

(** A required string path that the body leaves out, or gives as [null]
    or as the empty string. *)
Definition missing (v : option value) : bool :=
  match v with
  | None | Some VNull => true
  | Some (VStr s) => String.eqb s ""
  | Some _ => false
  end.

(** What a list route asks the store for: the documents that match
    [filter], sorted on [sortKey], from the offset [(page - 1) * limit], at
    most [parseInt(limit)] of them; an absent [page] is 1, an absent
    [limit] is [perPage]. *)
Definition asked `{External} (coll : collection) (filter : obj) (sortKey : string)
    (perPage : Z) (query : obj) : Result collection :=
  let page := default (VNum 1) (query !! "page") in
  let limit := default (VNum perPage) (query !! "limit") in
  skip ← skipOf page limit;
  runFind coll filter sortKey skip (parseIntVal limit).

(** A stored loan that names a member. *)
Definition namesMember (e : N * obj) : Prop := is_Some (e.2 !! "userId").

(** The answer of a route whose [populate] found no model for the
    member. *)
Definition noUserModel `{External} : response :=
  json 500 [("error", VStr (message (MissingSchemaError "User")))].

(** What a list route that populates the member answers, where [asks] is
    what the store returned to it and [fail] its answer to an error: 200 or 500,
    without a [userId] in any row, and the error of the missing model
    when the store returned a loan that names a member. *)
Definition breaks (r : response) (asks : Result collection) (fail : Error → response) : Prop :=
  (status r = 200 ∨ status r = 500)
  ∧ hides "userId" Rows r
  ∧ ∀ found, asks = Ok found → Exists namesMember found →
             r = fail (MissingSchemaError "User").

(** A row shows the stored loan [x], but for its [bookId]. *)
Definition showsLoan (x : N * obj) (row : obj) : Prop :=
  ∀ k, k ≠ "bookId" → row !! k = lean x.1 x.2 !! k.

(** Two books hold the same key of the index on [isbn]. *)
Definition sameIsbn (a b : obj) : bool :=
  match a !! "isbn", b !! "isbn" with
  | Some x, Some y => sameIndexKey x y
  | _, _ => false
  end.

(** No two books of the collection hold the same [isbn]. *)
Fixpoint distinctIsbn (coll : collection) : bool :=
  match coll with
  | x :: rest => forallb (λ y, negb (sameIsbn x.2 y.2)) rest && distinctIsbn rest
  | [] => true
  end.

(** The requests that write the book collection. *)
Inductive BookOp :=
| PostBook (reqBody : obj)
| PutBook (id : string) (reqBody : obj)
| DeleteBook (id : string).

Definition stepBook `{External} (db : Db) (op : BookOp) : Db :=
  match op with
  | PostBook reqBody => (createBook db reqBody).1
  | PutBook id reqBody => (updateBook db id reqBody).1
  | DeleteBook id => (deleteBook db id).1
  end.

Definition runBooks `{External} (db : Db) (ops : list BookOp) : Db :=
  foldl stepBook db ops.

(** A record that can be seeded: the required paths are non-empty strings,
    the address is made of ASCII characters, [role] is absent or of the
    enum, the other strings and [isActive] are
    absent or of their type, and the record names no [_id] and no
    [registrationDate]. *)
Definition seedable (m : obj) : bool :=
  nonEmptyText (m !! "name") && nonEmptyText (m !! "email")
  && match m !! "email" with
     | Some (VStr e) => isAscii e
     | _ => false
     end
  && nonEmptyText (m !! "password")
  && match m !! "role" with
     | None => true
     | Some (VStr r) => bool_decide (r ∈ ["student"; "patron"; "admin"])
     | Some _ => false
     end
  && optionalText (m !! "studentId") && optionalText (m !! "department")
  && optionalText (m !! "phone") && optionalText (m !! "address")
  && match m !! "isActive" with
     | None | Some (VBool _) => true
     | Some _ => false
     end
  && match m !! "registrationDate", m !! "_id" with
     | None, None => true
     | _, _ => false
     end.

(** The address of a record as the schema stores it. *)
Definition lowerEmail `{External} (m : obj) : string :=
  match m !! "email" with
  | Some (VStr e) => toLowerCase e
  | _ => ""
  end.

(** The credentials a record is seeded with are accepted by the login
    route. *)
Definition canLogIn `{External} (db : Db) (m : obj) : Prop :=
  ∃ e pw, m !! "email" = Some (VStr e)
          ∧ m !! "password" = Some (VStr pw)
          ∧ status (login db (credentials e pw)) = 200.

(** A record and the member stored for it: the stored address is the
    record's, lower-cased, and [bcrypt.compare] accepts the record's
    password against the stored one. *)
Definition storedFor `{External} (m : obj) (x : N * obj) : Prop :=
  ∃ e pw h,
    m !! "email" = Some (VStr e) ∧ e ≠ ""
    ∧ m !! "password" = Some (VStr pw) ∧ pw ≠ ""
    ∧ bcryptCompare (VStr pw) (Some (VStr h)) = Ok true
    ∧ x.2 !! "email" = Some (VStr (toLowerCase e))
    ∧ x.2 !! "password" = Some (VStr h).

(** A record and the document built for it, ready to be inserted. *)
Definition builtFor `{External} (m : obj) (entry : obj * obj) : Prop :=
  entry.1 !! "_id" = None
  ∧ validate memberSchema entry.2 = Ok entry.2
  ∧ storedFor m (0%N, entry.2).

(** The sum of a count over the groups. *)
Definition sumOver (f : Group → Z) (groups : list Group) : Z :=
  foldr (λ g acc, f g + acc) 0 groups.

(** No group has the key of a group before it. *)
Fixpoint distinctKeys (groups : list Group) : bool :=
  match groups with
  | g :: rest =>
      forallb (λ g', negb (sameGroupKey (groupId g) (groupId g'))) rest && distinctKeys rest
  | [] => true
  end.

(** The groups are in descending order of tally. *)
Fixpoint descending (groups : list Group) : bool :=
  match groups with
  | g :: rest => forallb (λ g', tally g' <=? tally g) rest && descending rest
  | [] => true
  end.

(** * Properties *)

Section BuildFilter.

Variable queryParams : gmap string value.

Lemma is_str_true v lit : is_str v lit = true ↔ v = VStr lit.
Proof.
  destruct v; simpl; try (split; [discriminate | congruence]).
  rewrite String.eqb_eq. split; [intros -> | intros [= ->]]; done.
Qed.

Lemma is_str_false v lit : is_str v lit = false ↔ v ≠ VStr lit.
Proof.
  rewrite <- is_str_true. destruct (is_str v lit); split; congruence.
Qed.

Lemma lookup_setProp (k k' : string) (v : value) (o : obj) :
  setProp k v o !! k' = if decide (k' = k ∧ k ≠ "__proto__") then Some v else o !! k'.
Proof.
  unfold setProp. destruct (String.eqb_spec k "__proto__") as [->|Hk].
  - rewrite decide_False; [done | by intros [_ ?]].
  - destruct (decide (k' = k)) as [->|Hne].
    + by rewrite lookup_insert_eq, decide_True.
    + rewrite lookup_insert_ne by done. rewrite decide_False; [done | by intros [? _]].
Qed.

(** What [o[k]] reads: the property of [o], or an inherited one. *)
Lemma getProp_own (o : obj) (k : string) :
  k ∉ "__proto__" :: objectPrototype → getProp o k = o !! k.
Proof.
  intros Hk. unfold getProp. destruct (o !! k) as [v|]; [done|].
  rewrite bool_decide_eq_false_2 by (intros ?; apply Hk; by right).
  destruct (String.eqb_spec k "__proto__") as [->|_]; [|done].
  destruct Hk. by left.
Qed.


Lemma getProp_inherited (o : obj) (k : string) :
  k ∈ objectPrototype → o !! k = None → getProp o k = Some (VFun k).
Proof. intros Hk Ho. unfold getProp. by rewrite Ho, bool_decide_eq_true_2. Qed.

Lemma filterStep_insert filter field v :
  getProp queryParams field = Some v →
  filterStep queryParams filter field = setProp field (coerced v) filter.
Proof.
  intros Hq. unfold filterStep. rewrite Hq.
  destruct (is_str v "true") eqn:Ht.
  { apply is_str_true in Ht as ->. done. }
  destruct (is_str v "false") eqn:Hf.
  { apply is_str_true in Hf as ->. done. }
  destruct v; try done. simpl in *.
  apply String.eqb_neq in Ht, Hf.
  repeat case_decide; done.
Qed.

Lemma filterStep_absent filter field :
  getProp queryParams field = None → filterStep queryParams filter field = filter.
Proof. intros Hq. unfold filterStep. by rewrite Hq. Qed.

Lemma filterStep_lookup (filter : obj) (field k : string) :
  filterStep queryParams filter field !! k
  = if decide (k = field ∧ field ≠ "__proto__")
    then match getProp queryParams field with
         | Some v => Some (coerced v)
         | None => filter !! k
         end
    else filter !! k.
Proof.
  destruct (getProp queryParams field) as [v|] eqn:Hq.
  - rewrite (filterStep_insert _ _ _ Hq), lookup_setProp. by case_decide.
  - rewrite (filterStep_absent _ _ Hq). by case_decide.
Qed.

Lemma foldl_filterStep_lookup (fields : list string) (acc : gmap string value) (k : string) :
  foldl (filterStep queryParams) acc fields !! k =
    if decide (k ∈ fields ∧ k ≠ "__proto__")
    then match getProp queryParams k with
         | Some v => Some (coerced v)
         | None => acc !! k
         end
    else acc !! k.
Proof.
  revert acc. induction fields as [|f fields IH]; intros acc; cbn [foldl].
  { rewrite decide_False; [done | by intros [?%elem_of_nil _]]. }
  rewrite IH, filterStep_lookup. clear IH.
  destruct (decide (k = "__proto__")) as [->|Hproto].
  { rewrite (decide_False (P := _ ∈ fields ∧ _)) by (by intros [_ ?]).
    rewrite (decide_False (P := _ ∈ f :: fields ∧ _)) by (by intros [_ ?]).
    rewrite (decide_False (P := _ = f ∧ _)); [done|]. intros [Hf ?]. congruence. }
  destruct (decide (k = f)) as [<-|Hne].
  - rewrite (decide_True (P := k = k ∧ _)) by done.
    rewrite (decide_True (P := k ∈ k :: fields ∧ _)) by (split; [by left | done]).
    case_decide; by destruct (getProp queryParams k).
  - rewrite (decide_False (P := k = f ∧ _)) by (by intros [? _]).
    destruct (decide (k ∈ fields)) as [Hin|Hout].
    + rewrite !decide_True; [done | split; [by right | done] | done].
    + rewrite !decide_False; [done | | by intros [? _]].
      by intros [[?|?]%elem_of_cons _].
Qed.

Lemma buildFilter_lookup (allowedFields : list string) (k : string) :
  buildFilter queryParams allowedFields !! k =
    if decide (k ∈ allowedFields ∧ k ≠ "__proto__")
    then coerced <$> getProp queryParams k
    else None.
Proof.
  unfold buildFilter. rewrite foldl_filterStep_lookup, lookup_empty.
  case_decide; [|done]. by destruct (getProp queryParams k).
Qed.

End BuildFilter.

(** C4 (as stated, refuted).  [queryParams[field]] also reads what the
    query object inherits: with [toString] on the allow-list, a query that
    has no such parameter gives a filter that binds [toString], to the
    inherited function. *)
Lemma buildFilter_binds_inherited_names :
  let queryParams : obj := {["role" := VStr "x"]} in
  queryParams !! "toString" = None
  ∧ buildFilter queryParams ["toString"] !! "toString" = Some (VFun "toString")
  ∧ buildFilter queryParams ["toString"] ≠ ∅.
Proof.
  intros queryParams. split; [done|].
  assert (buildFilter queryParams ["toString"] !! "toString" = Some (VFun "toString")) as Hb.
  { rewrite buildFilter_lookup. rewrite decide_True by (split; [by left | done]).
    rewrite (getProp_inherited queryParams "toString"); [done | | done].
    apply (bool_decide_unpack _). by vm_compute. }
  split; [exact Hb|]. intros Hempty. by rewrite Hempty, lookup_empty in Hb.
Qed.

(** C4 (amended).  The filter built from a query and an allow-list binds
    exactly the allow-listed names [k] for which [queryParams[k]] is
    defined, [__proto__] apart, which is never bound: the string ['true']
    becomes the boolean true, ['false'] the boolean false, every other
    value is kept as it is, and a name outside the allow-list is never
    bound.  [queryParams[k]] is the parameter of the query when the query
    has one; for a name that no object inherits this is the only case,
    and an allow-listed name of [Object.prototype] that the query does not
    have is bound to the inherited function. *)
Theorem buildFilter_allow_list (queryParams : gmap string value)
    (allowedFields : list string) (k : string) :
  buildFilter queryParams allowedFields !! k
  = (if decide (k ∈ allowedFields ∧ k ≠ "__proto__")
     then coerced <$> getProp queryParams k
     else None)
  ∧ (k ∉ allowedFields → buildFilter queryParams allowedFields !! k = None)
  ∧ (∀ v, queryParams !! k = Some v → getProp queryParams k = Some v)
  ∧ (k ∉ "__proto__" :: objectPrototype →
     buildFilter queryParams allowedFields !! k
     = if decide (k ∈ allowedFields) then coerced <$> queryParams !! k else None)
  ∧ (k ∈ objectPrototype → queryParams !! k = None →
     buildFilter queryParams allowedFields !! k
     = if decide (k ∈ allowedFields) then Some (VFun k) else None).
Proof.
  split; [apply buildFilter_lookup|]. split.
  { intros Hk. rewrite buildFilter_lookup. rewrite decide_False; [done | by intros [? _]]. }
  split.
  { intros v Hv. unfold getProp. by rewrite Hv. }
  split.
  - intros Hk. rewrite buildFilter_lookup, (getProp_own _ _ Hk).
    assert (k ≠ "__proto__") by (intros ->; apply Hk; by left).
    destruct (decide (k ∈ allowedFields)).
    + by rewrite decide_True.
    + rewrite decide_False; [done | by intros [? _]].
  - intros Hk Hq. rewrite buildFilter_lookup, (getProp_inherited _ _ Hk Hq).
    assert (k ≠ "__proto__").
    { intros ->. revert Hk. apply (bool_decide_eq_false_1 _). by vm_compute. }
    destruct (decide (k ∈ allowedFields)).
    + by rewrite decide_True.
    + rewrite decide_False; [done | by intros [? _]].
Qed.

Lemma buildFilter_allow_list_witness :
  let queryParams : obj :=
    list_to_map [("role", VStr "admin"); ("isActive", VStr "true"); ("page", VStr "2")] in
  buildFilter queryParams ["role"; "isActive"] !! "role" = Some (VStr "admin")
  ∧ buildFilter queryParams ["role"; "isActive"] !! "isActive" = Some (VBool true)
  ∧ buildFilter queryParams ["role"; "isActive"] !! "page" = None
  ∧ buildFilter queryParams ["role"; "toString"] !! "toString" = Some (VFun "toString").
Proof.
  intros queryParams.
  destruct (buildFilter_allow_list queryParams ["role"; "isActive"] "role")
    as (_ & _ & _ & Hrole & _).
  destruct (buildFilter_allow_list queryParams ["role"; "isActive"] "isActive")
    as (_ & _ & _ & Hactive & _).
  destruct (buildFilter_allow_list queryParams ["role"; "isActive"] "page")
    as (_ & Hpage & _).
  destruct (buildFilter_allow_list queryParams ["role"; "toString"] "toString")
    as (_ & _ & _ & _ & Hinherited).
  split; [rewrite Hrole; [reflexivity | apply (bool_decide_unpack _); vm_compute; exact I]|].
  split; [rewrite Hactive; [reflexivity | apply (bool_decide_unpack _); vm_compute; exact I]|].
  split; [apply Hpage; apply (bool_decide_unpack _); vm_compute; exact I|].
  rewrite Hinherited; [reflexivity | apply (bool_decide_unpack _); vm_compute; exact I
                       | reflexivity].
Defined.

(** The same, read key by key. *)

Section BuildFilterByKey.

Variable queryParams : gmap string value.
Variable allowedFields : list string.
Variable k : string.

Lemma buildFilter_not_allowed :
  k ∉ allowedFields → buildFilter queryParams allowedFields !! k = None.
Proof.
  intros Hk. rewrite buildFilter_lookup. rewrite decide_False; [done | by intros [? _]].
Qed.

Lemma buildFilter_undefined :
  getProp queryParams k = None → buildFilter queryParams allowedFields !! k = None.
Proof. intros Hq. rewrite buildFilter_lookup, Hq. by case_decide. Qed.

Lemma buildFilter_booleans (b : bool) :
  k ∈ allowedFields → k ≠ "__proto__" →
  queryParams !! k = Some (VStr (if b then "true" else "false")) →
  buildFilter queryParams allowedFields !! k = Some (VBool b).
Proof.
  intros Hk Hp Hq. rewrite buildFilter_lookup, decide_True by done.
  unfold getProp. rewrite Hq. by destruct b.
Qed.

Lemma buildFilter_passes (v : value) :
  k ∈ allowedFields → k ≠ "__proto__" →
  queryParams !! k = Some v →
  v ≠ VStr "true" → v ≠ VStr "false" →
  buildFilter queryParams allowedFields !! k = Some v.
Proof.
  intros Hk Hp Hq Ht Hf. rewrite buildFilter_lookup, decide_True by done.
  unfold getProp. rewrite Hq. cbn. f_equal.
  destruct v; try done. simpl. repeat case_decide; congruence.
Qed.

End BuildFilterByKey.

(** ** The pagination resolver *)

Example parseInt_samples :
  map parseIntStr ["abc"; "12px"; " 42"; "-5"; "0x1F"; "0"; ""; "1e3"; "9007199254740993"]
  = [NaN; Int 12; Int 42; Int (-5); Int 31; Int 0; NaN; Int 1; Int 9007199254740992].
Proof. vm_compute. reflexivity. Qed.

(** White space beyond ASCII is skipped (here U+00A0), a number of 10^21
    or more is read through its exponent notation, and a numeral of 400
    digits reads as an infinity. *)
Example parseInt_beyond :
  parseIntStr (String (ascii_of_N 194) (String (ascii_of_N 160) "7")) = Int 7
  ∧ parseIntVal (VNum (10 ^ 21)) = Int 1
  ∧ parseIntStr (String "1" (String.concat "" (replicate 400 "0"%string))) = PosInf.
Proof. vm_compute. repeat split; reflexivity. Qed.

Section Rounding.

Lemma roundDouble_exact (n : Z) : Z.abs n < 2 ^ 53 → roundDouble n = Int n.
Proof.
  intros Hn. unfold roundDouble. by rewrite (proj2 (Z.ltb_lt _ _) Hn).
Qed.

(** Rounding keeps the sign. *)
Lemma roundDouble_sign (n : Z) :
  (∃ m, roundDouble n = Int m ∧ (0 < n → 0 < m) ∧ (n < 0 → m < 0) ∧ (n = 0 → m = 0))
  ∨ (roundDouble n = PosInf ∧ 0 < n)
  ∨ (roundDouble n = NegInf ∧ n < 0).
Proof.
  unfold roundDouble. destruct (Z.ltb_spec (Z.abs n) (2 ^ 53)) as [Hsmall|Hbig].
  { left. exists n. split; [done|]. lia. }
  cbv zeta.
  set (e := Z.log2 (Z.abs n) - 52).
  set (q := Z.abs n / 2 ^ e).
  match goal with
  | |- context [if ?c then q + 1 else q] => set (q' := if c then q + 1 else q)
  end.
  assert (53 ≤ Z.log2 (Z.abs n)) as Hlog.
  { apply Z.log2_le_pow2; lia. }
  assert (0 < 2 ^ e) as He by (apply Z.pow_pos_nonneg; lia).
  assert (1 ≤ q) as Hq.
  { unfold q. apply Z.div_le_lower_bound; [done|].
    rewrite Z.mul_1_r. transitivity (2 ^ Z.log2 (Z.abs n)).
    - apply Z.pow_le_mono_r; lia.
    - apply Z.log2_spec. lia. }
  assert (1 ≤ q') as Hq' by (unfold q'; case_match; lia).
  assert (0 < q' * 2 ^ e) as Hm by nia.
  destruct (Z.leb_spec (2 ^ 1024) (q' * 2 ^ e)).
  - destruct (Z.ltb_spec 0 n); [right; left | right; right]; split; [done | lia | done | ].
    assert (n ≠ 0) by (intros ->; cbn in Hbig; lia). lia.
  - left. eexists. split; [done|].
    assert (n ≠ 0) by (intros ->; cbn in Hbig; lia).
    split; [|split]; intros ?; lia.
Qed.

End Rounding.

Section Reading.

(** A character from ['!'] to ['~'] starts no white space. *)
Lemma skipWhite_head (c : ascii) (r : string) :
  33 ≤ code c < 128 → skipWhite (String c r) = String c r.
Proof.
  intros Hc. cbn [skipWhite].
  assert (isWhite c = false) as ->.
  { unfold isWhite. destruct (Z.leb_spec 9 (code c)), (Z.leb_spec (code c) 13),
      (Z.eqb_spec (code c) 32); cbn; lia || done. }
  destruct r as [|b r]; [done|].
  assert (isWhite2 c b = false) as ->.
  { unfold isWhite2. destruct (Z.eqb_spec (code c) 194); [lia | done]. }
  destruct r as [|d r]; [done|].
  assert (isWhite3 c b d = false) as ->; [|done].
  unfold isWhite3.
  repeat match goal with
         | |- context [code c =? ?k] => destruct (Z.eqb_spec (code c) k); [lia|]
         end.
  done.
Qed.

Lemma eqb_code (c c' : ascii) (k : Z) :
  code c' = k → code c ≠ k → Ascii.eqb c c' = false.
Proof. intros <- Hc. destruct (Ascii.eqb_spec c c') as [->|]; done. Qed.

(** A letter or a digit is no sign. *)
Lemma no_sign (c : ascii) :
  48 ≤ code c →
  Ascii.eqb c "-" = false ∧ Ascii.eqb c "+" = false.
Proof.
  intros Hc. split; [apply (eqb_code _ _ 45) | apply (eqb_code _ _ 43)]; done || lia.
Qed.

Lemma wordy_NaN (s : string) : wordy s = true → parseIntStr s = NaN.
Proof.
  destruct s as [|c r]; [done|]. cbn [wordy]. intros Hc.
  assert ((65 ≤ code c ≤ 90) ∨ (97 ≤ code c ≤ 122)) as Hrange.
  { apply orb_prop in Hc as [[?%Z.leb_le ?%Z.leb_le]%andb_prop|[?%Z.leb_le ?%Z.leb_le]%andb_prop];
      lia. }
  unfold parseIntStr. rewrite skipWhite_head by lia.
  destruct (no_sign c) as [-> ->]; [lia|].
  assert (Ascii.eqb c "0" = false) as H0 by (apply (eqb_code _ _ 48); done || lia).
  assert (digitValue 10 c = None) as Hd.
  { unfold digitValue. cbv zeta.
    destruct (Z.leb_spec 48 (code c)), (Z.leb_spec (code c) 57); cbn [andb]; try lia.
    all: destruct (Z.leb_spec 97 (code c)), (Z.leb_spec (code c) 122); cbn [andb]; try lia.
    all: try (destruct (Z.ltb_spec (code c - 87) 10); [lia | done]).
    all: destruct (Z.leb_spec 65 (code c)), (Z.leb_spec (code c) 90); cbn [andb]; try lia.
    all: destruct (Z.ltb_spec (code c - 55) 10); [lia | done]. }
  destruct r as [|x r]; cbn [parseDigits]; rewrite ?H0; cbn [andb parseDigits]; by rewrite Hd.
Qed.

Lemma digitValue_char (d : N) :
  (d < 10)%N → digitValue 10 (pretty_N_char d) = Some (Z.of_N d).
Proof.
  intros Hd. destruct d as [|p]; [done|].
  do 4 (destruct p as [p|p|]; try done; try lia).
Qed.

Lemma code_char (d : N) : (d < 10)%N → code (pretty_N_char d) = 48 + Z.of_N d.
Proof.
  intros Hd. destruct d as [|p]; [done|].
  do 4 (destruct p as [p|p|]; try done; try lia).
Qed.

(** Reading the decimal numeral of [x] in front of [s]. *)
Lemma parseDigits_pretty_go (x : N) :
  ∀ s acc, (0 < x)%N →
    ∃ k, 0 ≤ k ∧
      parseDigits 10 (pretty_N_go x s) acc
      = parseDigits 10 s (Some (default 0 acc * 10 ^ k + Z.of_N x)).
Proof.
  induction (N.lt_wf_0 x) as [x _ IH]. intros s acc Hx.
  rewrite pretty_N_go_step by done.
  destruct (decide (x `div` 10 = 0)%N) as [Hq|Hq].
  - rewrite Hq, pretty_N_go_0. cbn [parseDigits].
    rewrite digitValue_char by (apply N.mod_lt; lia).
    exists 1. split; [lia|]. do 2 f_equal.
    assert (x = x `mod` 10)%N as Hx'.
    { rewrite (N.div_mod x 10) at 1 by lia. rewrite Hq. lia. }
    rewrite <- Hx', Z.pow_1_r. lia.
  - destruct (IH (x `div` 10)%N) with (s := String (pretty_N_char (x `mod` 10)) s) (acc := acc)
      as (k & Hk & ->).
    { apply N.div_lt; lia. }
    { by apply N.neq_0_lt_0. }
    cbn [parseDigits]. rewrite digitValue_char by (apply N.mod_lt; lia).
    exists (k + 1). split; [lia|]. do 2 f_equal. cbn [default from_option id].
    rewrite Z.pow_add_r, Z.pow_1_r by lia.
    rewrite (N.div_mod x 10) at 3 by lia. lia.
Qed.

(** The numeral of a positive number starts with a digit from 1 to 9. *)
Lemma pretty_N_go_head (x : N) :
  ∀ s, (0 < x)%N →
    ∃ d rest, (1 ≤ d < 10)%N ∧ pretty_N_go x s = String (pretty_N_char d) rest.
Proof.
  induction (N.lt_wf_0 x) as [x _ IH]. intros s Hx.
  rewrite pretty_N_go_step by done.
  destruct (decide (x `div` 10 = 0)%N) as [Hq|Hq].
  - rewrite Hq, pretty_N_go_0. exists (x `mod` 10)%N, s. split; [|done].
    assert (x = x `mod` 10)%N as Hx'.
    { rewrite (N.div_mod x 10) at 1 by lia. rewrite Hq. lia. }
    pose proof (N.mod_lt x 10). lia.
  - apply IH; [apply N.div_lt; lia | by apply N.neq_0_lt_0].
Qed.

(** Reading a string that starts with a digit from 1 to 9. *)
Lemma parseIntStr_digits (sign : Z) (c : ascii) (rest : string) :
  49 ≤ code c ≤ 57 →
  match parseDigits 10 (String c rest) None with
  | Some m => roundDouble (sign * m)
  | None => NaN
  end
  = (let '(R, s3) :=
       match String c rest with
       | String c (String x r) =>
           if Ascii.eqb c "0" && (Ascii.eqb x "x" || Ascii.eqb x "X") then (16, r)
           else (10, String c rest)
       | _ => (10, String c rest)
       end in
     match parseDigits R s3 None with
     | Some m => roundDouble (sign * m)
     | None => NaN
     end).
Proof.
  intros Hc.
  assert (Ascii.eqb c "0" = false) as H0 by (apply (eqb_code _ _ 48); done || lia).
  destruct rest; by rewrite ?H0.
Qed.

Lemma parseIntStr_positive (p : positive) :
  parseIntStr (pretty (Npos p)) = roundDouble (Zpos p)
  ∧ parseIntStr ("-" +:+ pretty (Npos p)) = roundDouble (Zneg p).
Proof.
  unfold pretty, pretty_N. rewrite decide_False by done.
  destruct (pretty_N_go_head (Npos p) "") as (d & rest & Hd & Hs); [done|].
  destruct (parseDigits_pretty_go (Npos p) "" None) as (k & Hk & Hparse); [done|].
  cbn [parseDigits default from_option id] in Hparse.
  pose proof (code_char d ltac:(lia)) as Hcode.
  assert (parseDigits 10 (String (pretty_N_char d) rest) None = Some (Zpos p)) as Hp.
  { by rewrite <- Hs, Hparse. }
  rewrite Hs. split.
  - unfold parseIntStr. rewrite skipWhite_head by lia.
    destruct (no_sign (pretty_N_char d)) as [-> ->]; [lia|].
    rewrite <- (parseIntStr_digits 1) by lia. by rewrite Hp.
  - change ("-" +:+ String (pretty_N_char d) rest)
      with (String "-" (String (pretty_N_char d) rest)).
    unfold parseIntStr.
    rewrite skipWhite_head by (vm_compute; split; [discriminate | done]).
    cbn [Ascii.eqb Bool.eqb]. 
    rewrite <- (parseIntStr_digits (-1)) by lia. by rewrite Hp.
Qed.

(** [parseInt] reads the decimal numeral of an integer as that integer,
    rounded to a double. *)
Lemma parseIntStr_pretty (n : Z) : parseIntStr (pretty n) = roundDouble n.
Proof.
  destruct n as [|p|p]; [done | apply parseIntStr_positive | apply parseIntStr_positive].
Qed.

End Reading.

Section Resolver.

Lemma roundDouble_not_Other (n : Z) : roundDouble n ≠ Other.
Proof. by destruct (roundDouble_sign n) as [(m & -> & _)|[[-> _]|[-> _]]]. Qed.

Lemma parseIntStr_not_Other (s : string) : parseIntStr s ≠ Other.
Proof. unfold parseIntStr. repeat case_match; try done; apply roundDouble_not_Other. Qed.

Lemma parseIntVal_not_Other : ∀ v, parseIntVal v ≠ Other.
Proof.
  fix IH 1. intros [| |n|s|[|x vs]| |]; cbn [parseIntVal];
    [done | done | | apply parseIntStr_not_Other | done | apply IH | done | done].
  unfold parseIntNum. clear IH. repeat case_match; done.
Qed.

Lemma parseInt_not_Other (v : option value) (x : num) : parseInt v = Ok x → x ≠ Other.
Proof.
  destruct v as [v|]; cbn; [|by intros [= <-]].
  destruct (unprintable v); [done|]. intros [= <-]. apply parseIntVal_not_Other.
Qed.

(** A raw parameter converts: [parseInt] returns. *)
Lemma parseInt_raw (v : option value) :
  raw v = true →
  parseInt v = Ok match v with
                  | Some (VStr s) => parseIntStr s
                  | _ => NaN
                  end.
Proof. by destruct v as [[]|]. Qed.

(** The page is a number from 1 on, or infinite. *)
Lemma page_from_one (x : num) :
  x ≠ Other →
  jsMax (Int 1) (jsOr x (Int 1)) = PosInf
  ∨ ∃ p, jsMax (Int 1) (jsOr x (Int 1)) = Int p ∧ 1 ≤ p.
Proof.
  intros Hx. destruct x as [n| | | |]; cbn; try done.
  - right. destruct (Z.eqb_spec n 0); eexists; (split; [done | lia]).
  - by left.
  - right. by exists 1.
  - right. by exists 1.
Qed.

(** The limit is a number from 1 to 100. *)
Lemma limit_in_range (x : num) :
  x ≠ Other →
  ∃ l, jsMin (Int 100) (jsMax (Int 1) (jsOr x (Int 10))) = Int l ∧ 1 ≤ l ≤ 100.
Proof.
  intros Hx. destruct x as [n| | | |]; cbn; try done.
  - destruct (Z.eqb_spec n 0); eexists; (split; [done | lia]).
  - by exists 100.
  - by exists 1.
  - by exists 10.
Qed.

(** The offset is exact as long as it stays below 2^53. *)
Lemma skip_exact (p l : Z) :
  1 ≤ p → 1 ≤ l →
  (jsMul (jsSub (Int p) (Int 1)) (Int l) = PosInf
   ∨ ∃ s, jsMul (jsSub (Int p) (Int 1)) (Int l) = Int s ∧ 0 ≤ s)
  ∧ ((p - 1) * l < 2 ^ 53 → jsMul (jsSub (Int p) (Int 1)) (Int l) = Int ((p - 1) * l)).
Proof.
  intros Hp Hl. split.
  - cbn [jsSub].
    destruct (roundDouble_sign (p - 1)) as [(m & -> & Hpos & _ & Hzero)|[[-> _]|[_ ?]]];
      [| left; cbn; by destruct (Z.eqb_spec l 0); [lia|]; destruct (Z.ltb_spec 0 l); [|lia]
       | lia].
    cbn [jsMul].
    destruct (roundDouble_sign (m * l)) as [(s & -> & Hpos' & _ & Hzero')|[[-> _]|[_ ?]]].
    + right. exists s. split; [done|].
      destruct (decide (p = 1)) as [->|]; [rewrite Hzero' by (rewrite Hzero; lia); lia|].
      assert (0 < m) by (apply Hpos; lia). assert (0 < s) by (apply Hpos'; nia). lia.
    + by left.
    + destruct (decide (p = 1)) as [->|]; [rewrite Hzero in *; lia|].
      assert (0 < m) by (apply Hpos; lia). nia.
  - intros Hs. cbn [jsSub]. rewrite roundDouble_exact by nia.
    cbn [jsMul]. rewrite roundDouble_exact by nia. done.
Qed.

Lemma jsOr_round (n d : Z) :
  d ≠ 0 → Z.abs n < 2 ^ 53 → jsOr (roundDouble n) (Int d) = Int (if n =? 0 then d else n).
Proof.
  intros Hd Hn. rewrite roundDouble_exact by done. cbn. by destruct (Z.eqb_spec n 0).
Qed.

(** What the resolver returns, from what [parseInt] read. *)
Lemma getPaginationParams_Ok (query : obj) (parsedPage parsedLimit : num) :
  parseInt (query !! "page") = Ok parsedPage →
  parseInt (query !! "limit") = Ok parsedLimit →
  getPaginationParams query
  = Ok (let page := jsMax (Int 1) (jsOr parsedPage (Int 1)) in
        let limit := jsMin (Int 100) (jsMax (Int 1) (jsOr parsedLimit (Int 10))) in
        {| page := page; limit := limit; skip := jsMul (jsSub page (Int 1)) limit |}).
Proof. intros Hp Hl. unfold getPaginationParams. by rewrite Hp, Hl. Qed.

(** The resolver returns when both conversions do, and only then. *)
Lemma getPaginationParams_returns (query : obj) (r : PaginationParams) :
  getPaginationParams query = Ok r →
  ∃ parsedPage parsedLimit,
    parseInt (query !! "page") = Ok parsedPage
    ∧ parseInt (query !! "limit") = Ok parsedLimit.
Proof.
  unfold getPaginationParams.
  destruct (parseInt (query !! "page")) as [a|]; [|done].
  destruct (parseInt (query !! "limit")) as [b|]; [|done]. by exists a, b.
Qed.

(** The range of what the resolver returns. *)
Lemma pagination_range (query : obj) (r : PaginationParams) :
  getPaginationParams query = Ok r →
  ∃ l, limit r = Int l ∧ 1 ≤ l ≤ 100
       ∧ ((page r = PosInf ∧ skip r = PosInf)
          ∨ ∃ p, page r = Int p ∧ 1 ≤ p
                 ∧ (skip r = PosInf ∨ ∃ s, skip r = Int s ∧ 0 ≤ s)
                 ∧ ((p - 1) * l < 2 ^ 53 → skip r = Int ((p - 1) * l))).
Proof.
  intros Hr. destruct (getPaginationParams_returns _ _ Hr) as (a & b & Ha & Hb).
  rewrite (getPaginationParams_Ok _ _ _ Ha Hb) in Hr. cbv zeta in Hr.
  destruct (limit_in_range _ (parseInt_not_Other _ _ Hb)) as (l & Hlimit & Hl).
  rewrite Hlimit in Hr. exists l.
  destruct (page_from_one _ (parseInt_not_Other _ _ Ha)) as [Hpage|(p & Hpage & Hp)];
    rewrite Hpage in Hr; injection Hr as <-; cbn [page limit skip];
    (split; [done|]); (split; [done|]).
  - left. split; [done|]. cbn.
    destruct (Z.eqb_spec l 0); [lia|]. by destruct (Z.ltb_spec 0 l); [|lia].
  - right. exists p. split; [done|]. split; [done|]. apply skip_exact; lia.
Qed.

End Resolver.

(** C2 (as stated, refuted).  Numbers are doubles: the page read from the
    numeral [9007199254740993] is 9007199254740992, and with the limit 100
    the offset is 900719925474099072, not (page - 1) * 100. *)
Lemma getPaginationParams_rounds :
  ∃ r, getPaginationParams
         (<["page" := VStr "9007199254740993"]> {["limit" := VStr "100"]}) = Ok r
       ∧ page r = Int 9007199254740992
       ∧ limit r = Int 100
       ∧ skip r = Int 900719925474099072
       ∧ skip r ≠ Int ((9007199254740992 - 1) * 100).
Proof. eexists. split; [vm_compute; reflexivity|]. vm_compute. repeat split; done. Qed.

(** C2 (amended).  For every query whose raw [page] and [limit] are strings
    or absent, the resolver returns [page = max(1, parseInt(page) || 1)],
    [limit = min(100, max(1, parseInt(limit) || 10))] and
    [skip = (page - 1) * limit], all three computed on doubles.  The limit
    is a number from 1 to 100; the page is a number from 1 on or
    [Infinity] (then the offset is [Infinity] too); the offset is not
    negative, and it is exactly [(page - 1) * limit] whenever that product
    is below 2^53.  An absent parameter and a parameter that holds no
    numeral (empty or starting with a letter) take the defaults 1 and 10;
    the decimal numeral of an integer [n] gives the page [max(1, n)] when
    [|n| < 2^53] and the limit [min(100, max(1, n))], or 10 when [n] is
    0. *)
Theorem getPaginationParams_normalized (query : gmap string value) :
  raw (query !! "page") = true →
  raw (query !! "limit") = true →
  ∃ r parsedPage parsedLimit,
    getPaginationParams query = Ok r
    ∧ parseInt (query !! "page") = Ok parsedPage
    ∧ parseInt (query !! "limit") = Ok parsedLimit
    ∧ page r = jsMax (Int 1) (jsOr parsedPage (Int 1))
    ∧ limit r = jsMin (Int 100) (jsMax (Int 1) (jsOr parsedLimit (Int 10)))
    ∧ skip r = jsMul (jsSub (page r) (Int 1)) (limit r)
    ∧ (∃ l, limit r = Int l ∧ 1 ≤ l ≤ 100
         ∧ ((page r = PosInf ∧ skip r = PosInf)
            ∨ ∃ p, page r = Int p ∧ 1 ≤ p
                   ∧ (skip r = PosInf ∨ ∃ s, skip r = Int s ∧ 0 ≤ s)
                   ∧ ((p - 1) * l < 2 ^ 53 → skip r = Int ((p - 1) * l))))
    ∧ (query !! "page" = None → page r = Int 1)
    ∧ (query !! "limit" = None → limit r = Int 10)
    ∧ (∀ s, query !! "page" = Some (VStr s) → wordy s = true → page r = Int 1)
    ∧ (∀ s, query !! "limit" = Some (VStr s) → wordy s = true → limit r = Int 10)
    ∧ (∀ n : Z, query !! "page" = Some (VStr (pretty n)) →
         page r = jsMax (Int 1) (roundDouble n)
         ∧ (Z.abs n < 2 ^ 53 → page r = Int (Z.max 1 n)))
    ∧ (∀ n : Z, query !! "limit" = Some (VStr (pretty n)) →
         Z.abs n < 2 ^ 53 →
         limit r = Int (if n =? 0 then 10 else Z.min 100 (Z.max 1 n))).
Proof.
  intros Hpage Hlimit.
  pose proof (parseInt_raw _ Hpage) as Hp. pose proof (parseInt_raw _ Hlimit) as Hl.
  pose proof (getPaginationParams_Ok query _ _ Hp Hl) as Hr.
  eexists _, _, _. split; [exact Hr|]. split; [exact Hp|]. split; [exact Hl|].
  cbv zeta. cbn [page limit skip].
  split; [done|]. split; [done|]. split; [done|].
  split; [exact (pagination_range _ _ Hr)|].
  split; [by intros ->|]. split; [by intros ->|].
  split; [intros s -> Hs; by rewrite wordy_NaN|].
  split; [intros s -> Hs; by rewrite wordy_NaN|].
  split.
  - intros n ->. rewrite parseIntStr_pretty. split.
    + destruct (roundDouble_sign n) as [(m & Hm & _ & _ & Hzero)|[[-> _]|[-> _]]]; try done.
      rewrite Hm. cbn. destruct (Z.eqb_spec m 0) as [->|]; [|done].
      destruct (decide (n = 0)) as [->|Hn]; [done|].
      destruct (roundDouble_sign n) as [(m' & Hm' & Hpos & Hneg & _)|[[Hinf _]|[Hinf _]]];
        [|congruence..].
      assert (m' = 0) by congruence. lia.
    + intros Hn. rewrite jsOr_round by done. cbn.
      destruct (Z.eqb_spec n 0) as [->|]; [done | f_equal].
  - intros n -> Hn. rewrite parseIntStr_pretty.
    rewrite jsOr_round by done. cbn. by destruct (Z.eqb_spec n 0).
Qed.

Lemma getPaginationParams_normalized_witness :
  let query : gmap string value := <["page" := VStr "3"]> {["limit" := VStr "250"]} in
  raw (query !! "page") = true
  ∧ raw (query !! "limit") = true
  ∧ getPaginationParams query
    = Ok {| page := Int 3; limit := Int 100; skip := Int 200 |}.
Proof.
  intros query. split; [reflexivity|]. split; [reflexivity|].
  destruct (getPaginationParams_normalized query eq_refl eq_refl)
    as (r & a & b & Hr & _ & _ & _ & _ & Hskip & _ & _ & _ & _ & _ & Hp & Hn).
  destruct (Hp 3 eq_refl) as [_ Hp3]. specialize (Hn 250 eq_refl).
  rewrite Hr. f_equal. destruct r as [p l s]. cbn [page limit skip] in *.
  rewrite Hskip, Hp3, Hn by (vm_compute; reflexivity). reflexivity.
Defined.

(** ** Collections and projections *)

Lemma lookupId_replaceFirst (coll : collection) (i : N) (d d' : obj) :
  lookupId coll i = Some d → lookupId (replaceFirst i d' coll) i = Some d'.
Proof.
  unfold lookupId. induction coll as [|[j d0] coll IH]; simpl; [done|].
  destruct (N.eqb_spec j i) as [->|Hne]; simpl.
  - intros _. by rewrite N.eqb_refl.
  - intros Hd. destruct (N.eqb_spec j i); [done|]. by apply IH.
Qed.

Lemma lookupId_replaceFirst_ne (coll : collection) (i j : N) (d' : obj) :
  i ≠ j → lookupId (replaceFirst i d' coll) j = lookupId coll j.
Proof.
  intros Hij. unfold lookupId. induction coll as [|[k d0] coll IH]; simpl; [done|].
  destruct (N.eqb_spec k i) as [->|Hne]; simpl.
  - destruct (N.eqb_spec i j); done.
  - destruct (N.eqb_spec k j); done.
Qed.

Lemma lookupId_removeFirst_ne (coll : collection) (i j : N) :
  i ≠ j → lookupId (removeFirst i coll) j = lookupId coll j.
Proof.
  intros Hij. unfold lookupId. induction coll as [|[k d0] coll IH]; simpl; [done|].
  destruct (N.eqb_spec k i) as [->|Hne]; simpl.
  - destruct (N.eqb_spec i j); done.
  - destruct (N.eqb_spec k j); done.
Qed.

Lemma lookupId_app (coll : collection) (i j : N) (d d' : obj) :
  lookupId coll i = Some d → lookupId (coll ++ [(j, d')]) i = Some d.
Proof.
  unfold lookupId. induction coll as [|[k d0] coll IH]; simpl; [done|].
  destruct (N.eqb_spec k i); [done|]. apply IH.
Qed.

Lemma lookupId_find (coll : collection) (i : N) (e : N * obj) :
  List.find (λ e, (e.1 =? i)%N) coll = Some e → e.1 = i ∧ lookupId coll i = Some e.2.
Proof.
  intros Hf. split.
  - apply find_some in Hf as [_ Hf]. by apply N.eqb_eq in Hf.
  - unfold lookupId. by rewrite Hf.
Qed.

Lemma exclude_lookup (ks : list string) (d : obj) (k : string) :
  exclude ks d !! k = if decide (k ∈ ks) then None else d !! k.
Proof.
  unfold exclude. induction ks as [|k' ks IH]; cbn [foldr].
  { rewrite decide_False; [done | set_solver]. }
  destruct (decide (k = k')) as [->|Hne].
  - rewrite lookup_delete_eq, decide_True; [done | set_solver].
  - rewrite lookup_delete_ne, IH by done.
    destruct (decide (k ∈ ks)).
    + rewrite decide_True; [done | by right].
    + rewrite decide_False; [done | by intros [?|?]%elem_of_cons].
Qed.

Lemma only_lookup (ks : list string) (d : obj) (k : string) :
  only ks d !! k = if decide (k ∈ "_id" :: ks) then d !! k else None.
Proof.
  unfold only. destruct (d !! k) as [v|] eqn:Hd.
  - case_decide as Hin.
    + apply map_lookup_filter_Some. done.
    + apply map_lookup_filter_None. right. intros v' Hv'. done.
  - assert (filter (λ kv : string * value, kv.1 ∈ "_id" :: ks) d !! k = None) as ->.
    { apply map_lookup_filter_None. by left. }
    by case_decide.
Qed.

(** ** Authentication *)

Section Login.

Context `{External}.

Lemma login_unknown_email (db : Db) (reqBody : obj) :
  truthy (reqBody !! "email") = true →
  truthy (reqBody !! "password") = true →
  findOne memberSchema (members db) "email" (default VNull (reqBody !! "email")) = Ok None →
  login db reqBody = refused.
Proof.
  intros He Hp Hfind. unfold login. rewrite He, Hp. simpl. by rewrite Hfind.
Qed.

Lemma login_wrong_password (db : Db) (reqBody : obj) (e : N * obj) :
  truthy (reqBody !! "email") = true →
  truthy (reqBody !! "password") = true →
  findOne memberSchema (members db) "email" (default VNull (reqBody !! "email")) = Ok (Some e) →
  bcryptCompare (default VNull (reqBody !! "password")) (lean e.1 e.2 !! "password") = Ok false →
  login db reqBody = refused.
Proof.
  intros He Hp Hfind Hcmp. unfold login. rewrite He, Hp. simpl.
  rewrite Hfind. simpl. by rewrite Hcmp.
Qed.

End Login.

(** Two login requests, each with a non-empty email and password: one
    whose email matches no member, one whose email matches a member but
    whose password [bcrypt.compare] finds different from the stored hash.
    Both get the same response, status 401 with the one message. *)
Lemma login_refusals_agree `{External}
    (db1 db2 : Db) (unknown wrong : obj) (e : N * obj) :
  truthy (unknown !! "email") = true →
  truthy (unknown !! "password") = true →
  truthy (wrong !! "email") = true →
  truthy (wrong !! "password") = true →
  findOne memberSchema (members db1) "email" (default VNull (unknown !! "email")) = Ok None →
  findOne memberSchema (members db2) "email" (default VNull (wrong !! "email")) = Ok (Some e) →
  bcryptCompare (default VNull (wrong !! "password")) (lean e.1 e.2 !! "password") = Ok false →
  login db1 unknown = login db2 wrong
  ∧ status (login db1 unknown) = 401
  ∧ body (login db1 unknown)
    = Json (VObj {["message" := VStr "Invalid email or password"]}).
Proof.
  intros He1 Hp1 He2 Hp2 Hnone Hsome Hcmp.
  rewrite (login_unknown_email db1 unknown He1 Hp1 Hnone).
  rewrite (login_wrong_password db2 wrong e He2 Hp2 Hsome Hcmp).
  repeat split.
Qed.

(** C5 (what the code does).  The response does tell a known email from an unknown one.  A
    login request with a non-empty email and a password that is truthy
    but not a string (the number 12345, say): where the email matches a
    member, [bcrypt.compare] throws on the password and the route answers
    500 with the message of that error; where the same email matches no
    member, the route answers 401 "Invalid email or password". *)
Theorem login_reveals_known_email `{External}
    (db : Db) (reqBody : obj) (password : value) (e : N * obj) :
  truthy (reqBody !! "email") = true →
  reqBody !! "password" = Some password →
  truthy (Some password) = true →
  (∀ s, password ≠ VStr s) →
  findOne memberSchema (members db) "email" (default VNull (reqBody !! "email")) = Ok (Some e) →
  ∃ err,
    login db reqBody = json 500 [("message", VStr (message err))]
    ∧ ∀ db',
        findOne memberSchema (members db') "email" (default VNull (reqBody !! "email"))
        = Ok None →
        login db' reqBody = refused
        ∧ status (login db' reqBody) ≠ status (login db reqBody).
Proof.
  intros He Hp Htruthy Hstring Hfind.
  destruct (bcryptCompare_illegal password (lean e.1 e.2 !! "password")) as [err Herr];
    [by left|].
  exists err.
  assert (login db reqBody = json 500 [("message", VStr (message err))]) as Hknown.
  { unfold login. rewrite He, Hp, Htruthy. cbn [negb orb default from_option id].
    rewrite Hfind. cbn [mbind Result_bind]. by rewrite Herr. }
  split; [done|]. intros db' Hnone.
  rewrite (login_unknown_email db' reqBody), Hknown; [done | done | | done].
  by rewrite Hp.
Qed.

Lemma login_reveals_known_email_witness :
  let reqBody : obj :=
    list_to_map [("email", VStr "Jane.Patron@example.com"); ("password", VNum 12345)] in
  status (@login stub sampleDb reqBody) = 500
  ∧ status (@login stub emptyDb reqBody) = 401
  ∧ ∃ err, @login stub sampleDb reqBody = json 500 [("message", VStr (@message stub err))].
Proof.
  intros reqBody.
  destruct (@login_reveals_known_email stub sampleDb reqBody (VNum 12345) (1%N, jane))
    as (err & Hknown & Hunknown); [reflexivity | reflexivity | reflexivity | done | reflexivity |].
  destruct (Hunknown emptyDb eq_refl) as [Hrefused _].
  split; [by rewrite Hknown|]. split; [by rewrite Hrefused | by exists err].
Defined.

(** ** Malformed identifiers *)

Section MalformedId.

Context `{External}.

Variable db : Db.
Variable id : string.
Hypothesis malformed : castObjectId (VStr id) = None.

Lemma findById_malformed (coll : collection) :
  findById coll (VStr id) = Throw (CastError "_id").
Proof. unfold findById. by rewrite malformed. Qed.

Lemma findByIdAndDelete_malformed (coll : collection) :
  findByIdAndDelete coll (VStr id) = Throw (CastError "_id").
Proof. unfold findByIdAndDelete. by rewrite findById_malformed. Qed.

Lemma findByIdAndUpdate_malformed (sch : Schema) (coll : collection) (upd : obj) :
  findByIdAndUpdate sch coll (VStr id) upd = Throw (CastError "_id").
Proof. unfold findByIdAndUpdate. by rewrite malformed. Qed.

(** The shared error helper classifies the cast error as a client error,
    and so do the update routes, whose handler answers 400 to whatever is
    thrown. *)
Lemma handleDBError_malformed : status (handleDBError (CastError "_id")) = 400.
Proof. reflexivity. Qed.

Lemma updateMember_malformed (reqBody : obj) :
  status (updateMember db id reqBody).2 = 400.
Proof. unfold updateMember. by rewrite findByIdAndUpdate_malformed. Qed.

End MalformedId.

(** C7 (what the code does).  A malformed [:id] makes [findById] and
    [findByIdAndDelete] throw a cast error, and the GET and DELETE handlers
    of the three routers answer every thrown error with status 500; the
    store is left as it was. *)
Theorem malformed_id_answered_500 `{External} (db : Db) (id : string) :
  castObjectId (VStr id) = None →
  status (getMember db id) = 500
  ∧ status (getBook db id) = 500
  ∧ status (getLoan db id) = 500
  ∧ deleteMember db id = (db, json 500 [("error", VStr (message (CastError "_id")))])
  ∧ deleteBook db id = (db, json 500 [("error", VStr (message (CastError "_id")))])
  ∧ deleteLoan db id = (db, json 500 [("error", VStr (message (CastError "_id")))]).
Proof.
  intros Hid.
  unfold getMember, getBook, getLoan, deleteMember, deleteBook, deleteLoan.
  rewrite !(findById_malformed id Hid), !(findByIdAndDelete_malformed id Hid).
  done.
Qed.

Lemma malformed_id_answered_500_witness :
  status (@getMember stub sampleDb "abc") = 500
  ∧ status (@getBook stub sampleDb "abc") = 500
  ∧ status (@getLoan stub sampleDb "abc") = 500
  ∧ status (@deleteMember stub sampleDb "abc").2 = 500.
Proof.
  destruct (@malformed_id_answered_500 stub sampleDb "abc") as (Hm & Hb & Hl & Hd & _).
  { reflexivity. }
  split; [exact Hm | split; [exact Hb | split; [exact Hl | by rewrite Hd]]].
Defined.

(** ** Updates *)

Section Updates.

Context `{External}.

Lemma applyUpdate_sets (s d : obj) :
  applyUpdate {| sets := s; unsets := ∅; others := ∅; newId := None |} d = Ok (s ∪ d).
Proof.
  unfold applyUpdate. cbn [sets unsets others].
  rewrite map_fold_empty. f_equal. apply map_eq. intros k.
  destruct ((s ∪ d) !! k) as [v|] eqn:Hk.
  - apply lookup_difference_Some. by rewrite lookup_empty.
  - apply lookup_difference_None. by left.
Qed.

(** An update that only assigns: the document found under the id gets the
    assignments, left-biased, and is returned. *)
Lemma findByIdAndUpdate_sets (sch : Schema) (coll : collection) (id : string)
    (i : N) (d upd s : obj) :
  castObjectId (VStr id) = Some i →
  lookupId coll i = Some d →
  castUpdate sch upd = Ok {| sets := s; unsets := ∅; others := ∅; newId := None |} →
  findByIdAndUpdate sch coll (VStr id) upd
  = Ok (replaceFirst i (s ∪ d) coll, Some (i, s ∪ d)).
Proof.
  intros Hid Hd Hu. unfold findByIdAndUpdate. rewrite Hid, Hu. simpl.
  rewrite Hd. unfold keepsId. cbn [newId]. by rewrite applyUpdate_sets.
Qed.

Lemma castUpdate_name (n : string) :
  castUpdate memberSchema {["name" := VStr n]}
  = Ok {| sets := <["updatedAt" := now]> {["name" := VStr n]};
          unsets := ∅; others := ∅; newId := None |}.
Proof. vm_compute. reflexivity. Qed.

Lemma castUpdate_set_password (pw : string) :
  castUpdate memberSchema
    (delete "password" {["$set" := VObj {["password" := VStr pw]}]})
  = Ok {| sets := <["updatedAt" := now]> {["password" := VStr pw]};
          unsets := ∅; others := ∅; newId := None |}.
Proof. vm_compute. reflexivity. Qed.

End Updates.

(** ** The role-restricted profile routes *)

Section Profiles.

Context `{External}.

Lemma assignments_to_document (d : obj) (k : string) (v : value) :
  (<["updatedAt" := now]> {[k := v]} : obj) ∪ d
  = <["updatedAt" := now]> (<[k := v]> d).
Proof. by rewrite <- insert_union_l, <- insert_union_singleton_l. Qed.

Lemma role_after_update (i : N) (s d : obj) :
  s !! "role" = None →
  exclude hidden (lean i (s ∪ d)) !! "role" = d !! "role".
Proof.
  intros Hs. rewrite exclude_lookup. unfold lean.
  rewrite decide_False by (unfold hidden; set_solver).
  rewrite lookup_insert_ne by done.
  by rewrite lookup_union, Hs, (left_id_L None _).
Qed.

(** A profile route that assigns a name to a member whose role is not the
    route's: the answer is 400, and the name has been written. *)
Lemma updateProfile_wrong_role (db : Db) (id : string) (i : N) (d : obj) (n : string)
    (role notFound wrongRole done : string) :
  castObjectId (VStr id) = Some i →
  lookupId (members db) i = Some d →
  differs (d !! "role") role = true →
  let r := updateProfile db id {["name" := VStr n]} role notFound wrongRole done in
  status r.2 = 400
  ∧ lookupId (members r.1) i
    = Some (<["updatedAt" := now]> (<["name" := VStr n]> d)).
Proof.
  intros Hid Hd Hrole. unfold updateProfile.
  rewrite (findByIdAndUpdate_sets _ _ _ _ _ _ _ Hid Hd (castUpdate_name n)).
  cbn [fst snd]. rewrite role_after_update by done. rewrite Hrole.
  cbn [fst snd status json members withMembers]. split; [done|].
  rewrite (lookupId_replaceFirst _ _ _ _ Hd). f_equal.
  apply assignments_to_document.
Qed.

End Profiles.

(** C1 (what the code does).  The profile routes run
    [findByIdAndUpdate] first and look at the role of the document it
    returns afterwards.  On a member whose role is [patron],
    PUT /members/:id/student with a new name answers 400 "User is not a
    student" and the stored record carries the new name; the same holds
    for PUT /members/:id/patron on a member whose role is not [patron]. *)
Theorem profile_update_written_before_role_check `{External}
    (db : Db) (id : string) (i : N) (d : obj) (n : string) :
  castObjectId (VStr id) = Some i →
  lookupId (members db) i = Some d →
  (d !! "role" = Some (VStr "patron") →
   status (updateStudent db id {["name" := VStr n]}).2 = 400
   ∧ lookupId (members (updateStudent db id {["name" := VStr n]}).1) i
     = Some (<["updatedAt" := now]> (<["name" := VStr n]> d)))
  ∧ (differs (d !! "role") "patron" = true →
     status (updatePatron db id {["name" := VStr n]}).2 = 400
     ∧ lookupId (members (updatePatron db id {["name" := VStr n]}).1) i
       = Some (<["updatedAt" := now]> (<["name" := VStr n]> d))).
Proof.
  intros Hid Hd. split.
  - intros Hrole.
    assert (updateStudent db id {["name" := VStr n]}
            = updateProfile db id {["name" := VStr n]} "student" "Student not found"
                "User is not a student" "Student profile updated successfully") as ->.
    { unfold updateStudent. f_equal. }
    apply updateProfile_wrong_role; [done..|]. by rewrite Hrole.
  - intros Hrole.
    assert (updatePatron db id {["name" := VStr n]}
            = updateProfile db id {["name" := VStr n]} "patron" "Patron not found"
                "User is not a patron" "Patron profile updated successfully") as ->.
    { unfold updatePatron. f_equal. }
    by apply updateProfile_wrong_role.
Qed.

Lemma profile_update_written_before_role_check_witness :
  (lookupId (members sampleDb) 1 ≫= (.!! "name") = Some (VStr "Jane Patron")
   ∧ status (@updateStudent stub sampleDb id1 {["name" := VStr "Mallory"]}).2 = 400
   ∧ lookupId (members (@updateStudent stub sampleDb id1 {["name" := VStr "Mallory"]}).1) 1
     ≫= (.!! "name") = Some (VStr "Mallory"))
  ∧ (lookupId (members sampleDb) 2 ≫= (.!! "name") = Some (VStr "John Student")
     ∧ status (@updatePatron stub sampleDb id2 {["name" := VStr "Mallory"]}).2 = 400
     ∧ lookupId (members (@updatePatron stub sampleDb id2 {["name" := VStr "Mallory"]}).1) 2
       ≫= (.!! "name") = Some (VStr "Mallory")).
Proof.
  split.
  - destruct (@profile_update_written_before_role_check stub sampleDb id1 1%N jane
                "Mallory") as [Hs _]; [reflexivity | reflexivity |].
    destruct Hs as [Hst Hdoc]; [reflexivity|].
    split; [reflexivity|]. split; [exact Hst|]. rewrite Hdoc. reflexivity.
  - destruct (@profile_update_written_before_role_check stub sampleDb id2 2%N john
                "Mallory") as [_ Hp]; [reflexivity | reflexivity |].
    destruct Hp as [Hst Hdoc]; [reflexivity|].
    split; [reflexivity|]. split; [exact Hst|]. rewrite Hdoc. reflexivity.
Defined.

(** ** What an update writes *)

Section UpdateLookup.

Context `{External}.

Lemma castAssignments_lookup (sch : Schema) (a c : obj) (k : string) :
  castAssignments sch a = Ok c →
  c !! k = a !! k ≫= (λ v, p ← pathOf sch k; castPath p v).
Proof.
  unfold castAssignments. destruct (List.find _ _); [done|].
  intros [= <-]. by rewrite map_lookup_imap.
Qed.

(** The assignments, the unset paths and the remaining operators of a cast
    update, in terms of the update document. *)
Lemma castUpdate_lookup (sch : Schema) (upd : obj) (u : Update) (k : string) :
  castUpdate sch upd = Ok u →
  k ≠ "updatedAt" →
  sets u !! k = assigned k upd ≫= (λ v, p ← pathOf sch k; castPath p v)
  ∧ (is_Some (unsets u !! k) ↔ unset k upd = true)
  ∧ others u = otherOperators upd.
Proof.
  intros Hu Hk. unfold castUpdate, operand, assigned, unset in *.
  destruct (upd !! "$set") as [vs|] eqn:Hset.
  - destruct vs as [| | | | |m|]; try discriminate. simpl in Hu.
    destruct (upd !! "$unset") as [vu|] eqn:Hunset.
    + destruct vu as [| | | | |mu|]; try discriminate. simpl in Hu.
      destruct (castAssignments sch (plainKeys upd ∪ m)) as [c|] eqn:Hc; [|done].
      simpl in Hu. case_bool_decide; [|done]. injection Hu as <-. cbn [sets unsets others].
      rewrite lookup_insert_ne by done.
      rewrite (castAssignments_lookup _ _ _ _ Hc).
      split; [done|]. split; [|done]. by rewrite bool_decide_eq_true.
    + simpl in Hu.
      destruct (castAssignments sch (plainKeys upd ∪ m)) as [c|] eqn:Hc; [|done].
      simpl in Hu. case_bool_decide; [|done]. injection Hu as <-. cbn [sets unsets others].
      rewrite lookup_insert_ne by done.
      rewrite (castAssignments_lookup _ _ _ _ Hc), lookup_empty.
      split; [done|]. split; [|done]. split; [by intros [? ?]|done].
  - simpl in Hu.
    destruct (upd !! "$unset") as [vu|] eqn:Hunset.
    + destruct vu as [| | | | |mu|]; try discriminate. simpl in Hu.
      destruct (castAssignments sch (plainKeys upd ∪ ∅)) as [c|] eqn:Hc; [|done].
      simpl in Hu. case_bool_decide; [|done]. injection Hu as <-. cbn [sets unsets others].
      rewrite lookup_insert_ne by done.
      rewrite (castAssignments_lookup _ _ _ _ Hc), (right_id_L ∅ _).
      split; [done|]. split; [|done]. by rewrite bool_decide_eq_true.
    + simpl in Hu.
      destruct (castAssignments sch (plainKeys upd ∪ ∅)) as [c|] eqn:Hc; [|done].
      simpl in Hu. case_bool_decide; [|done]. injection Hu as <-. cbn [sets unsets others].
      rewrite lookup_insert_ne by done.
      rewrite (castAssignments_lookup _ _ _ _ Hc), (right_id_L ∅ _), lookup_empty.
      split; [done|]. split; [|done]. split; [by intros [? ?]|done].
Qed.

Lemma applyUpdate_lookup (u : Update) (d d' : obj) (k : string) :
  others u = ∅ →
  applyUpdate u d = Ok d' →
  d' !! k = match unsets u !! k with
            | Some _ => None
            | None => match sets u !! k with
                      | Some v => Some v
                      | None => d !! k
                      end
            end.
Proof.
  intros Ho. unfold applyUpdate. rewrite Ho, map_fold_empty. intros [= <-].
  destruct (unsets u !! k) as [w|] eqn:Hw.
  - apply lookup_difference_None. right. by exists w.
  - destruct (sets u !! k) as [v|] eqn:Hv.
    + apply lookup_difference_Some. split; [|done]. apply lookup_union_Some_raw. by left.
    + destruct (d !! k) as [x|] eqn:Hx.
      * apply lookup_difference_Some. split; [|done]. apply lookup_union_Some_raw. by right.
      * apply lookup_difference_None. left. by apply lookup_union_None.
Qed.

(** How [findByIdAndUpdate] ends when it returns: no document has the id
    and nothing changes, or the document is replaced by its update. *)
Lemma findByIdAndUpdate_cases (sch : Schema) (coll coll' : collection) (id : string)
    (upd : obj) (found : option (N * obj)) :
  findByIdAndUpdate sch coll (VStr id) upd = Ok (coll', found) →
  (∃ i, castObjectId (VStr id) = Some i ∧ lookupId coll i = None
        ∧ coll' = coll ∧ found = None)
  ∨ (∃ i u d d', castObjectId (VStr id) = Some i ∧ castUpdate sch upd = Ok u
       ∧ lookupId coll i = Some d ∧ applyUpdate u d = Ok d'
       ∧ coll' = replaceFirst i d' coll ∧ found = Some (i, d')).
Proof.
  unfold findByIdAndUpdate. destruct (castObjectId (VStr id)) as [i|] eqn:Hid; [|done].
  destruct (castUpdate sch upd) as [u|] eqn:Hu; [|done]. simpl.
  destruct (lookupId coll i) as [d|] eqn:Hd.
  - destruct (keepsId i u); [|done].
    destruct (applyUpdate u d) as [d'|] eqn:Hd'; [|done]. simpl.
    intros [= <- <-]. right. by exists i, u, d, d'.
  - intros [= <- <-]. left. by exists i.
Qed.

End UpdateLookup.

(** ** The generic member update and the password *)

Section PasswordFrame.

Context `{External}.

Lemma otherOperators_delete (k : string) (upd : obj) :
  otherOperators upd = ∅ → otherOperators (delete k upd) = ∅.
Proof.
  unfold otherOperators. intros Ho. by rewrite map_filter_delete, Ho, delete_empty.
Qed.

Lemma assigned_delete_password (reqBody : obj) :
  match reqBody !! "$set" with
  | Some (VObj m) => m !! "password" = None
  | _ => True
  end →
  assigned "password" (delete "password" reqBody) = None.
Proof.
  intros Hset. unfold assigned. rewrite lookup_delete_ne by done.
  assert (plainKeys (delete "password" reqBody) !! "password" = None) as Hp.
  { unfold plainKeys. rewrite map_filter_delete. apply lookup_delete_eq. }
  destruct (reqBody !! "$set") as [[| | | | |m|]|]; try done.
  by rewrite lookup_union, Hp, Hset.
Qed.

(** The part of the route that holds: a [password] at the top level of the
    body is dropped, and a body that does not reach the path through an
    operator leaves every stored password as it was. *)
Lemma updateMember_keeps_password (db : Db) (id : string) (reqBody : obj)
    (j : N) (d : obj) :
  lookupId (members db) j = Some d →
  otherOperators reqBody = ∅ →
  unset "password" reqBody = false →
  match reqBody !! "$set" with
  | Some (VObj m) => m !! "password" = None
  | _ => True
  end →
  lookupId (members (updateMember db id reqBody).1) j ≫= (.!! "password")
  = d !! "password".
Proof.
  intros Hd Hops Hunset Hset. unfold updateMember.
  destruct (findByIdAndUpdate _ _ _ _) as [[coll' [e|]]|] eqn:Hf;
    cbn [fst members withMembers]; try (by rewrite Hd).
  apply findByIdAndUpdate_cases in Hf
    as [(? & _ & _ & _ & ?)|(i & u & d0 & d' & Hid & Hu & Hd0 & Hd' & -> & _)]; [done|].
  destruct (decide (i = j)) as [->|Hne].
  - rewrite (lookupId_replaceFirst _ _ _ _ Hd0). simpl.
    rewrite Hd in Hd0. injection Hd0 as <-.
    destruct (castUpdate_lookup _ _ _ "password" Hu) as (Hs & Hu' & Ho); [done|].
    rewrite (applyUpdate_lookup _ _ _ "password" (eq_trans Ho (otherOperators_delete _ _ Hops)) Hd').
    rewrite assigned_delete_password in Hs by done. simpl in Hs. rewrite Hs.
    destruct (unsets u !! "password") eqn:Hup; [|done].
    assert (unset "password" (delete "password" reqBody) = true) as Hcontra.
    { apply Hu'. by eexists. }
    unfold unset in *. rewrite lookup_delete_ne in Hcontra by done. congruence.
  - rewrite lookupId_replaceFirst_ne by done. by rewrite Hd.
Qed.

End PasswordFrame.

(** C10 (what the code does).  The destructuring drops [password] at the
    top level of the body only.  A body that names the path under [$set]
    passes through: the route answers 200 and the stored password of the
    target member is the value the request sent. *)
Theorem updateMember_set_operator_writes_password `{External}
    (db : Db) (id : string) (i : N) (d : obj) (pw : string) :
  castObjectId (VStr id) = Some i →
  lookupId (members db) i = Some d →
  let r := updateMember db id {["$set" := VObj {["password" := VStr pw]}]} in
  status r.2 = 200
  ∧ lookupId (members r.1) i
    = Some (<["updatedAt" := now]> (<["password" := VStr pw]> d))
  ∧ lookupId (members r.1) i ≫= (.!! "password") = Some (VStr pw).
Proof.
  intros Hid Hd. unfold updateMember.
  rewrite (findByIdAndUpdate_sets _ _ _ _ _ _ _ Hid Hd (castUpdate_set_password pw)).
  cbn [fst snd status json members withMembers].
  rewrite (lookupId_replaceFirst _ _ _ _ Hd), assignments_to_document.
  split; [done|]. split; [done|]. simpl.
  by rewrite lookup_insert_ne, lookup_insert_eq.
Qed.

Lemma updateMember_set_operator_writes_password_witness :
  lookupId (members sampleDb) 1 ≫= (.!! "password") = Some (VStr "$2b$10$password456")
  ∧ status (@updateMember stub sampleDb id1
              {["$set" := VObj {["password" := VStr "hacked"]}]}).2 = 200
  ∧ lookupId (members (@updateMember stub sampleDb id1
                         {["$set" := VObj {["password" := VStr "hacked"]}]}).1) 1
    ≫= (.!! "password") = Some (VStr "hacked").
Proof.
  destruct (@updateMember_set_operator_writes_password stub sampleDb id1 1%N jane
              "hacked") as (Hst & _ & Hpw); [reflexivity | reflexivity |].
  split; [reflexivity|]. split; [exact Hst | exact Hpw].
Defined.

(** ** Creating documents *)

Section Construct.

Context `{External}.

Lemma foldl_castField_Throw (src : obj) (sch : Schema) (e : Error) :
  foldl (castField src) (Throw e) sch = Throw e.
Proof. induction sch as [|kp sch IH]; simpl; [done | apply IH]. Qed.

Lemma castField_other (src acc acc' : obj) (kp : string * SchemaPath) (k : string) :
  castField src (Ok acc) kp = Ok acc' → k ≠ kp.1 → acc' !! k = acc !! k.
Proof.
  unfold castField. simpl. intros Hc Hk. destruct (src !! kp.1) as [v|].
  - destruct (castPath kp.2 v) as [v'|]; [|done]. injection Hc as <-.
    by rewrite lookup_insert_ne.
  - destruct (dflt kp.2); injection Hc as <-; by rewrite ?lookup_insert_ne.
Qed.

Lemma foldl_castField_other (src : obj) (sch : Schema) (acc doc : obj) (k : string) :
  foldl (castField src) (Ok acc) sch = Ok doc →
  k ∉ map fst sch →
  doc !! k = acc !! k.
Proof.
  revert acc. induction sch as [|kp sch IH]; intros acc; cbn [foldl map].
  { by intros [= <-]. }
  destruct (castField src (Ok acc) kp) as [acc'|e] eqn:Hc.
  - intros Hf Hk. rewrite (IH _ Hf) by set_solver.
    apply (castField_other _ _ _ _ _ Hc). set_solver.
  - by rewrite foldl_castField_Throw.
Qed.

Lemma validate_Ok (sch : Schema) (doc doc' : obj) :
  validate sch doc = Ok doc' → doc' = doc.
Proof. unfold validate. destruct (List.find _ _); [done|]. by intros [= <-]. Qed.

(** A successful insertion appends the stamped document under its id. *)
Lemma insertDoc_Ok (sch : Schema) (coll coll' : collection) (i : N) (doc : obj) :
  insertDoc sch coll i doc = Ok coll' → coll' = coll ++ [(i, stamped doc)].
Proof.
  unfold insertDoc. destruct (validate sch doc) as [doc'|] eqn:Hv; [|done].
  apply validate_Ok in Hv as ->. simpl.
  destruct (existsb _ coll); [done|]. destruct (duplicateOf _ _ _); [done|].
  by intros [= <-].
Qed.

Lemma stamped_lookup (doc : obj) (k : string) :
  k ≠ "__v" → k ≠ "updatedAt" → k ≠ "createdAt" → stamped doc !! k = doc !! k.
Proof. intros. unfold stamped. by rewrite !lookup_insert_ne. Qed.

End Construct.

(** ** The life cycle of a loan *)

Section LoanLifecycle.

Context `{External}.

Lemma isReturned_true (db : Db) (i : N) :
  isReturned db i = Some true
  ↔ ∃ d, lookupId (loans db) i = Some d ∧ d !! "returned" = Some (VBool true).
Proof.
  unfold isReturned. destruct (lookupId (loans db) i) as [d|]; simpl.
  - split.
    + intros Hr. exists d. split; [done|].
      destruct (d !! "returned") as [[| [] | | | | |]|]; naive_solver.
    + intros (d' & [= <-] & ->). done.
  - split; [done | by intros (? & ? & _)].
Qed.

Lemma createLoan_loans (db : Db) (reqBody : obj) :
  loans (createLoan db reqBody).1 = loans db
  ∨ ∃ i doc, construct borrowedSchema reqBody = Ok doc
             ∧ loans (createLoan db reqBody).1 = loans db ++ [(i, stamped doc)].
Proof.
  unfold createLoan. destruct (construct borrowedSchema reqBody) as [doc|]; [|by left].
  simpl. destruct (loanId db reqBody) as [i|]; [|by left]. simpl.
  destruct (insertDoc _ _ _ _) as [coll'|] eqn:Hins; [|by left].
  apply insertDoc_Ok in Hins as ->. right. by exists i, doc.
Qed.

Lemma kept_returned (upd : obj) (u : Update) (d d' : obj) :
  keepsReturned upd = true →
  castUpdate borrowedSchema upd = Ok u →
  applyUpdate u d = Ok d' →
  d !! "returned" = Some (VBool true) →
  d' !! "returned" = Some (VBool true).
Proof.
  unfold keepsReturned. intros Hk Hu Hd' Hd.
  apply andb_prop in Hk as [Hk Hassign]. apply andb_prop in Hk as [Hops Hunset].
  apply bool_decide_eq_true in Hops. apply negb_true_iff in Hunset.
  destruct (castUpdate_lookup _ _ _ "returned" Hu) as (Hs & Hu' & Ho); [done|].
  rewrite (applyUpdate_lookup _ _ _ "returned" (eq_trans Ho Hops) Hd').
  destruct (unsets u !! "returned") eqn:Hun.
  { assert (unset "returned" upd = true) by (apply Hu'; by eexists). congruence. }
  rewrite Hs. destruct (assigned "returned" upd) as [v|]; [|done]. simpl.
  change (pathOf borrowedSchema "returned")
    with (Some (withDefault (Const (VBool false)) (path TBoolean))).
  simpl. unfold castPath. simpl.
  destruct v as [|b|n|s|vs|m|]; simpl in *; try done.
  - by destruct b.
  - destruct (n =? 1); [done|]. destruct (n =? 0); done.
  - destruct (_ || _); [done|]. destruct (_ || _); done.
Qed.

(** One operation that spares a returned loan leaves it returned. *)
Lemma step_spared (db : Db) (i : N) (op : LoanOp) :
  isReturned db i = Some true →
  spares i op = true →
  isReturned (stepLoan db op) i = Some true.
Proof.
  rewrite !isReturned_true. intros (d & Hd & Hr) Hop.
  destruct op as [reqBody|id upd|id]; cbn [stepLoan].
  - destruct (createLoan_loans db reqBody) as [->|(j & doc & _ & ->)].
    + by exists d.
    + exists d. split; [by apply lookupId_app | done].
  - unfold updateLoan.
    destruct (findByIdAndUpdate _ _ _ _) as [[coll' [e|]]|] eqn:Hf;
      cbn [fst loans withLoans]; try (by exists d).
    apply findByIdAndUpdate_cases in Hf
      as [(? & _ & _ & _ & ?)|(j & u & d0 & d' & Hid & Hu & Hd0 & Hd' & -> & _)]; [done|].
    destruct (decide (j = i)) as [->|Hne].
    + exists d'. split; [by apply (lookupId_replaceFirst _ _ d0)|].
      rewrite Hd in Hd0. injection Hd0 as <-.
      simpl in Hop. rewrite Hid, bool_decide_eq_true_2 in Hop by done.
      by apply (kept_returned upd u d).
    + exists d. by rewrite lookupId_replaceFirst_ne.
  - unfold deleteLoan, findByIdAndDelete, findById.
    simpl in Hop. apply negb_true_iff, bool_decide_eq_false in Hop.
    destruct (castObjectId (VStr id)) as [j|]; [|by exists d]. simpl.
    destruct (List.find _ _) as [e|] eqn:Hfind; cbn [fst loans withLoans]; [|by exists d].
    apply lookupId_find in Hfind as [He _].
    exists d. rewrite lookupId_removeFirst_ne; [done|]. congruence.
Qed.

Lemma run_spared (ops : list LoanOp) (db : Db) (i : N) :
  isReturned db i = Some true →
  forallb (spares i) ops = true →
  isReturned (runLoans db ops) i = Some true.
Proof.
  unfold runLoans. revert db. induction ops as [|op ops IH]; intros db Hr; cbn [foldl forallb].
  { done. }
  intros [Hop Hops]%andb_prop. apply IH; [|done]. by apply step_spared.
Qed.

End LoanLifecycle.

(** ** Building and validating documents *)

Section ConstructAndValidate.

Context `{External}.

Lemma castField_at (src acc acc' : obj) (k : string) (p : SchemaPath) :
  castField src (Ok acc) (k, p) = Ok acc' →
  acc !! k = None →
  acc' !! k = built src k p.
Proof.
  unfold castField, built. cbn [fst snd mbind Result_bind].
  destruct (src !! k) as [v|].
  - destruct (castPath p v) as [v'|]; [|done]. intros [= <-] _. apply lookup_insert_eq.
  - destruct (dflt p); intros [= <-] Hacc; by rewrite ?lookup_insert_eq.
Qed.

Lemma foldl_castField_lookup (src : obj) (sch : Schema) (acc doc : obj)
    (k : string) (p : SchemaPath) :
  NoDup (map fst sch) →
  foldl (castField src) (Ok acc) sch = Ok doc →
  (k, p) ∈ sch →
  acc !! k = None →
  doc !! k = built src k p.
Proof.
  revert acc. induction sch as [|kp sch IH]; intros acc Hnd; cbn [foldl map] in *.
  { intros _ Hin. inversion Hin. }
  apply NoDup_cons in Hnd as [Hk Hnd].
  destruct (castField src (Ok acc) kp) as [acc'|e] eqn:Hc;
    [|by rewrite foldl_castField_Throw].
  intros Hf Hin Hacc. apply elem_of_cons in Hin as [Heq|Hin].
  - subst kp. rewrite (foldl_castField_other _ _ _ _ _ Hf) by done.
    by apply (castField_at src acc).
  - apply (IH acc'); try done.
    rewrite (castField_other _ _ _ _ _ Hc); [done|].
    intros ->. apply Hk. apply list_elem_of_fmap. by exists (kp.1, p).
Qed.

(** The document that [new Model(src)] builds, path by path. *)
Lemma construct_lookup (sch : Schema) (src doc : obj) (k : string) (p : SchemaPath) :
  NoDup (map fst sch) →
  construct sch src = Ok doc →
  (k, p) ∈ sch →
  doc !! k = built src k p.
Proof. intros Hnd Hc Hin. by apply (foldl_castField_lookup src sch ∅). Qed.

(** Building succeeds when every value the source brings casts. *)
Lemma construct_Ok (sch : Schema) (src : obj) :
  (∀ k p v, (k, p) ∈ sch → src !! k = Some v → is_Some (castPath p v)) →
  ∃ doc, construct sch src = Ok doc.
Proof.
  unfold construct. generalize (∅ : obj) as acc.
  induction sch as [|[k p] sch IH]; intros acc Hcast; cbn [foldl].
  { by exists acc. }
  assert (∃ acc', castField src (Ok acc) (k, p) = Ok acc') as [acc' ->].
  { unfold castField. cbn [fst snd mbind Result_bind].
    destruct (src !! k) as [v|] eqn:Hv.
    - destruct (Hcast k p v) as [v' ->]; [by left | done | by eexists].
    - destruct (dflt p); by eexists. }
  apply IH. intros k' p' v Hin. apply Hcast. by right.
Qed.

Lemma validate_valid (sch : Schema) (doc : obj) :
  (∀ kp, kp ∈ sch → invalid doc kp = false) → validate sch doc = Ok doc.
Proof.
  unfold validate. intros Hvalid.
  assert (List.find (invalid doc) sch = None) as ->; [|done].
  induction sch as [|kp sch IH]; cbn [List.find]; [done|].
  rewrite Hvalid by left. apply IH. intros kp' Hin. apply Hvalid. by right.
Qed.

End ConstructAndValidate.

Section LoanDefaults.

Context `{External}.

(** A loan that POST /loans creates from a body without [returned] and
    [isOverdue] holds the defaults of the schema. *)
Lemma createLoan_defaults (db : Db) (reqBody : obj) :
  reqBody !! "returned" = None →
  reqBody !! "isOverdue" = None →
  loans (createLoan db reqBody).1 = loans db
  ∨ ∃ i d, loans (createLoan db reqBody).1 = loans db ++ [(i, d)]
           ∧ d !! "returned" = Some (VBool false)
           ∧ d !! "isOverdue" = Some (VBool false).
Proof.
  intros Hr Ho.
  destruct (createLoan_loans db reqBody) as [?|(i & doc & Hc & ->)]; [by left|].
  right. exists i, (stamped doc). split; [done|].
  assert (NoDup (map fst borrowedSchema)) as Hnd.
  { apply (bool_decide_unpack _). vm_compute. exact I. }
  rewrite !stamped_lookup by done. split.
  - rewrite (construct_lookup borrowedSchema reqBody doc "returned"
               (withDefault (Const (VBool false)) (path TBoolean)) Hnd Hc)
      by (unfold borrowedSchema; set_solver).
    unfold built. by rewrite Hr.
  - rewrite (construct_lookup borrowedSchema reqBody doc "isOverdue"
               (withDefault (Const (VBool false)) (path TBoolean)) Hnd Hc)
      by (unfold borrowedSchema; set_solver).
    unfold built. by rewrite Ho.
Qed.

End LoanDefaults.

(** C8 (as stated, refuted).  PUT /loans/:id hands the request body to
    [findByIdAndUpdate] unguarded: a body with [returned: false] moves a
    returned loan back to [returned = false].  POST /loans hands the body
    to [new Borrowed]: a body with [returned: true, isOverdue: true] creates
    a loan that starts returned and overdue. *)
Lemma returned_loan_reopened :
  isReturned sampleDb 3 = Some true
  ∧ isReturned (@runLoans stub sampleDb [PutLoan id3 {["returned" := VBool false]}]) 3
    = Some false
  ∧ (let created :=
       (@createLoan stub emptyDb
          (list_to_map [("userId", VStr id1); ("bookId", VStr id2);
                        ("dueDate", VStr "2026-03-01");
                        ("returned", VBool true); ("isOverdue", VBool true)])) in
     lookupId (loans created.1) 1 ≫= (.!! "returned") = Some (VBool true)
     ∧ lookupId (loans created.1) 1 ≫= (.!! "isOverdue") = Some (VBool true)).
Proof. vm_compute. repeat split; reflexivity. Qed.

(** C8 (amended).  A returned loan stays returned through every sequence
    of POST, PUT and DELETE operations that neither deletes it nor updates
    it with a document that unsets [returned], assigns it a value that
    casts to [false] or [null], or uses an operator other than [$set] and
    [$unset].  A loan that POST /loans creates from a body that leaves out
    [returned] and [isOverdue] starts with both flags [false]. *)
Theorem returned_loans_stay_returned `{External}
    (db : Db) (ops : list LoanOp) (i : N) (reqBody : obj) :
  (isReturned db i = Some true →
   forallb (spares i) ops = true →
   isReturned (runLoans db ops) i = Some true)
  ∧ (reqBody !! "returned" = None →
     reqBody !! "isOverdue" = None →
     loans (createLoan db reqBody).1 = loans db
     ∨ ∃ j d, loans (createLoan db reqBody).1 = loans db ++ [(j, d)]
              ∧ d !! "returned" = Some (VBool false)
              ∧ d !! "isOverdue" = Some (VBool false)).
Proof.
  split.
  - apply run_spared.
  - apply createLoan_defaults.
Qed.

Lemma returned_loans_stay_returned_witness :
  let borrow : obj := list_to_map [("userId", VStr id1); ("bookId", VStr id2);
                                   ("dueDate", VStr "2026-03-01")] in
  isReturned
    (@runLoans stub sampleDb
       [PostLoan borrow;
        PutLoan id3 {["returnDate" := VStr "2026-02-02"]};
        PutLoan id3 {["returned" := VStr "yes"]};
        DeleteLoan "000000000000000000000004"]) 3 = Some true
  ∧ ∃ j d, loans (@createLoan stub sampleDb borrow).1 = loans sampleDb ++ [(j, d)]
           ∧ d !! "returned" = Some (VBool false)
           ∧ d !! "isOverdue" = Some (VBool false).
Proof.
  intros borrow.
  destruct (@returned_loans_stay_returned stub sampleDb
              [PostLoan borrow;
               PutLoan id3 {["returnDate" := VStr "2026-02-02"]};
               PutLoan id3 {["returned" := VStr "yes"]};
               DeleteLoan "000000000000000000000004"] 3%N borrow) as [Hrun Hnew].
  split.
  - apply Hrun; reflexivity.
  - destruct Hnew as [Hsame|Hnew]; [reflexivity | reflexivity | | exact Hnew].
    apply (f_equal length) in Hsame. vm_compute in Hsame. discriminate.
Defined.

Lemma lookup_setField (k k' : string) (v : option value) (m : gmap string value) :
  setField k v m !! k'
  = if decide (k = k') then match v with
                            | Some x => Some x
                            | None => m !! k'
                            end
    else m !! k'.
Proof.
  unfold setField. destruct v as [x|].
  - by rewrite lookup_insert.
  - by case_decide.
Qed.

(** Looks a concrete key up in an object literal. *)
Ltac literal_lookup :=
  repeat (rewrite lookup_insert || rewrite lookup_setField);
  repeat (case_decide;
          match goal with
          | Hk : @eq string _ _ |- _ => try discriminate Hk
          | Hk : ¬ @eq string _ _ |- _ => try (by destruct Hk)
          end);
  rewrite ?lookup_empty;
  repeat match goal with
         | |- context [match ?o with Some _ => _ | None => _ end] => destruct o
         end;
  try done.

Section ProfileStatus.

Context `{External}.

Lemma otherOperators_setField (k : string) (v : option value) (m : gmap string value) :
  isOperator k = false → otherOperators (setField k v m) = otherOperators m.
Proof.
  intros Hk. unfold otherOperators, setField. destruct v as [x|]; [|done].
  apply map_filter_insert_not. intros y [Hop _]. simpl in Hop. congruence.
Qed.

(** The half of the role restriction that holds: whatever the body, a
    profile route answers 400 when the member's role is not the route's. *)
Lemma updateProfile_status (db : Db) (id : string) (i : N) (d updateData : obj)
    (role notFound wrongRole done : string) :
  castObjectId (VStr id) = Some i →
  lookupId (members db) i = Some d →
  differs (d !! "role") role = true →
  otherOperators updateData = ∅ →
  updateData !! "$set" = None →
  updateData !! "$unset" = None →
  updateData !! "role" = None →
  status (updateProfile db id updateData role notFound wrongRole done).2 = 400.
Proof.
  intros Hid Hd Hrole Hops Hset Hunset Hr. unfold updateProfile.
  destruct (findByIdAndUpdate _ _ _ _) as [[coll' [e|]]|] eqn:Hf; cbn [snd]; [| |done].
  - apply findByIdAndUpdate_cases in Hf
      as [(? & _ & _ & _ & ?)|(j & u & d0 & d' & Hj & Hu & Hd0 & Hd' & _ & [= ->])]; [done|].
    rewrite Hid in Hj. injection Hj as <-. rewrite Hd in Hd0. injection Hd0 as <-.
    destruct (castUpdate_lookup _ _ _ "role" Hu) as (Hs & Hu' & Ho); [done|].
    cbn [fst snd].
    assert (exclude hidden (lean i d') !! "role" = d !! "role") as ->; [|by rewrite Hrole].
    rewrite exclude_lookup, decide_False by (unfold hidden; set_solver).
    unfold lean. rewrite lookup_insert_ne by done.
    rewrite (applyUpdate_lookup _ _ _ "role" (eq_trans Ho Hops) Hd').
    destruct (unsets u !! "role") eqn:Hun.
    { assert (unset "role" updateData = true) as Hcontra by (apply Hu'; by eexists).
      unfold unset in Hcontra. by rewrite Hunset in Hcontra. }
    rewrite Hs. unfold assigned. rewrite Hset.
    assert (plainKeys updateData !! "role" = None) as ->; [|done].
    apply map_lookup_filter_None. by left.
  - apply findByIdAndUpdate_cases in Hf
      as [(j & Hj & Hnone & _)|(? & ? & ? & ? & _ & _ & _ & _ & _ & ?)]; [|done].
    congruence.
Qed.

Lemma updateStudent_status (db : Db) (id : string) (i : N) (d reqBody : obj) :
  castObjectId (VStr id) = Some i →
  lookupId (members db) i = Some d →
  differs (d !! "role") "student" = true →
  status (updateStudent db id reqBody).2 = 400.
Proof.
  intros Hid Hd Hrole. unfold updateStudent. cbv zeta.
  apply (updateProfile_status db id i d); try done; try (by literal_lookup).
  by rewrite !otherOperators_setField.
Qed.

Lemma updatePatron_status (db : Db) (id : string) (i : N) (d reqBody : obj) :
  castObjectId (VStr id) = Some i →
  lookupId (members db) i = Some d →
  differs (d !! "role") "patron" = true →
  status (updatePatron db id reqBody).2 = 400.
Proof.
  intros Hid Hd Hrole. unfold updatePatron. cbv zeta.
  apply (updateProfile_status db id i d); try done; try (by literal_lookup).
  by rewrite !otherOperators_setField.
Qed.

End ProfileStatus.

(** ** Registration *)

Section Accepted.

Context `{External}.

Lemma find_app_new {A : Type} (f : A → bool) (l : list A) (x : A) :
  List.find f l = None → f x = true → List.find f (l ++ [x]) = Some x.
Proof.
  induction l as [|y l IH]; cbn; [by intros _ ->|].
  destruct (f y); [done|]. apply IH.
Qed.

Lemma find_agree {A : Type} (f g : A → bool) (l : list A) :
  (∀ x, f x = g x) → List.find f l = List.find g l.
Proof. intros Hfg. induction l as [|y l IH]; cbn; [done|]. by rewrite Hfg, IH. Qed.

Lemma find_is_Some {A : Type} (f : A → bool) (l : list A) (x : A) :
  x ∈ l → f x = true → is_Some (List.find f l).
Proof.
  induction l as [|y l IH]; [by intros ?%elem_of_nil|].
  intros [->|Hin]%elem_of_cons Hx; cbn.
  - rewrite Hx. by eexists.
  - destruct (f y); [by eexists | by apply IH].
Qed.

Lemma find_is_None {A : Type} (f : A → bool) (l : list A) (x : A) :
  List.find f l = None → x ∈ l → f x = false.
Proof.
  induction l as [|y l IH]; [by intros _ ?%elem_of_nil|]. cbn.
  destruct (f y) eqn:Hy; [done|]. intros Hl [->|Hin]%elem_of_cons; [done | by apply IH].
Qed.

Lemma findOne_email (coll : collection) (e : string) :
  findOne memberSchema coll "email" (VStr e)
  = Ok (List.find (λ x, emailIs e (x.2 !! "email")) coll).
Proof.
  unfold findOne, condition.
  change (pathOf memberSchema "email")
    with (Some (withLowercase (withUnique (withRequired (path TString))))).
  reflexivity.
Qed.

Lemma toLowerCase_nil : toLowerCase "" = "".
Proof. by apply toLowerCase_ascii. Qed.

Lemma emailIs_lower (e e' : string) (v : option value) :
  toLowerCase e' = toLowerCase e → emailIs e' v = emailIs e v.
Proof. unfold emailIs. by intros ->. Qed.

Lemma validate_invalid (sch : Schema) (doc : obj) (kp : string * SchemaPath) :
  kp ∈ sch → invalid doc kp = true → ∃ k, validate sch doc = Throw (ValidationError k).
Proof.
  intros Hin Hbad. unfold validate.
  destruct (find_is_Some (invalid doc) sch kp Hin Hbad) as [kp' ->]. by eexists.
Qed.

(** A document that passes validation is valid at every path. *)
Lemma validate_passed (sch : Schema) (doc doc' : obj) (kp : string * SchemaPath) :
  validate sch doc = Ok doc' → kp ∈ sch → invalid doc kp = false.
Proof.
  unfold validate. destruct (List.find _ sch) eqn:Hfind; [done|]. intros _.
  by apply find_is_None.
Qed.

Lemma insertDoc_validated (sch : Schema) (coll coll' : collection) (i : N) (doc : obj) :
  insertDoc sch coll i doc = Ok coll' → validate sch doc = Ok doc.
Proof.
  unfold insertDoc. destruct (validate sch doc) as [doc'|] eqn:Hv; [|done].
  by apply validate_Ok in Hv as ->.
Qed.

Lemma schemaPath_elem (sch : Schema) (k : string) (p : SchemaPath) :
  schemaPath sch k = Some p → (k, p) ∈ sch.
Proof.
  unfold schemaPath. destruct (List.find _ sch) as [[k' p']|] eqn:Hfind; [|done].
  intros [= <-]. apply find_some in Hfind as [Hin Hk].
  apply String.eqb_eq in Hk. cbn in Hk. subst k'. by apply list_elem_of_In.
Qed.

(** The document that [new Model(src)] builds, at a path of the schema. *)
Lemma construct_path (sch : Schema) (src doc : obj) (k : string) (p : SchemaPath) :
  NoDup (map fst sch) →
  construct sch src = Ok doc →
  schemaPath sch k = Some p →
  doc !! k = built src k p.
Proof.
  intros Hnd Hdoc Hp. apply (construct_lookup sch src doc k p Hnd Hdoc).
  by apply schemaPath_elem.
Qed.

Lemma memberSchema_NoDup : NoDup (map fst memberSchema).
Proof. apply (bool_decide_unpack _). vm_compute. exact I. Qed.

(** What a successful registration did: no member held the address, the
    password was hashed, and the new member was appended, with the
    address in lower case (which is not empty, as the document passed
    validation). *)
Lemma register_created (db : Db) (e : string) (password : option value) (src : obj)
    (welcome : string) :
  src !! "email" = Some (VStr e) →
  status (register db (Some (VStr e)) password src welcome).2 = 201 →
  ∃ h doc,
    List.find (λ x, emailIs e (x.2 !! "email")) (members db) = None
    ∧ bcryptHash (default VNull password) = Ok h
    ∧ (register db (Some (VStr e)) password src welcome).1
      = withMembers (members db ++ [(nextId db, stamped doc)]) (bumped db)
    ∧ doc !! "email" = Some (VStr (toLowerCase e))
    ∧ toLowerCase e ≠ ""
    ∧ doc !! "password" = Some (VStr h).
Proof.
  intros He. unfold register. cbn [default from_option id].
  rewrite findOne_email. cbn [mbind Result_bind].
  destruct (List.find _ (members db)) as [x|] eqn:Hfind; [done|].
  destruct (bcryptHash _) as [h|]; cbn [mbind Result_bind]; [|done].
  destruct (construct _ _) as [doc|] eqn:Hdoc; cbn [mbind Result_bind]; [|done].
  destruct (insertDoc _ _ _ _) as [coll'|] eqn:Hins; cbn [mbind Result_bind]; [|done].
  intros _. pose proof (insertDoc_validated _ _ _ _ _ Hins) as Hvalid.
  apply insertDoc_Ok in Hins as ->. exists h, doc.
  assert (doc !! "email" = Some (VStr (toLowerCase e))) as Hemail.
  { rewrite (construct_path memberSchema _ doc "email" _ memberSchema_NoDup Hdoc eq_refl).
    unfold built. by rewrite lookup_insert_ne, He. }
  split; [done|]. split; [done|]. split; [done|]. split; [done|]. split.
  - pose proof (validate_passed memberSchema doc doc
                  ("email", withLowercase (withUnique (withRequired (path TString))))
                  Hvalid) as Hok.
    unfold invalid in Hok. cbn [fst snd] in Hok. rewrite Hemail in Hok.
    intros Hempty. rewrite Hempty in Hok. cbn in Hok.
    discriminate Hok. unfold memberSchema. set_solver.
  - rewrite (construct_path memberSchema _ doc "password" _ memberSchema_NoDup Hdoc eq_refl).
    unfold built. by rewrite lookup_insert_eq.
Qed.

Lemma truthy_text (s : string) : truthy (Some (VStr s)) = true → s ≠ "".
Proof. simpl. by destruct s. Qed.

Lemma text_truthy (s : string) : s ≠ "" → truthy (Some (VStr s)) = true.
Proof. simpl. by destruct s. Qed.

(** The same for the two routes; the presence check was passed. *)
Lemma submit_created (db : Db) (r : Registration) (e : string) :
  bodyOf r !! "email" = Some (VStr e) →
  status (submit db r).2 = 201 →
  present r = true
  ∧ ∃ h doc,
      List.find (λ x, emailIs e (x.2 !! "email")) (members db) = None
      ∧ bcryptHash (default VNull (bodyOf r !! "password")) = Ok h
      ∧ (submit db r).1
        = withMembers (members db ++ [(nextId db, stamped doc)]) (bumped db)
      ∧ doc !! "email" = Some (VStr (toLowerCase e))
      ∧ toLowerCase e ≠ ""
      ∧ doc !! "password" = Some (VStr h).
Proof.
  intros He.
  destruct r as [b|b]; unfold present; cbn [bodyOf submit] in *;
    [unfold registerStudent | unfold registerPatron]; cbv zeta; rewrite He.
  - destruct (truthy (b !! "name")); [|done].
    destruct (truthy (Some (VStr e))) eqn:Te; [|done].
    destruct (truthy (b !! "password")) eqn:Tp; [|done].
    destruct (truthy (b !! "studentId")); [|done].
    cbn [negb orb andb]. intros Hst. split; [done|].
    apply register_created; [|done]. by literal_lookup.
  - destruct (truthy (b !! "name")); [|done].
    destruct (truthy (Some (VStr e))) eqn:Te; [|done].
    destruct (truthy (b !! "password")) eqn:Tp; [|done].
    cbn [negb orb andb]. intros Hst. split; [done|].
    apply register_created; [|done]. by literal_lookup.
Qed.

(** A registration that passes the presence check and brings an address
    that a member holds is refused, and nothing is stored. *)
Lemma submit_taken (db : Db) (r : Registration) (e : string) (x : N * obj) :
  bodyOf r !! "email" = Some (VStr e) →
  present r = true →
  List.find (λ x, emailIs e (x.2 !! "email")) (members db) = Some x →
  submit db r = (db, json 400 [("error", VStr "Email already registered")]).
Proof.
  intros He Hpresent Hfind.
  destruct r as [b|b]; unfold present in Hpresent; cbn [bodyOf submit] in *;
    [unfold registerStudent | unfold registerPatron]; cbv zeta;
    repeat match goal with
           | Hf : _ && _ = true |- _ => apply andb_prop in Hf as [Hf ?]
           end;
    repeat match goal with
           | Hf : truthy _ = true |- _ => rewrite Hf; clear Hf
           end;
    cbn [negb orb]; rewrite He; unfold register; cbn [default from_option id];
    by rewrite findOne_email, Hfind.
Qed.

Lemma accepted_then_rejected (db : Db) (first second : Registration) (e1 e2 : string) :
  members db = [] →
  bodyOf first !! "email" = Some (VStr e1) →
  bodyOf second !! "email" = Some (VStr e2) →
  toLowerCase e1 = toLowerCase e2 →
  status (submit db first).2 = 201 →
  status (submit db second).2 = 201 →
  acceptedThenRejected db first second.
Proof.
  intros Hm He1 He2 Hlower Hfirst Hsecond.
  destruct (submit_created db first e1 He1 Hfirst)
    as (_ & h & doc & _ & _ & Hstore & Hemail & _ & _).
  destruct (submit_created db second e2 He2 Hsecond) as (Hpresent & _).
  unfold acceptedThenRejected. cbv zeta.
  split; [done|]. rewrite Hstore, Hm. cbn [app members withMembers bumped length].
  split; [done|].
  apply (submit_taken _ second e2 (nextId db, stamped doc)); [done | done |].
  cbn [members withMembers bumped List.find snd].
  rewrite stamped_lookup by done. rewrite Hemail. unfold emailIs.
  rewrite Hlower. cbn. by rewrite String.eqb_refl.
Qed.

End Accepted.

(** C9.  Two registrations whose emails are strings equal up to letter
    case, each of which is answered 201 when it is submitted alone to a
    store without members: submitted one after the other to that store,
    whichever comes first is answered 201 and stored, and the other is
    answered 400 "Email already registered" and stores nothing. *)
Theorem duplicate_email_rejected `{External} (db : Db) (a b : Registration)
    (ea eb : string) :
  members db = [] →
  bodyOf a !! "email" = Some (VStr ea) →
  bodyOf b !! "email" = Some (VStr eb) →
  toLowerCase ea = toLowerCase eb →
  status (submit db a).2 = 201 →
  status (submit db b).2 = 201 →
  acceptedThenRejected db a b ∧ acceptedThenRejected db b a.
Proof.
  intros Hm Hea Heb Hlower Ha Hb. split.
  - by apply (accepted_then_rejected db a b ea eb).
  - by apply (accepted_then_rejected db b a eb ea).
Qed.

Lemma duplicate_email_rejected_witness :
  let ada : Registration :=
    AsStudent (list_to_map [("name", VStr "Ada"); ("email", VStr "Ada@Example.com");
                            ("password", VStr "pw1"); ("studentId", VStr "S1");
                            ("phone", VNum 555)]) in
  let lovelace : Registration :=
    AsPatron (list_to_map [("name", VStr "A. Lovelace"); ("email", VStr "ada@example.COM");
                           ("password", VStr "pw2"); ("phone", VStr "555")]) in
  @acceptedThenRejected stub emptyDb ada lovelace
  ∧ @acceptedThenRejected stub emptyDb lovelace ada.
Proof.
  intros ada lovelace.
  apply (@duplicate_email_rejected stub emptyDb ada lovelace
           "Ada@Example.com" "ada@example.COM"); reflexivity.
Defined.

(** ** What the responses show of a member *)

Section Hiding.

Context `{External}.

Lemma hides_nothing (k : string) (sh : Shape) (r : response) :
  views sh r = [] → hides k sh r.
Proof. unfold hides. intros ->. constructor. Qed.

Lemma hides_error_under (k k' k0 : string) (st : Z) (v : value) :
  (∀ m, v ≠ VObj m) → hides k (Under k') (json st [(k0, v)]).
Proof.
  intros Hv. apply hides_nothing. unfold views, json, inner. cbn.
  destruct (decide (k0 = k')) as [->|Hne].
  - rewrite lookup_insert_eq. destruct v; try done. by destruct (Hv fields).
  - by rewrite lookup_insert_ne, lookup_empty.
Qed.

Lemma hides_error_whole (k k0 : string) (st : Z) (v : value) :
  k0 ≠ k → hides k Whole (json st [(k0, v)]).
Proof.
  intros Hne. unfold hides, views, json. cbn. constructor; [|constructor].
  by rewrite lookup_insert_ne, lookup_empty.
Qed.

Lemma hides_under (k k' k0 : string) (st : Z) (v0 : value) (m : obj) :
  k0 ≠ k' → m !! k = None → hides k (Under k') (json st [(k0, v0); (k', VObj m)]).
Proof.
  intros Hne Hm. unfold hides, views, json, inner. cbn.
  rewrite lookup_insert_ne, lookup_insert_eq by done. by constructor.
Qed.

Lemma exclude_hidden_password (d : obj) : exclude hidden d !! "password" = None.
Proof. rewrite exclude_lookup. rewrite decide_True; [done|]. unfold hidden. set_solver. Qed.

Lemma hides_listMembers (db : Db) (query : obj) :
  hides "password" Rows (listMembers db query).
Proof.
  unfold listMembers. cbv zeta.
  destruct (skipOf _ _) as [skip|]; cbn [mbind Result_bind];
    [|by apply hides_nothing].
  destruct (runFind _ _ _ _ _) as [found|]; cbn [mbind Result_bind];
    [|by apply hides_nothing].
  destruct (countDocuments _ _) as [total|]; cbn [mbind Result_bind];
    [|by apply hides_nothing].
  unfold hides, views. cbn [body data]. apply Forall_fmap, Forall_forall.
  intros e _. apply exclude_hidden_password.
Qed.

Lemma hides_getMember (db : Db) (id : string) :
  hides "password" Whole (getMember db id).
Proof.
  unfold getMember. destruct (findById _ _) as [[e|]|].
  - unfold hides, views. cbn [body]. constructor; [|constructor].
    apply exclude_hidden_password.
  - by apply hides_error_whole.
  - by apply hides_error_whole.
Qed.

Lemma hides_login (db : Db) (reqBody : obj) :
  hides "password" (Under "user") (login db reqBody).
Proof.
  unfold login. cbv zeta. destruct (_ || _); [by apply hides_error_under|].
  destruct (findOne _ _ _ _) as [[e|]|]; cbn [mbind Result_bind].
  - destruct (bcryptCompare _ _) as [[]|]; cbn [mbind Result_bind negb].
    + apply hides_under; [done|]. apply lookup_delete_eq.
    + by apply hides_error_under.
    + by apply hides_error_under.
  - by apply hides_error_under.
  - by apply hides_error_under.
Qed.

Lemma hides_updateMember (db : Db) (id : string) (reqBody : obj) :
  hides "password" (Under "member") (updateMember db id reqBody).2.
Proof.
  unfold updateMember. cbv zeta.
  destruct (findByIdAndUpdate _ _ _ _) as [[coll' [e|]]|]; cbn [snd].
  - apply hides_under; [done|]. apply exclude_hidden_password.
  - by apply hides_error_under.
  - by apply hides_error_under.
Qed.

Lemma hides_updateProfile (db : Db) (id : string) (updateData : obj)
    (role notFound wrongRole done : string) :
  hides "password" (Under "member")
    (updateProfile db id updateData role notFound wrongRole done).2.
Proof.
  unfold updateProfile.
  destruct (findByIdAndUpdate _ _ _ _) as [[coll' [e|]]|]; cbn [snd].
  - destruct (differs _ _); cbn [snd]; [by apply hides_error_under|].
    apply hides_under; [done|]. apply exclude_hidden_password.
  - by apply hides_error_under.
  - by apply hides_error_under.
Qed.

Lemma hides_register (db : Db) (email password : option value) (src : obj)
    (welcome : string) :
  hides "password" Whole (register db email password src welcome).2.
Proof.
  unfold register. cbv zeta.
  destruct (findOne _ _ _ _) as [[e|]|]; cbn [mbind Result_bind snd];
    [by apply hides_error_whole | | by apply hides_error_whole].
  destruct (bcryptHash _) as [h|]; cbn [mbind Result_bind snd];
    [|by apply hides_error_whole].
  destruct (construct _ _) as [doc|]; cbn [mbind Result_bind snd];
    [|by apply hides_error_whole].
  destruct (insertDoc _ _ _ _) as [coll'|]; cbn [mbind Result_bind snd];
    [|by apply hides_error_whole].
  unfold hides, views, json. cbn [body list_to_map foldr uncurry fst snd].
  constructor; [|constructor].
  by rewrite !lookup_insert_ne, lookup_empty.
Qed.

End Hiding.

Section HidingInLoans.

Context `{External}.

Lemma mapM_Ok {A B : Type} (f : A → Result B) (l : list A) (rows : list B) :
  mapM f l = Ok rows → Forall2 (λ x y, f x = Ok y) l rows.
Proof.
  revert rows. induction l as [|x l IH]; intros rows; cbn.
  { intros [= <-]. constructor. }
  destruct (f x) as [y|] eqn:Hx; [|done]. cbn.
  destruct (mapM f l) as [k|]; [|done]. cbn. intros [= <-].
  constructor; [done | by apply IH].
Qed.

Lemma inner_reference (k : string) (d : obj) :
  reference (d !! k) = true → inner k d = [].
Proof. unfold inner, reference. by destruct (d !! k) as [[]|]. Qed.

Lemma populate_other (models : string → option collection) (sch : Schema)
    (k k' : string) (fields : list string) (d d' : obj) :
  populate models sch k fields d = Ok d' → k ≠ k' → d' !! k' = d !! k'.
Proof.
  unfold populate. intros Hp Hk.
  destruct (d !! k) as [v|]; [|by injection Hp as <-].
  destruct (pathOf sch k ≫= ref) as [r|]; [|by injection Hp as <-].
  destruct (models r) as [coll|]; [|done].
  destruct v; injection Hp as <-; try done. by rewrite lookup_insert_ne.
Qed.

(** What [populate] puts in place of a reference shows the selected fields
    only. *)
Lemma populate_hides (models : string → option collection) (sch : Schema)
    (k hiddenKey : string) (fields : list string) (d d' : obj) :
  populate models sch k fields d = Ok d' →
  hiddenKey ∉ "_id" :: fields →
  reference (d !! k) = true →
  Forall (λ m : obj, m !! hiddenKey = None) (inner k d').
Proof.
  unfold populate. intros Hp Hk Href.
  destruct (d !! k) as [v|] eqn:Hv;
    [|injection Hp as <-; by rewrite inner_reference by (by rewrite Hv)].
  destruct (pathOf sch k ≫= ref) as [r|];
    [|injection Hp as <-; by rewrite inner_reference by (by rewrite Hv)].
  destruct (models r) as [coll|]; [|done].
  destruct v as [| | i | | | |]; injection Hp as <-;
    try (by rewrite inner_reference by (by rewrite Hv)).
  unfold inner. rewrite lookup_insert_eq.
  destruct (lookupId coll (Z.to_N i)) as [m|]; [|constructor].
  constructor; [|constructor]. rewrite only_lookup. by rewrite decide_False.
Qed.

Lemma populated_hides (db : Db) (userFields bookFields : list string) (loan d : obj) :
  populated db userFields bookFields loan = Ok d →
  "password" ∉ "_id" :: userFields →
  reference (loan !! "userId") = true →
  Forall (λ m : obj, m !! "password" = None) (inner "userId" (exclude ["__v"] d)).
Proof.
  unfold populated. intros Hp Hk Href.
  destruct (populate _ _ "userId" _ _) as [d1|] eqn:H1; [|done].
  cbn [mbind Result_bind] in Hp.
  pose proof (populate_hides _ _ _ _ _ _ _ H1 Hk Href) as Hh.
  unfold inner in *. rewrite exclude_lookup, decide_False by set_solver.
  by rewrite (populate_other _ _ _ "userId" _ _ _ Hp).
Qed.

Lemma lean_reference (i : N) (d : obj) :
  reference (lean i d !! "userId") = reference (d !! "userId").
Proof. unfold lean. by rewrite lookup_insert_ne. Qed.

Lemma hides_getLoan (db : Db) (id : string) :
  holdsReferences (loans db) →
  hides "password" (Under "userId") (getLoan db id).
Proof.
  intros Hrefs. unfold getLoan, findById. cbv zeta.
  destruct (castObjectId (VStr id)) as [i|]; cbn [mbind Result_bind];
    [|by apply hides_error_under].
  destruct (List.find _ _) as [e|] eqn:Hfind; [|by apply hides_error_under].
  destruct (populated _ _ _ _) as [d|] eqn:Hp; cbn [mbind Result_bind];
    [|by apply hides_error_under].
  unfold hides, views. cbn [body].
  apply (populated_hides _ _ _ _ _ Hp); [set_solver|].
  rewrite lean_reference. apply Hrefs.
  apply find_some in Hfind as [Hin _]. by apply list_elem_of_In.
Qed.

Lemma hides_listLoans (db : Db) (query : obj) :
  findsStored (loans db) →
  holdsReferences (loans db) →
  hides "password" (RowsUnder "userId") (listLoans db query).
Proof.
  intros Hstored Hrefs. unfold listLoans. cbv zeta.
  destruct (skipOf _ _) as [skip|]; cbn [mbind Result_bind];
    [|by apply hides_nothing].
  destruct (runFind _ _ _ _ _) as [found|] eqn:Hfind; cbn [mbind Result_bind];
    [|by apply hides_nothing].
  destruct (mapM _ found) as [rows|] eqn:Hrows; cbn [mbind Result_bind];
    [|by apply hides_nothing].
  destruct (countDocuments _ _) as [total|]; cbn [mbind Result_bind];
    [|by apply hides_nothing].
  unfold hides, views. cbn [body data].
  apply Forall_concat, Forall_fmap, Forall_fmap.
  apply Hstored in Hfind. apply mapM_Ok in Hrows.
  induction Hrows as [|e d found rows Hp _ IH]; [constructor|].
  constructor.
  - apply (populated_hides _ _ _ _ _ Hp); [set_solver|].
    rewrite lean_reference. apply Hrefs, Hfind. by left.
  - apply IH. intros x Hx. apply Hfind. by right.
Qed.

End HidingInLoans.

(** C6.  No response that carries member data carries the member's
    [password]: not the rows of GET /members, the member of
    GET /members/:id, the user of a successful login, the member returned
    by the three update routes, the answer to a registration, nor (for
    stored loans that name their member by reference) the member that the
    loan reads resolve under [userId]. *)
Theorem password_never_returned `{External}
    (db : Db) (query reqBody : obj) (id : string) :
  hides "password" Rows (listMembers db query)
  ∧ hides "password" Whole (getMember db id)
  ∧ hides "password" (Under "user") (login db reqBody)
  ∧ hides "password" (Under "member") (updateMember db id reqBody).2
  ∧ hides "password" (Under "member") (updateStudent db id reqBody).2
  ∧ hides "password" (Under "member") (updatePatron db id reqBody).2
  ∧ hides "password" Whole (registerStudent db reqBody).2
  ∧ hides "password" Whole (registerPatron db reqBody).2
  ∧ (holdsReferences (loans db) →
     hides "password" (Under "userId") (getLoan db id)
     ∧ (findsStored (loans db) →
        hides "password" (RowsUnder "userId") (listLoans db query))).
Proof.
  split; [apply hides_listMembers|].
  split; [apply hides_getMember|].
  split; [apply hides_login|].
  split; [apply hides_updateMember|].
  split; [apply hides_updateProfile|].
  split; [apply hides_updateProfile|].
  split.
  { unfold registerStudent. cbv zeta.
    destruct (_ || _); [by apply hides_error_whole | apply hides_register]. }
  split.
  { unfold registerPatron. cbv zeta.
    destruct (_ || _); [by apply hides_error_whole | apply hides_register]. }
  intros Hrefs. split; [by apply hides_getLoan|].
  intros Hstored. by apply hides_listLoans.
Qed.

Lemma password_never_returned_witness :
  hides "password" Whole (@getMember stub sampleDb id1)
  ∧ length (views Whole (@getMember stub sampleDb id1)) = 1%nat
  ∧ hides "password" (Under "userId") (@getLoan stub sampleDb id3)
  ∧ hides "password" (RowsUnder "userId") (@listLoans stub sampleDb ∅).
Proof.
  assert (holdsReferences (loans sampleDb)) as Hrefs.
  { intros e Hin. apply list_elem_of_singleton in Hin as ->. reflexivity. }
  assert (@findsStored stub (loans sampleDb)) as Hstored.
  { intros filter sortKey skip limit found [= <-]. done. }
  destruct (@password_never_returned stub sampleDb ∅ ∅ id1) as (_ & Hget & _).
  destruct (@password_never_returned stub sampleDb ∅ ∅ id3)
    as (_ & _ & _ & _ & _ & _ & _ & _ & Hloans).
  destruct (Hloans Hrefs) as [Hloan Hlist].
  split; [exact Hget|]. split; [reflexivity|]. split; [exact Hloan|].
  exact (Hlist Hstored).
Defined.

(** ** The list handlers and the utilities *)

Section FilterSteps.

Variable query : gmap string value.

Lemma setProp_plain (k : string) (v : value) (m : obj) :
  k ≠ "__proto__" → setProp k v m = <[k := v]> m.
Proof. intros Hk. unfold setProp. by destruct (String.eqb_spec k "__proto__"). Qed.

Lemma filterStep_exact (k : string) (m : gmap string value) :
  k ∉ "__proto__" :: objectPrototype →
  exact (query !! k) = true →
  filterStep query m k = if truthy (query !! k) then setField k (query !! k) m else m.
Proof.
  intros Hk. unfold exact, filterStep, setField. rewrite (getProp_own _ _ Hk).
  destruct (query !! k) as [v|]; [|done].
  intros [[-> Ht%negb_true_iff]%andb_prop Hf%negb_true_iff]%andb_prop.
  rewrite Ht, Hf. apply setProp_plain. intros ->. apply Hk. by left.
Qed.

Lemma filterStep_flag (k : string) (m : gmap string value) :
  k ∉ "__proto__" :: objectPrototype →
  flag (query !! k) = true →
  filterStep query m k = match query !! k with
                         | Some v => <[k := VBool (is_str v "true")]> m
                         | None => m
                         end.
Proof.
  intros Hk. unfold flag, filterStep. rewrite (getProp_own _ _ Hk).
  assert (k ≠ "__proto__") as Hproto by (intros ->; apply Hk; by left).
  destruct (query !! k) as [v|]; [|done].
  destruct (is_str v "true") eqn:Ht; [intros _; by apply setProp_plain|].
  simpl. intros ->. by apply setProp_plain.
Qed.

Lemma search_step (fields : list string) (m : gmap string value) :
  match query !! "search" with
  | Some term =>
      if truthy (query !! "search")
      then <["$or" := VArr (map (λ field, VObj {[field := caseInsensitive term]}) fields)]> m
      else m
  | None => m
  end
  = buildSearchFilter (query !! "search") fields ∪ m.
Proof.
  unfold buildSearchFilter. destruct (query !! "search") as [term|].
  - destruct (truthy (Some term)).
    + by rewrite insert_union_singleton_l.
    + by rewrite (left_id_L ∅ _).
  - by rewrite (left_id_L ∅ _).
Qed.

Lemma no_search (fields : list string) (m : gmap string value) :
  truthy (query !! "search") = false →
  buildSearchFilter (query !! "search") fields ∪ m = m.
Proof.
  unfold buildSearchFilter. intros Hs. destruct (query !! "search") as [term|].
  - by rewrite Hs, (left_id_L ∅ _).
  - by rewrite (left_id_L ∅ _).
Qed.

Lemma reads_value (lo : Z) (hi : option Z) (v : value) :
  reads lo hi (Some v) = true →
  ∃ a, unprintable v = false ∧ toNumber v = Int a ∧ parseIntVal v = Int a ∧ lo ≤ a
       ∧ match hi with
         | Some h => a ≤ h
         | None => True
         end.
Proof.
  unfold reads. intros Hv.
  assert (unprintable v = false) as Hprint by (by destruct v).
  destruct (toNumber v) as [a| | | |]; [|done..].
  destruct (parseIntVal v) as [b| | | |]; [|done..].
  apply andb_prop in Hv as [[->%Z.eqb_eq Hlo%Z.leb_le]%andb_prop Hhi].
  exists b. split; [done|]. split; [done|]. split; [done|]. split; [done|].
  destruct hi; [by apply Z.leb_le | done].
Qed.

Lemma reads_page :
  reads 1 None (query !! "page") = true →
  let page := default (VNum 1) (query !! "page") in
  ∃ a x, unprintable page = false
         ∧ toNumber page = Int a
         ∧ parseIntVal page = Int a
         ∧ parseInt (query !! "page") = Ok x
         ∧ jsMax (Int 1) (jsOr x (Int 1)) = Int a.
Proof.
  intros Hpage. cbv zeta. destruct (query !! "page") as [v|].
  - destruct (reads_value _ _ _ Hpage) as (a & Hprint & Hn & Hi & Hlo & _).
    exists a, (Int a). cbn [default from_option id parseInt]. rewrite Hprint, Hi.
    split; [done|]. split; [done|]. split; [done|]. split; [done|].
    cbn. destruct (Z.eqb_spec a 0); [lia|]. cbn. by rewrite Z.max_r.
  - by exists 1, NaN.
Qed.

Lemma reads_limit :
  reads 1 (Some 100) (query !! "limit") = true →
  let limit := default (VNum 10) (query !! "limit") in
  ∃ a x, unprintable limit = false
         ∧ toNumber limit = Int a
         ∧ parseIntVal limit = Int a
         ∧ parseInt (query !! "limit") = Ok x
         ∧ jsMin (Int 100) (jsMax (Int 1) (jsOr x (Int 10))) = Int a.
Proof.
  intros Hlimit. cbv zeta. destruct (query !! "limit") as [v|].
  - destruct (reads_value _ _ _ Hlimit) as (a & Hprint & Hn & Hi & Hlo & Hhi).
    exists a, (Int a). cbn [default from_option id parseInt]. rewrite Hprint, Hi.
    split; [done|]. split; [done|]. split; [done|]. split; [done|].
    cbn. destruct (Z.eqb_spec a 0); [lia|]. cbn. by rewrite Z.max_r, Z.min_r by lia.
  - by exists 10, NaN.
Qed.

(** On a request in the window, the resolver returns what the handlers
    compute from the raw values. *)
Lemma windowed_window :
  windowed query = true →
  let page := default (VNum 1) (query !! "page") in
  let limit := default (VNum 10) (query !! "limit") in
  ∃ p, getPaginationParams query = Ok p
       ∧ skipOf page limit = Ok (skip p)
       ∧ parseIntVal page = DbUtils.page p
       ∧ parseIntVal limit = DbUtils.limit p
       ∧ toNumber limit = DbUtils.limit p.
Proof.
  unfold windowed. intros [Hpage Hlimit]%andb_prop. cbv zeta.
  destruct (reads_page Hpage) as (a & x & Hp1 & Hp2 & Hp3 & Hp4 & Hp5).
  destruct (reads_limit Hlimit) as (b & y & Hl1 & Hl2 & Hl3 & Hl4 & Hl5).
  cbv zeta in *.
  exists {| page := Int a; limit := Int b; skip := jsMul (jsSub (Int a) (Int 1)) (Int b) |}.
  split.
  { unfold getPaginationParams. rewrite Hp4, Hl4. cbn [mbind Result_bind].
    by rewrite Hp5, Hl5. }
  unfold skipOf. rewrite Hp1, Hl1, Hp2, Hl2. done.
Qed.

End FilterSteps.

Section ListAgreement.

Context `{External}.

Variable db : Db.
Variable query : gmap string value.
Hypothesis inWindow : windowed query = true.

(** The names the handlers filter on are names of parameters, not of
    members of [Object.prototype]. *)
Ltac plain_key := apply (bool_decide_unpack _); vm_compute; exact I.

Lemma listMembers_agrees :
  exact (query !! "role") = true →
  flag (query !! "isActive") = true →
  listMembers db query
  = listViaUtils (members db) ["role"; "isActive"] ["name"; "email"; "studentId"]
      "registrationDate" memberRows query.
Proof.
  intros Hrole Hactive.
  destruct (windowed_window query inWindow) as (p & Hp & Hskip & Hpage & Hlimit & Hl).
  unfold listMembers, listViaUtils, memberRows, buildFilter. cbv zeta in *. cbn [foldl].
  rewrite (filterStep_exact query "role" ∅ ltac:(plain_key) Hrole).
  rewrite (filterStep_flag query "isActive" _ ltac:(plain_key) Hactive).
  rewrite <- (search_step query ["name"; "email"; "studentId"]).
  rewrite Hp, Hskip, Hpage, Hlimit, Hl. reflexivity.
Qed.

Lemma listBooks_agrees :
  exact (query !! "category") = true →
  flag (query !! "available") = true →
  listBooks db query
  = listViaUtils (books db) ["category"; "available"] ["title"; "author"]
      "createdAt" bookRows query.
Proof.
  intros Hcategory Havailable.
  destruct (windowed_window query inWindow) as (p & Hp & Hskip & Hpage & Hlimit & Hl).
  unfold listBooks, listViaUtils, bookRows, buildFilter. cbv zeta in *. cbn [foldl].
  rewrite (filterStep_exact query "category" ∅ ltac:(plain_key) Hcategory).
  rewrite (filterStep_flag query "available" _ ltac:(plain_key) Havailable).
  rewrite <- (search_step query ["title"; "author"]).
  rewrite Hp, Hskip, Hpage, Hlimit, Hl. reflexivity.
Qed.

Lemma listLoans_agrees :
  flag (query !! "returned") = true →
  exact (query !! "userId") = true →
  exact (query !! "bookId") = true →
  flag (query !! "isOverdue") = true →
  truthy (query !! "search") = false →
  listLoans db query
  = listViaUtils (loans db) ["returned"; "userId"; "bookId"; "isOverdue"] []
      "borrowDate" (loanRows db) query.
Proof.
  intros Hreturned Huser Hbook Hoverdue Hsearch.
  destruct (windowed_window query inWindow) as (p & Hp & Hskip & Hpage & Hlimit & Hl).
  unfold listLoans, loanFilter, listViaUtils, loanRows, buildFilter.
  cbv zeta in *. cbn [foldl].
  rewrite (no_search query [] _ Hsearch).
  rewrite (filterStep_flag query "returned" ∅ ltac:(plain_key) Hreturned).
  rewrite (filterStep_exact query "userId" _ ltac:(plain_key) Huser).
  rewrite (filterStep_exact query "bookId" _ ltac:(plain_key) Hbook).
  rewrite (filterStep_flag query "isOverdue" _ ltac:(plain_key) Hoverdue).
  rewrite Hp, Hskip, Hpage, Hlimit, Hl. cbn [mbind Result_bind].
  destruct (runFind _ _ _ _ _) as [found|]; [|done]. cbn [mbind Result_bind].
  destruct (mapM _ found) as [rows|]; [|done]. reflexivity.
Qed.

End ListAgreement.

(** C3 (what the code does).  The list handlers do not apply the normalisation of the
    resolver.  On the recording store, with [limit=1000] GET /members,
    GET /books and GET /loans ask the store for 1000 documents and report
    the limit 1000, where the composition of the utilities asks for 100
    and reports 100; with [page=0] GET /members and GET /loans ask for the
    offset -10 and report page 0, where the utilities ask for the offset 0
    and report page 1.  So the handlers' answers are not those of the
    utilities. *)
Theorem handlers_skip_the_normalisation :
  let big : obj := {["limit" := VStr "1000"]} in
  let zero : obj := {["page" := VStr "0"]} in
  let membersViaUtils := @listViaUtils recorder [] ["role"; "isActive"]
                           ["name"; "email"; "studentId"] "registrationDate" memberRows in
  let booksViaUtils := @listViaUtils recorder [] ["category"; "available"]
                         ["title"; "author"] "createdAt" bookRows in
  let loansViaUtils := @listViaUtils recorder []
                         ["returned"; "userId"; "bookId"; "isOverdue"] []
                         "borrowDate" (@loanRows recorder emptyDb) in
  (map window [@listMembers recorder emptyDb big; @listBooks recorder emptyDb big;
               @listLoans recorder emptyDb big]
   = [Some (Int 1, Int 1000); Some (Int 1, Int 1000); Some (Int 1, Int 1000)]
   ∧ map window [membersViaUtils big; booksViaUtils big; loansViaUtils big]
     = [Some (Int 1, Int 100); Some (Int 1, Int 100); Some (Int 1, Int 100)])
  ∧ (recorded (@listMembers recorder emptyDb big) "limit" = Some (VNum 1000)
     ∧ recorded (@listLoans recorder emptyDb big) "limit" = Some (VNum 1000)
     ∧ recorded (membersViaUtils big) "limit" = Some (VNum 100)
     ∧ recorded (loansViaUtils big) "limit" = Some (VNum 100))
  ∧ (recorded (@listMembers recorder emptyDb zero) "skip" = Some (VNum (-10))
     ∧ recorded (@listLoans recorder emptyDb zero) "skip" = Some (VNum (-10))
     ∧ window (@listMembers recorder emptyDb zero) = Some (Int 0, Int 10)
     ∧ recorded (membersViaUtils zero) "skip" = Some (VNum 0)
     ∧ recorded (loansViaUtils zero) "skip" = Some (VNum 0)
     ∧ window (membersViaUtils zero) = Some (Int 1, Int 10))
  ∧ @listMembers recorder emptyDb big ≠ membersViaUtils big
  ∧ @listBooks recorder emptyDb big ≠ booksViaUtils big
  ∧ @listLoans recorder emptyDb big ≠ loansViaUtils big.
Proof.
  intros big zero membersViaUtils booksViaUtils loansViaUtils.
  repeat match goal with
         | |- _ ∧ _ => split
         | |- _ = _ => vm_compute; reflexivity
         end.
  all: intros Heq; apply (f_equal window) in Heq; vm_compute in Heq; discriminate.
Qed.

(** The handlers also coerce the filter parameters in their own way:
    [isActive=yes] is the filter [false] in the handler and the string
    ['yes'] in the builder; an empty [role] is dropped by the handler and
    kept by the builder; and GET /loans ignores a search term that the
    search builder turns into a predicate. *)
Example handlers_coerce_differently :
  let viaUtils := @listViaUtils recorder [] ["role"; "isActive"]
                    ["name"; "email"; "studentId"] "registrationDate" memberRows in
  let loansViaUtils := @listViaUtils recorder []
                         ["returned"; "userId"; "bookId"; "isOverdue"] []
                         "borrowDate" (@loanRows recorder emptyDb) in
  (recordedFilter (@listMembers recorder emptyDb {["isActive" := VStr "yes"]}) "isActive"
     = Some (VBool false)
   ∧ recordedFilter (viaUtils {["isActive" := VStr "yes"]}) "isActive"
     = Some (VStr "yes"))
  ∧ (recordedFilter (@listMembers recorder emptyDb {["role" := VStr ""]}) "role" = None
     ∧ recordedFilter (viaUtils {["role" := VStr ""]}) "role" = Some (VStr ""))
  ∧ (recordedFilter (@listLoans recorder emptyDb {["search" := VStr "ada"]}) "$or" = None
     ∧ recordedFilter (loansViaUtils {["search" := VStr "ada"]}) "$or" = Some (VArr [])).
Proof.
  intros viaUtils loansViaUtils.
  repeat match goal with
         | |- _ ∧ _ => split
         | |- _ = _ => vm_compute; reflexivity
         end.
Qed.

(** Where the handlers and the utilities agree.  On a request whose
    [page] is absent or read by both [Number] and [parseInt] as one
    integer that is at least 1, whose [limit] is absent or read as one
    integer between 1 and 100, whose boolean filter parameters are absent,
    ['true'] or ['false'], whose exact-match filter parameters are absent
    or truthy values other than ['true'] and ['false'], and, for
    GET /loans, which has no search term, each list handler answers what
    the composition of [buildFilter], [buildSearchFilter],
    [getPaginationParams] and [formatPaginationResponse] answers: the same
    filter, offset and limit reach the store and the same envelope comes
    back. *)
Lemma handlers_agree_in_the_window `{External} (db : Db) (query : gmap string value) :
  windowed query = true →
  (exact (query !! "role") = true →
   flag (query !! "isActive") = true →
   listMembers db query
   = listViaUtils (members db) ["role"; "isActive"] ["name"; "email"; "studentId"]
       "registrationDate" memberRows query)
  ∧ (exact (query !! "category") = true →
     flag (query !! "available") = true →
     listBooks db query
     = listViaUtils (books db) ["category"; "available"] ["title"; "author"]
         "createdAt" bookRows query)
  ∧ (flag (query !! "returned") = true →
     exact (query !! "userId") = true →
     exact (query !! "bookId") = true →
     flag (query !! "isOverdue") = true →
     truthy (query !! "search") = false →
     listLoans db query
     = listViaUtils (loans db) ["returned"; "userId"; "bookId"; "isOverdue"] []
         "borrowDate" (loanRows db) query).
Proof.
  intros Hwindow. split; [|split].
  - by apply listMembers_agrees.
  - by apply listBooks_agrees.
  - by apply listLoans_agrees.
Qed.

(** * Further properties of the routes and the utilities *)

(** ** Registration, then login *)

Section Accounts.

Context `{External}.

Lemma login_found (db : Db) (e pw : string) (x : N * obj) :
  e ≠ "" → pw ≠ "" →
  List.find (λ x, emailIs e (x.2 !! "email")) (members db) = Some x →
  bcryptCompare (VStr pw) (x.2 !! "password") = Ok true →
  login db (credentials e pw)
  = json 200 [("message", VStr "login successful");
              ("user", VObj (delete "password" (lean x.1 x.2)))].
Proof.
  intros He Hp Hfind Hcmp. unfold login, credentials. cbv zeta.
  rewrite lookup_insert_eq, lookup_insert_ne, lookup_singleton_eq by done.
  rewrite !text_truthy by done. cbn [negb orb default from_option id].
  rewrite findOne_email, Hfind. cbn [mbind Result_bind].
  assert (lean x.1 x.2 !! "password" = x.2 !! "password") as ->.
  { unfold lean. by rewrite lookup_insert_ne. }
  by rewrite Hcmp.
Qed.

End Accounts.

(** X1.  Registration and login compose.  When a registration (student
    or patron) whose email and password are strings is answered 201, a
    login with the same password and the same address in any letter case
    is answered 200 with the new member: its [_id] is the one the
    registration drew, its [email] the lower-cased address, and it carries
    no [password].  This holds for every store and every bcrypt whose
    [compare] accepts a password against the hash [hash] gave for it. *)
Theorem registered_member_can_log_in `{External}
    (db : Db) (r : Registration) (e pw e' : string) :
  (∀ p h, bcryptHash (VStr p) = Ok h → bcryptCompare (VStr p) (Some (VStr h)) = Ok true) →
  bodyOf r !! "email" = Some (VStr e) →
  bodyOf r !! "password" = Some (VStr pw) →
  status (submit db r).2 = 201 →
  toLowerCase e' = toLowerCase e →
  ∃ user,
    login (submit db r).1 (credentials e' pw)
    = json 200 [("message", VStr "login successful"); ("user", VObj user)]
    ∧ user !! "_id" = Some (oid (nextId db))
    ∧ user !! "email" = Some (VStr (toLowerCase e))
    ∧ user !! "password" = None.
Proof.
  intros Hbcrypt He Hp Hst Hlower.
  destruct (submit_created db r e He Hst)
    as (Hpresent & h & doc & Hnone & Hh & -> & Demail & He0 & Dpw).
  rewrite Hp in Hh. cbn [default from_option id] in Hh.
  assert (pw ≠ "") as Hp0.
  { apply truthy_text. rewrite <- Hp. unfold present in Hpresent.
    destruct r; cbn [bodyOf] in *;
      repeat match goal with
             | Hf : _ && _ = true |- _ => apply andb_prop in Hf as [Hf ?]
             end; done. }
  exists (delete "password" (lean (nextId db) (stamped doc))).
  split.
  - apply (login_found _ e' pw (nextId db, stamped doc)); [|done| |].
    + intros ->. apply He0. rewrite <- Hlower. by apply toLowerCase_ascii.
    + cbn [members withMembers bumped]. apply find_app_new.
      * rewrite <- Hnone. apply find_agree. intros x. by apply emailIs_lower.
      * cbn [snd]. rewrite stamped_lookup by done. rewrite Demail.
        unfold emailIs. rewrite Hlower. cbn. apply String.eqb_refl.
    + cbn [snd]. rewrite stamped_lookup by done. rewrite Dpw. by apply Hbcrypt.
  - split.
    { rewrite lookup_delete_ne by done. unfold lean. by rewrite lookup_insert_eq. }
    split; [|apply lookup_delete_eq].
    rewrite lookup_delete_ne by done. unfold lean. rewrite lookup_insert_ne by done.
    by rewrite stamped_lookup.
Qed.

Lemma registered_member_can_log_in_witness :
  let ada : Registration :=
    AsStudent (list_to_map [("name", VStr "Ada"); ("email", VStr "Ada@Example.com");
                            ("password", VStr "pw1"); ("studentId", VStr "S1")]) in
  ∃ user,
    @login stub (@submit stub emptyDb ada).1 (credentials "ADA@example.com" "pw1")
    = json 200 [("message", VStr "login successful"); ("user", VObj user)]
    ∧ user !! "_id" = Some (oid 1)
    ∧ user !! "email" = Some (VStr "ada@example.com")
    ∧ user !! "password" = None.
Proof.
  intros ada.
  apply (@registered_member_can_log_in stub emptyDb ada "Ada@Example.com" "pw1"
           "ADA@example.com"); try reflexivity.
  intros p h [= <-]. cbn. by rewrite String.eqb_refl.
Defined.

(** ** Who may log in, and which addresses are taken *)

Section Accounts2.

Context `{External}.

Lemma lean_lookup_ne (i : N) (d : obj) (k : string) :
  k ≠ "_id" → lean i d !! k = d !! k.
Proof. intros Hk. unfold lean. by rewrite lookup_insert_ne. Qed.

End Accounts2.

(** X2.  A login is answered 200 only for a stored member: the lookup by
    email returned that member, [bcrypt.compare] accepted the request's
    password against the member's stored [password], and the response is
    the success message with that member minus its [password]. *)
Theorem login_accepts_only_verified_members `{External} (db : Db) (reqBody : obj) :
  status (login db reqBody) = 200 →
  ∃ e,
    e ∈ members db
    ∧ findOne memberSchema (members db) "email" (default VNull (reqBody !! "email"))
      = Ok (Some e)
    ∧ bcryptCompare (default VNull (reqBody !! "password")) (e.2 !! "password") = Ok true
    ∧ login db reqBody
      = json 200 [("message", VStr "login successful");
                  ("user", VObj (delete "password" (lean e.1 e.2)))].
Proof.
  unfold login. cbv zeta. destruct (_ || _); [done|].
  destruct (findOne _ _ _ _) as [[e|]|] eqn:Hfind; cbn [mbind Result_bind]; [|done..].
  rewrite lean_lookup_ne by done.
  destruct (bcryptCompare _ _) as [[]|] eqn:Hcmp; cbn [mbind Result_bind negb]; [|done..].
  intros _. exists e. split; [|done].
  unfold findOne in Hfind. destruct (condition _ _ _) as [test|]; [|done].
  cbn [mbind Result_bind] in Hfind. injection Hfind as Hfind.
  apply find_some in Hfind as [Hin _]. by apply list_elem_of_In.
Qed.

Lemma login_accepts_only_verified_members_witness :
  ∃ e,
    e ∈ members sampleDb
    ∧ @findOne stub memberSchema (members sampleDb) "email" (VStr "Jane.Patron@example.com")
      = Ok (Some e)
    ∧ @bcryptCompare stub (VStr "password456") (e.2 !! "password") = Ok true
    ∧ @login stub sampleDb (credentials "Jane.Patron@example.com" "password456")
      = json 200 [("message", VStr "login successful");
                  ("user", VObj (delete "password" (lean e.1 e.2)))].
Proof.
  apply (@login_accepts_only_verified_members stub sampleDb
           (credentials "Jane.Patron@example.com" "password456")).
  reflexivity.
Defined.

(** X3.  A registration that passes the presence check of its route
    ([name], [email] and [password] truthy, and [studentId] for a
    student) and whose address is a string is answered 400 "Email already
    registered" and leaves the store as it was whenever some stored member
    holds the lower-cased form of that address, whatever else the request
    and the store hold. *)
Theorem registration_refused_for_a_taken_email `{External}
    (db : Db) (r : Registration) (e : string) (x : N * obj) :
  present r = true →
  bodyOf r !! "email" = Some (VStr e) →
  x ∈ members db →
  x.2 !! "email" = Some (VStr (toLowerCase e)) →
  submit db r = (db, json 400 [("error", VStr "Email already registered")]).
Proof.
  intros Hpresent He Hin Hx.
  destruct (find_is_Some (λ x, emailIs e (x.2 !! "email")) (members db) x Hin) as [y Hy].
  { unfold emailIs. rewrite Hx. cbn. apply String.eqb_refl. }
  by apply (submit_taken db r e y).
Qed.

Lemma registration_refused_for_a_taken_email_witness :
  @submit stub sampleDb
    (AsPatron (list_to_map [("name", VStr "Impostor"); ("email", VStr "JANE.PATRON@example.com");
                            ("password", VStr "pw")]))
  = (sampleDb, json 400 [("error", VStr "Email already registered")]).
Proof.
  apply (@registration_refused_for_a_taken_email stub sampleDb _ "JANE.PATRON@example.com"
           (1%N, jane)); try reflexivity.
  apply list_elem_of_here.
Defined.

(** ** POST /members *)

Section CreateMember.

Context `{External}.

Lemma castField_Throw (src acc : obj) (kp : string * SchemaPath) (e : Error) :
  castField src (Ok acc) kp = Throw e → e = ValidationError kp.1.
Proof.
  unfold castField. cbn [mbind Result_bind].
  destruct (src !! kp.1) as [v|].
  - destruct (castPath kp.2 v); [done | by intros [= <-]].
  - by destruct (dflt kp.2).
Qed.

Lemma foldl_castField_error (src : obj) (sch : Schema) (acc : obj) (e : Error) :
  foldl (castField src) (Ok acc) sch = Throw e → ∃ k, e = ValidationError k.
Proof.
  revert acc. induction sch as [|kp sch IH]; intros acc; cbn [foldl]; [done|].
  destruct (castField src (Ok acc) kp) as [acc'|e'] eqn:Hc.
  - apply IH.
  - rewrite foldl_castField_Throw. intros [= <-].
    exists kp.1. by apply (castField_Throw src acc).
Qed.

(** [new Model(src)] fails with a validation error only. *)
Lemma construct_error (sch : Schema) (src : obj) (e : Error) :
  construct sch src = Throw e → ∃ k, e = ValidationError k.
Proof. apply foldl_castField_error. Qed.

Lemma newDocumentId_error (db : Db) (src : obj) (e : Error) :
  newDocumentId db src = Throw e → e = ValidationError "_id".
Proof.
  unfold newDocumentId. destruct (src !! "_id") as [v|]; [|done].
  destruct (castObjectId v); [done | by intros [= <-]].
Qed.

Lemma insertDoc_invalid (sch : Schema) (coll : collection) (i : N) (doc : obj)
    (kp : string * SchemaPath) :
  kp ∈ sch → invalid doc kp = true →
  ∃ k, insertDoc sch coll i doc = Throw (ValidationError k).
Proof.
  intros Hin Hbad. unfold insertDoc.
  destruct (validate_invalid sch doc kp Hin Hbad) as [k ->]. by exists k.
Qed.

(** What POST /members did when it answers 201. *)
Lemma createMember_created (db : Db) (reqBody : obj) :
  status (createMember db reqBody).2 = 201 →
  ∃ i doc,
    construct memberSchema reqBody = Ok doc
    ∧ insertDoc memberSchema (members db) i doc = Ok (members db ++ [(i, stamped doc)])
    ∧ createMember db reqBody
      = (withMembers (members db ++ [(i, stamped doc)]) (bumped db),
         json 201 [("message", VStr "Member created"); ("_id", oid i)]).
Proof.
  unfold createMember.
  destruct (construct memberSchema reqBody) as [doc|]; cbn [mbind Result_bind]; [|done].
  destruct (newDocumentId db reqBody) as [i|]; cbn [mbind Result_bind]; [|done].
  destruct (insertDoc _ _ _ _) as [coll'|] eqn:Hins; cbn [mbind Result_bind]; [|done].
  intros _. pose proof (insertDoc_Ok _ _ _ _ _ Hins) as ->. by exists i, doc.
Qed.

Lemma createMember_refused (db : Db) (reqBody : obj) (kp : string * SchemaPath) :
  kp ∈ memberSchema →
  (∀ doc, construct memberSchema reqBody = Ok doc → invalid doc kp = true) →
  ∃ k, createMember db reqBody
       = (db, json 400 [("error", VStr (message (ValidationError k)))]).
Proof.
  intros Hin Hbad. unfold createMember.
  destruct (construct memberSchema reqBody) as [doc|e] eqn:Hdoc; cbn [mbind Result_bind].
  - destruct (newDocumentId db reqBody) as [i|e] eqn:Hid; cbn [mbind Result_bind].
    + destruct (insertDoc_invalid memberSchema (members db) i doc kp Hin (Hbad doc eq_refl))
        as [k ->].
      by exists k.
    + apply newDocumentId_error in Hid as ->. by eexists.
  - apply construct_error in Hdoc as [k ->]. by exists k.
Qed.

Lemma missing_blank (p : SchemaPath) (v : option value) (k : string) (src : obj) :
  ty p = TString → dflt p = NoDefault →
  src !! k = v → missing v = true →
  blank p (built src k p) = true.
Proof.
  intros Hty Hd Hv Hm. unfold built. rewrite Hv.
  destruct v as [[| | |s| | |]|]; try done.
  - unfold castPath, castValue. rewrite Hty. cbn.
    apply String.eqb_eq in Hm as ->. unfold blank. rewrite Hty.
    destruct (lowercase p); by rewrite ?toLowerCase_nil.
  - by rewrite Hd.
Qed.

End CreateMember.

(** X4.  POST /members stores the password as it is sent: the route hands
    the body to [new Member] without hashing.  When the route answers 201
    for a body whose [password] is a string, one member has been appended,
    its [password] is that string, its [role] is the one the body names,
    and the response holds the message and the [_id] only. *)
Theorem createMember_stores_the_password_as_sent `{External}
    (db : Db) (reqBody : obj) (pw : string) :
  reqBody !! "password" = Some (VStr pw) →
  status (createMember db reqBody).2 = 201 →
  ∃ i d,
    createMember db reqBody
    = (withMembers (members db ++ [(i, d)]) (bumped db),
       json 201 [("message", VStr "Member created"); ("_id", oid i)])
    ∧ d !! "password" = Some (VStr pw)
    ∧ ∀ role, reqBody !! "role" = Some (VStr role) → d !! "role" = Some (VStr role).
Proof.
  intros Hpw Hst.
  destruct (createMember_created db reqBody Hst) as (i & doc & Hdoc & _ & ->).
  exists i, (stamped doc). split; [done|]. rewrite !stamped_lookup by done. split.
  - rewrite (construct_path memberSchema _ doc "password" _ memberSchema_NoDup Hdoc eq_refl).
    unfold built. by rewrite Hpw.
  - intros role Hrole.
    rewrite (construct_path memberSchema _ doc "role" _ memberSchema_NoDup Hdoc eq_refl).
    unfold built. by rewrite Hrole.
Qed.

Lemma createMember_stores_the_password_as_sent_witness :
  let body : obj :=
    list_to_map [("name", VStr "Eve"); ("email", VStr "eve@example.com");
                 ("password", VStr "plain"); ("role", VStr "admin")] in
  ∃ i d,
    @createMember stub sampleDb body
    = (withMembers (members sampleDb ++ [(i, d)]) (bumped sampleDb),
       json 201 [("message", VStr "Member created"); ("_id", oid i)])
    ∧ d !! "password" = Some (VStr "plain")
    ∧ ∀ role, body !! "role" = Some (VStr role) → d !! "role" = Some (VStr role).
Proof.
  intros body.
  apply (@createMember_stores_the_password_as_sent stub sampleDb body "plain");
    reflexivity.
Defined.

(** X5.  POST /members answers 400 with the message of a validation
    error and leaves the store as it was when the body leaves out [name],
    [email] or [password] (or gives it as [null] or as the empty string),
    or names a [role] outside [student], [patron], [admin]. *)
Theorem createMember_validates `{External} (db : Db) (reqBody : obj) :
  missing (reqBody !! "name") = true
  ∨ missing (reqBody !! "email") = true
  ∨ missing (reqBody !! "password") = true
  ∨ (∃ role, reqBody !! "role" = Some (VStr role)
             ∧ role ∉ ["student"; "patron"; "admin"]) →
  ∃ k, createMember db reqBody
       = (db, json 400 [("error", VStr (message (ValidationError k)))]).
Proof.
  intros [Hm|[Hm|[Hm|(role & Hrole & Hout)]]].
  - apply (createMember_refused db reqBody ("name", withRequired (path TString)));
      [by apply schemaPath_elem|].
    intros doc Hdoc. unfold invalid. cbn [fst snd].
    rewrite (construct_path memberSchema _ doc "name" _ memberSchema_NoDup Hdoc eq_refl).
    by rewrite (missing_blank _ (reqBody !! "name")).
  - apply (createMember_refused db reqBody
             ("email", withLowercase (withUnique (withRequired (path TString)))));
      [by apply schemaPath_elem|].
    intros doc Hdoc. unfold invalid. cbn [fst snd].
    rewrite (construct_path memberSchema _ doc "email" _ memberSchema_NoDup Hdoc eq_refl).
    by rewrite (missing_blank _ (reqBody !! "email")).
  - apply (createMember_refused db reqBody ("password", withRequired (path TString)));
      [by apply schemaPath_elem|].
    intros doc Hdoc. unfold invalid. cbn [fst snd].
    rewrite (construct_path memberSchema _ doc "password" _ memberSchema_NoDup Hdoc eq_refl).
    by rewrite (missing_blank _ (reqBody !! "password")).
  - apply (createMember_refused db reqBody
             ("role", withDefault (Const (VStr "student"))
                        (withEnum ["student"; "patron"; "admin"] (path TString))));
      [by apply schemaPath_elem|].
    intros doc Hdoc. unfold invalid. cbn [fst snd].
    rewrite (construct_path memberSchema _ doc "role" _ memberSchema_NoDup Hdoc eq_refl).
    unfold built. rewrite Hrole. cbn. by rewrite bool_decide_eq_false_2.
Qed.

Lemma createMember_validates_witness :
  ∃ k, @createMember stub sampleDb
         (list_to_map [("name", VStr "Eve"); ("email", VStr "eve@example.com");
                       ("password", VStr "")])
       = (sampleDb, json 400 [("error", VStr (@message stub (ValidationError k)))]).
Proof.
  apply (@createMember_validates stub sampleDb). right. right. left. reflexivity.
Defined.

(** ** The member collection under the writing routes *)

Section Stores.

Context `{External}.

Lemma replaceFirst_ids (i : N) (d : obj) (coll : collection) :
  (replaceFirst i d coll).*1 = coll.*1.
Proof.
  induction coll as [|[j d0] coll IH]; cbn; [done|].
  destruct (N.eqb_spec j i) as [->|Hne]; cbn; [done | by rewrite IH].
Qed.

Lemma removeFirst_sublist (i : N) (coll : collection) :
  sublist (removeFirst i coll) coll.
Proof.
  induction coll as [|[j d0] coll IH]; cbn; [done|].
  destruct (j =? i)%N; [by apply sublist_cons | by apply sublist_skip].
Qed.

Lemma removeFirst_ids (i : N) (coll : collection) :
  NoDup coll.*1 → NoDup (removeFirst i coll).*1.
Proof.
  intros Hnd. apply (sublist_NoDup _ coll.*1); [done|].
  apply fmap_sublist, removeFirst_sublist.
Qed.

Lemma existsb_id (coll : collection) (i : N) :
  existsb (λ e, (e.1 =? i)%N) coll = false → i ∉ coll.*1.
Proof.
  induction coll as [|[j d0] coll IH]; cbn; [set_solver|].
  destruct (N.eqb_spec j i) as [->|Hne]; cbn; [done|].
  intros Hex Hin. apply elem_of_cons in Hin as [->|Hin]; [done | by apply IH].
Qed.

Lemma insertDoc_fresh (sch : Schema) (coll coll' : collection) (i : N) (doc : obj) :
  insertDoc sch coll i doc = Ok coll' →
  (i ∉ coll.*1) ∧ duplicateOf sch coll doc = None ∧ coll' = coll ++ [(i, stamped doc)].
Proof.
  unfold insertDoc. destruct (validate sch doc) as [doc'|] eqn:Hv; [|done].
  apply validate_Ok in Hv as ->. cbn [mbind Result_bind].
  destruct (existsb _ coll) eqn:Hex; [done|].
  destruct (duplicateOf _ _ _); [done|]. intros [= <-].
  split; [by apply existsb_id | done].
Qed.

Lemma insertDoc_ids (sch : Schema) (coll coll' : collection) (i : N) (doc : obj) :
  insertDoc sch coll i doc = Ok coll' → NoDup coll.*1 → NoDup coll'.*1.
Proof.
  intros (Hi & _ & ->)%insertDoc_fresh Hnd.
  rewrite fmap_app. apply NoDup_app. split; [done|]. split.
  - intros j Hj [->|[]%elem_of_nil]%elem_of_cons. done.
  - cbn. apply NoDup_singleton.
Qed.

(** The member collection after a registration: as it was, or with one
    document inserted. *)
Lemma register_members (db : Db) (email password : option value) (src : obj)
    (welcome : string) :
  members (register db email password src welcome).1 = members db
  ∨ ∃ i doc, insertDoc memberSchema (members db) i doc
             = Ok (members (register db email password src welcome).1).
Proof.
  unfold register.
  destruct (findOne _ _ _ _) as [[x|]|]; cbn [mbind Result_bind]; [by left| |by left].
  destruct (bcryptHash _) as [h|]; cbn [mbind Result_bind]; [|by left].
  destruct (construct _ _) as [doc|]; cbn [mbind Result_bind]; [|by left].
  destruct (insertDoc _ _ _ _) as [coll'|] eqn:Hins; cbn [mbind Result_bind]; [|by left].
  right. by exists (nextId db), doc.
Qed.

Lemma submit_members (db : Db) (r : Registration) :
  members (submit db r).1 = members db
  ∨ ∃ i doc, insertDoc memberSchema (members db) i doc = Ok (members (submit db r).1).
Proof.
  destruct r as [b|b]; cbn [submit]; [unfold registerStudent | unfold registerPatron];
    cbv zeta; (destruct (_ || _); [by left | apply register_members]).
Qed.

Lemma createMember_members (db : Db) (reqBody : obj) :
  members (createMember db reqBody).1 = members db
  ∨ ∃ i doc, insertDoc memberSchema (members db) i doc
             = Ok (members (createMember db reqBody).1).
Proof.
  unfold createMember.
  destruct (construct _ _) as [doc|]; cbn [mbind Result_bind]; [|by left].
  destruct (newDocumentId _ _) as [i|]; cbn [mbind Result_bind]; [|by left].
  destruct (insertDoc _ _ _ _) as [coll'|] eqn:Hins; cbn [mbind Result_bind]; [|by left].
  right. by exists i, doc.
Qed.

(** The collection after [findByIdAndUpdate]: the same identifiers in the
    same order, and the same document under every other identifier. *)
Lemma findByIdAndUpdate_frame (sch : Schema) (coll coll' : collection) (id : string)
    (upd : obj) (found : option (N * obj)) :
  findByIdAndUpdate sch coll (VStr id) upd = Ok (coll', found) →
  coll'.*1 = coll.*1
  ∧ ∀ j, castObjectId (VStr id) ≠ Some j → lookupId coll' j = lookupId coll j.
Proof.
  intros [(i & _ & _ & -> & _)|(i & u & d & d' & Hid & _ & _ & _ & -> & _)]%findByIdAndUpdate_cases.
  - done.
  - split; [apply replaceFirst_ids|].
    intros j Hj. apply lookupId_replaceFirst_ne. congruence.
Qed.

Lemma updateMember_frame (db : Db) (id : string) (reqBody : obj) :
  (members (updateMember db id reqBody).1).*1 = (members db).*1
  ∧ ∀ j, castObjectId (VStr id) ≠ Some j →
         lookupId (members (updateMember db id reqBody).1) j = lookupId (members db) j.
Proof.
  unfold updateMember. cbv zeta.
  destruct (findByIdAndUpdate _ _ _ _) as [[coll' [e|]]|] eqn:Hf; cbn [fst]; [|done..].
  by apply findByIdAndUpdate_frame in Hf.
Qed.

Lemma updateProfile_frame (db : Db) (id : string) (updateData : obj)
    (role notFound wrongRole done : string) :
  let r := updateProfile db id updateData role notFound wrongRole done in
  (members r.1).*1 = (members db).*1
  ∧ ∀ j, castObjectId (VStr id) ≠ Some j → lookupId (members r.1) j = lookupId (members db) j.
Proof.
  unfold updateProfile. cbv zeta.
  destruct (findByIdAndUpdate _ _ _ _) as [[coll' [e|]]|] eqn:Hf; cbn [fst]; [|done..].
  apply findByIdAndUpdate_frame in Hf. by destruct (differs _ _).
Qed.

Lemma deleteMember_members (db : Db) (id : string) :
  members (deleteMember db id).1 = members db
  ∨ ∃ i, castObjectId (VStr id) = Some i
         ∧ is_Some (lookupId (members db) i)
         ∧ status (deleteMember db id).2 = 200
         ∧ members (deleteMember db id).1 = removeFirst i (members db).
Proof.
  unfold deleteMember, findByIdAndDelete, findById.
  destruct (castObjectId (VStr id)) as [i|]; cbn [mbind Result_bind]; [|by left].
  destruct (List.find _ _) as [e|] eqn:Hfind; cbn [fst]; [|by left].
  right. exists i. apply lookupId_find in Hfind as [-> Hl].
  split; [done|]. split; [by eexists | done].
Qed.

Lemma deleteMember_done (db : Db) (id : string) :
  status (deleteMember db id).2 = 200 →
  ∃ i, castObjectId (VStr id) = Some i
       ∧ is_Some (lookupId (members db) i)
       ∧ members (deleteMember db id).1 = removeFirst i (members db).
Proof.
  unfold deleteMember, findByIdAndDelete, findById.
  destruct (castObjectId (VStr id)) as [i|]; cbn [mbind Result_bind]; [|done].
  destruct (List.find _ _) as [e|] eqn:Hfind; cbn [fst snd]; [|done].
  intros _. exists i. apply lookupId_find in Hfind as [-> Hl].
  split; [done|]. split; [by eexists | done].
Qed.

Lemma stepMember_ids (db : Db) (op : MemberOp) :
  NoDup (members db).*1 → NoDup (members (stepMember db op)).*1.
Proof.
  intros Hnd. destruct op as [r|b|id b|id b|id b|id]; cbn [stepMember].
  - destruct (submit_members db r) as [->|(i & doc & Hins)]; [done|].
    by apply (insertDoc_ids _ _ _ _ _ Hins).
  - destruct (createMember_members db b) as [->|(i & doc & Hins)]; [done|].
    by apply (insertDoc_ids _ _ _ _ _ Hins).
  - by rewrite (proj1 (updateMember_frame db id b)).
  - unfold updateStudent. cbv zeta. by rewrite (proj1 (updateProfile_frame _ _ _ _ _ _ _)).
  - unfold updatePatron. cbv zeta. by rewrite (proj1 (updateProfile_frame _ _ _ _ _ _ _)).
  - destruct (deleteMember_members db id) as [->|(i & _ & _ & _ & ->)]; [done|].
    by apply removeFirst_ids.
Qed.

Lemma lookupId_None (coll : collection) (i : N) :
  lookupId coll i = None ↔ i ∉ coll.*1.
Proof.
  unfold lookupId. induction coll as [|[j d0] coll IH]; cbn; [set_solver|].
  destruct (N.eqb_spec j i) as [->|Hne]; cbn.
  - split; [done|]. intros Hout. destruct Hout. by left.
  - rewrite IH. set_solver.
Qed.

Lemma removeFirst_gone (coll : collection) (i : N) :
  NoDup coll.*1 → lookupId (removeFirst i coll) i = None.
Proof.
  intros Hnd. induction coll as [|[j d0] coll IH]; cbn; [done|].
  apply NoDup_cons in Hnd as [Hj Hnd]. cbn in Hj.
  destruct (N.eqb_spec j i) as [->|Hne]; cbn.
  - by apply lookupId_None.
  - unfold lookupId. cbn. destruct (N.eqb_spec j i); [done|]. by apply IH.
Qed.

Lemma removeFirst_length (coll : collection) (i : N) :
  is_Some (lookupId coll i) → S (length (removeFirst i coll)) = length coll.
Proof.
  unfold lookupId. induction coll as [|[j d0] coll IH]; cbn; [by intros [? ?]|].
  destruct (N.eqb_spec j i) as [->|Hne]; cbn; [done|].
  intros Hs. by rewrite IH.
Qed.

Lemma getMember_absent (db : Db) (id : string) (i : N) :
  castObjectId (VStr id) = Some i →
  lookupId (members db) i = None →
  getMember db id = json 404 [("error", VStr "Member not found")].
Proof.
  intros Hid Hnone. unfold getMember, findById. rewrite Hid.
  unfold lookupId in Hnone. by destruct (List.find _ _).
Qed.

End Stores.

(** X7.  Stored members keep distinct identifiers: if no two members of
    the store share an [_id], no two do after any sequence of
    registrations, POST /members, the three PUT routes and DELETE. *)
Theorem member_ids_stay_distinct `{External} (db : Db) (ops : list MemberOp) :
  NoDup (members db).*1 → NoDup (members (runMembers db ops)).*1.
Proof.
  unfold runMembers. revert db. induction ops as [|op ops IH]; intros db Hnd; cbn [foldl].
  - done.
  - by apply IH, stepMember_ids.
Qed.

Lemma member_ids_stay_distinct_witness :
  NoDup (members (@runMembers stub sampleDb
    [PostMember (list_to_map [("name", VStr "Eve"); ("email", VStr "eve@example.com");
                              ("password", VStr "plain"); ("_id", VStr id1)]);
     PostMember (list_to_map [("name", VStr "Eve"); ("email", VStr "eve@example.com");
                              ("password", VStr "plain")]);
     PutMember id2 {["name" := VStr "J. Student"]};
     DeleteMember id1])).*1
  ∧ (members (@runMembers stub sampleDb
    [PostMember (list_to_map [("name", VStr "Eve"); ("email", VStr "eve@example.com");
                              ("password", VStr "plain"); ("_id", VStr id1)]);
     PostMember (list_to_map [("name", VStr "Eve"); ("email", VStr "eve@example.com");
                              ("password", VStr "plain")]);
     PutMember id2 {["name" := VStr "J. Student"]};
     DeleteMember id1])).*1 = [2%N; 4%N].
Proof.
  split; [|reflexivity].
  apply (@member_ids_stay_distinct stub sampleDb).
  apply (bool_decide_unpack _). vm_compute. exact I.
Defined.

(** X8.  A deleted member is gone.  In a store whose members have
    distinct identifiers, after DELETE /members/:id is answered 200 a
    GET /members/:id for the same id is answered 404, the collection has
    one member less, and every other member is as it was. *)
Theorem deleted_member_is_gone `{External} (db : Db) (id : string) :
  NoDup (members db).*1 →
  status (deleteMember db id).2 = 200 →
  let db' := (deleteMember db id).1 in
  getMember db' id = json 404 [("error", VStr "Member not found")]
  ∧ S (length (members db')) = length (members db)
  ∧ ∀ j, castObjectId (VStr id) ≠ Some j → lookupId (members db') j = lookupId (members db) j.
Proof.
  intros Hnd Hst db'. subst db'.
  destruct (deleteMember_done db id Hst) as (i & Hid & Hsome & Hrem).
  rewrite Hrem. split; [|split].
  - apply (getMember_absent _ id i Hid). rewrite Hrem. by apply removeFirst_gone.
  - by apply removeFirst_length.
  - intros j Hj. apply lookupId_removeFirst_ne. congruence.
Qed.

Lemma deleted_member_is_gone_witness :
  @getMember stub (@deleteMember stub sampleDb id1).1 id1
  = json 404 [("error", VStr "Member not found")]
  ∧ S (length (members (@deleteMember stub sampleDb id1).1)) = length (members sampleDb)
  ∧ status (@getMember stub sampleDb id1) = 200.
Proof.
  destruct (@deleted_member_is_gone stub sampleDb id1) as (Hget & Hlen & _).
  - apply (bool_decide_unpack _). vm_compute. exact I.
  - reflexivity.
  - split; [exact Hget|]. split; [exact Hlen | reflexivity].
Defined.

(** X10.  The three PUT routes of the members change at most the member
    they address: the identifiers in the collection and their order are
    the same afterwards, and so is the document under every identifier
    other than the one in the URL (no document is inserted, none is
    removed). *)
Theorem member_updates_touch_one_document `{External}
    (db : Db) (id : string) (reqBody : obj) :
  Forall (λ db', (members db').*1 = (members db).*1
                 ∧ ∀ j, castObjectId (VStr id) ≠ Some j →
                        lookupId (members db') j = lookupId (members db) j)
    [(updateMember db id reqBody).1; (updateStudent db id reqBody).1;
     (updatePatron db id reqBody).1].
Proof.
  repeat apply Forall_cons_2; [| | |apply Forall_nil_2].
  - apply updateMember_frame.
  - unfold updateStudent. cbv zeta. apply updateProfile_frame.
  - unfold updatePatron. cbv zeta. apply updateProfile_frame.
Qed.

(** ** Distinct addresses *)

Section DistinctEmails.

Context `{External}.

Lemma sameKey_sym (a b : value) : sameKey a b = sameKey b a.
Proof.
  destruct a, b; cbn; try done.
  - by destruct b, b0.
  - apply Z.eqb_sym.
  - apply String.eqb_sym.
Qed.

Lemma clashes_sym (k : string) (a b : obj) : clashes k a b = clashes k b a.
Proof.
  unfold clashes. destruct (a !! k), (b !! k); try done. apply sameKey_sym.
Qed.

Lemma distinctOn_app (k : string) (coll : collection) (x : N * obj) :
  distinctOn k (coll ++ [x])
  = distinctOn k coll && forallb (λ y, negb (clashes k y.2 x.2)) coll.
Proof.
  induction coll as [|y coll IH]; cbn [distinctOn app forallb]; [done|].
  rewrite IH, forallb_app. cbn [forallb].
  destruct (forallb _ coll), (distinctOn k coll), (clashes k y.2 x.2); cbn;
    try done; by destruct (forallb _ coll).
Qed.

Lemma forallb_sublist {A : Type} (f : A → bool) (l1 l2 : list A) :
  sublist l1 l2 → forallb f l2 = true → forallb f l1 = true.
Proof.
  induction 1 as [|x l1 l2 _ IH|x l1 l2 _ IH]; cbn; [done| |].
  - intros [-> ?]%andb_prop. by apply IH.
  - intros [_ ?]%andb_prop. by apply IH.
Qed.

Lemma distinctOn_sublist (k : string) (l1 l2 : collection) :
  sublist l1 l2 → distinctOn k l2 = true → distinctOn k l1 = true.
Proof.
  induction 1 as [|x l1 l2 Hsub IH|x l1 l2 Hsub IH]; cbn [distinctOn]; [done| |].
  - intros [Hx ?]%andb_prop. rewrite IH by done.
    by rewrite (forallb_sublist _ _ _ Hsub Hx).
  - intros [_ ?]%andb_prop. by apply IH.
Qed.

(** The unique index on [email] refuses a document whose address another
    document holds. *)
Lemma duplicateOf_email (coll : collection) (doc : obj) :
  duplicateOf memberSchema coll doc = None →
  existsb (λ e, clashes "email" doc e.2) coll = false.
Proof.
  unfold duplicateOf, memberSchema. cbn.
  by destruct (existsb _ coll).
Qed.

Lemma stamped_clashes (k : string) (doc other : obj) :
  k ≠ "__v" → k ≠ "updatedAt" → k ≠ "createdAt" →
  clashes k other (stamped doc) = clashes k other doc.
Proof. intros. unfold clashes. by rewrite stamped_lookup. Qed.

Lemma insertDoc_emails (coll coll' : collection) (i : N) (doc : obj) :
  insertDoc memberSchema coll i doc = Ok coll' →
  distinctOn "email" coll = true → distinctOn "email" coll' = true.
Proof.
  intros (_ & Hdup%duplicateOf_email & ->)%insertDoc_fresh Hd.
  rewrite distinctOn_app, Hd. cbn [andb snd].
  apply forallb_forall. intros y Hy. rewrite stamped_clashes by done.
  rewrite clashes_sym. apply negb_true_iff.
  destruct (clashes "email" doc y.2) eqn:Hc; [|done].
  assert (existsb (λ e, clashes "email" doc e.2) coll = true) as Hex; [|congruence].
  apply existsb_exists. by exists y.
Qed.

End DistinctEmails.

(** X9.  No two members share an email: if the stored addresses are
    pairwise distinct, they still are after a registration, after
    POST /members and after DELETE /members/:id, whatever the request. *)
Theorem member_emails_stay_distinct `{External} (db : Db) :
  distinctOn "email" (members db) = true →
  (∀ r, distinctOn "email" (members (submit db r).1) = true)
  ∧ (∀ reqBody, distinctOn "email" (members (createMember db reqBody).1) = true)
  ∧ (∀ id, distinctOn "email" (members (deleteMember db id).1) = true).
Proof.
  intros Hd. split; [|split].
  - intros r. destruct (submit_members db r) as [->|(i & doc & Hins)]; [done|].
    by apply (insertDoc_emails _ _ _ _ Hins).
  - intros b. destruct (createMember_members db b) as [->|(i & doc & Hins)]; [done|].
    by apply (insertDoc_emails _ _ _ _ Hins).
  - intros id. destruct (deleteMember_members db id) as [->|(i & _ & _ & _ & ->)]; [done|].
    apply (distinctOn_sublist _ _ (members db)); [apply removeFirst_sublist | done].
Qed.

Lemma member_emails_stay_distinct_witness :
  distinctOn "email" (members sampleDb) = true
  ∧ distinctOn "email" (members (@createMember stub sampleDb
      (list_to_map [("name", VStr "J"); ("email", VStr "JANE.patron@example.com");
                    ("password", VStr "x")])).1) = true
  ∧ distinctOn "email" (members (@createMember stub sampleDb
      (list_to_map [("name", VStr "Eve"); ("email", VStr "eve@example.com");
                    ("password", VStr "x")])).1) = true
  ∧ length (members (@createMember stub sampleDb
      (list_to_map [("name", VStr "Eve"); ("email", VStr "eve@example.com");
                    ("password", VStr "x")])).1) = 3%nat.
Proof.
  destruct (@member_emails_stay_distinct stub sampleDb) as (_ & Hc & _); [reflexivity|].
  split; [reflexivity|]. split; [apply Hc|]. split; [apply Hc | reflexivity].
Defined.

(** ** Updates are not validated *)

Section Unvalidated.

Context `{External}.

Lemma castUpdate_role (s : string) :
  castUpdate memberSchema {["role" := VStr s]}
  = Ok {| sets := <["updatedAt" := now]> {["role" := VStr s]};
          unsets := ∅; others := ∅; newId := None |}.
Proof. vm_compute. reflexivity. Qed.

Lemma castUpdate_blank_name :
  castUpdate memberSchema {["name" := VStr ""]}
  = Ok {| sets := <["updatedAt" := now]> {["name" := VStr ""]};
          unsets := ∅; others := ∅; newId := None |}.
Proof. apply castUpdate_name. Qed.

Lemma updateMember_assigns (db : Db) (id : string) (i : N) (d : obj) (k : string) (v : value) :
  castObjectId (VStr id) = Some i →
  lookupId (members db) i = Some d →
  k ≠ "password" →
  castUpdate memberSchema {[k := v]}
  = Ok {| sets := <["updatedAt" := now]> {[k := v]};
          unsets := ∅; others := ∅; newId := None |} →
  let r := updateMember db id {[k := v]} in
  status r.2 = 200
  ∧ lookupId (members r.1) i = Some (<["updatedAt" := now]> (<[k := v]> d)).
Proof.
  intros Hid Hd Hk Hu. unfold updateMember.
  rewrite delete_singleton_ne by done.
  rewrite (findByIdAndUpdate_sets _ _ _ _ _ _ _ Hid Hd Hu).
  cbn [fst snd status json members withMembers].
  by rewrite (lookupId_replaceFirst _ _ _ _ Hd), assignments_to_document.
Qed.

End Unvalidated.

(** X6.  PUT /members/:id casts the update and does not validate it: on
    an existing member, a body that assigns any string to [role] (in the
    enum or not), or the empty string to the required [name], is answered
    200 and the value is written. *)
Theorem updateMember_skips_validation `{External}
    (db : Db) (id : string) (i : N) (d : obj) (role : string) :
  castObjectId (VStr id) = Some i →
  lookupId (members db) i = Some d →
  (let r := updateMember db id {["role" := VStr role]} in
   status r.2 = 200
   ∧ lookupId (members r.1) i = Some (<["updatedAt" := now]> (<["role" := VStr role]> d)))
  ∧ (let r := updateMember db id {["name" := VStr ""]} in
     status r.2 = 200
     ∧ lookupId (members r.1) i = Some (<["updatedAt" := now]> (<["name" := VStr ""]> d))).
Proof.
  intros Hid Hd. split.
  - apply updateMember_assigns; [done..|apply castUpdate_role].
  - apply updateMember_assigns; [done..|apply castUpdate_blank_name].
Qed.

Lemma updateMember_skips_validation_witness :
  status (@updateMember stub sampleDb id2 {["role" := VStr "superuser"]}).2 = 200
  ∧ lookupId (members (@updateMember stub sampleDb id2 {["role" := VStr "superuser"]}).1) 2
    ≫= (.!! "role") = Some (VStr "superuser")
  ∧ ∃ k, @createMember stub sampleDb
           (list_to_map [("name", VStr "Eve"); ("email", VStr "eve@example.com");
                         ("password", VStr "x"); ("role", VStr "superuser")])
         = (sampleDb, json 400 [("error", VStr (@message stub (ValidationError k)))]).
Proof.
  destruct (@updateMember_skips_validation stub sampleDb id2 2%N john "superuser")
    as [[Hst Hdoc] _]; [reflexivity..|].
  split; [exact Hst|]. split; [by rewrite Hdoc|].
  by exists "role".
Defined.

(** ** POST /books and PUT /books/:id *)

Section BookRoutes.

Context `{External}.

Lemma bookSchema_NoDup : NoDup (map fst bookSchema).
Proof. apply (bool_decide_unpack _). vm_compute. exact I. Qed.

Lemma isOperator_set (k : string) : isOperator k = false → k ≠ "$set" ∧ k ≠ "$unset".
Proof. intros Hk. split; intros ->; discriminate. Qed.

(** An update document that assigns one path of the schema. *)
Lemma castUpdate_singleton (sch : Schema) (k : string) (v v' : value) (p : SchemaPath) :
  isOperator k = false → k ≠ "_id" →
  pathOf sch k = Some p →
  castPath p v = Some v' →
  castUpdate sch {[k := v]}
  = Ok {| sets := <["updatedAt" := now]> {[k := v']};
          unsets := ∅; others := ∅; newId := None |}.
Proof.
  intros Hop Hid Hp Hv. destruct (isOperator_set k Hop) as [Hset Hunset].
  unfold castUpdate, operand.
  rewrite !lookup_singleton_ne by done. cbn [mbind Result_bind].
  assert (plainKeys {[k := v]} ∪ ∅ = ({[k := v]} : obj)) as ->.
  { rewrite (right_id_L ∅ _). unfold plainKeys. by rewrite map_filter_singleton_True. }
  assert (castAssignments sch {[k := v]} = Ok {[k := v']}) as ->.
  { unfold castAssignments. rewrite map_to_list_singleton. cbn [List.find].
    unfold castable. cbn [fst snd]. rewrite Hp, Hv.
    rewrite bool_decide_eq_true_2 by (by eexists). cbn [negb].
    f_equal. apply map_eq. intros j. rewrite map_lookup_imap.
    destruct (decide (j = k)) as [->|Hne].
    - rewrite !lookup_singleton_eq. cbn. by rewrite Hp.
    - by rewrite !lookup_singleton_ne. }
  cbn [mbind Result_bind].
  rewrite bool_decide_eq_true_2 by set_solver.
  rewrite lookup_singleton_ne by done.
  assert (otherOperators {[k := v]} = ∅) as ->; [|done].
  unfold otherOperators. apply map_filter_singleton_False. cbn. intros [? _]. congruence.
Qed.

Lemma validateBook_Ok (doc doc' : obj) :
  validateBook doc = Ok doc' → doc' = doc ∧ belowMin (doc !! "quantity") = false.
Proof.
  unfold validateBook. destruct (validate bookSchema doc) as [d|] eqn:Hv; [|done].
  apply validate_Ok in Hv as ->. cbn [mbind Result_bind].
  destruct (belowMin _); [done|]. by intros [= <-].
Qed.

Lemma validateBook_error (doc : obj) (e : Error) :
  validateBook doc = Throw e → ∃ k, e = ValidationError k.
Proof.
  unfold validateBook, validate. destruct (List.find _ _) as [kp|]; cbn [mbind Result_bind].
  - intros [= <-]. by eexists.
  - destruct (belowMin _); [|done]. intros [= <-]. by eexists.
Qed.

(** What POST /books did when it answers 201. *)
Lemma createBook_created (db : Db) (reqBody : obj) :
  status (createBook db reqBody).2 = 201 →
  ∃ i doc,
    construct bookSchema reqBody = Ok doc
    ∧ belowMin (doc !! "quantity") = false
    ∧ isbnTaken doc (books db) = false
    ∧ createBook db reqBody
      = (withBooks (books db ++ [(i, stamped doc)]) (bumped db),
         {| status := 201; body := Json (VObj (lean i (stamped doc))) |}).
Proof.
  unfold createBook.
  destruct (construct bookSchema reqBody) as [doc|]; cbn [mbind Result_bind]; [|done].
  destruct (validateBook doc) as [doc'|] eqn:Hv; cbn [mbind Result_bind]; [|done].
  apply validateBook_Ok in Hv as [-> Hmin].
  destruct (newDocumentId db reqBody) as [i|]; cbn [mbind Result_bind]; [|done].
  destruct (isbnTaken doc (books db)) eqn:Htaken; [done|].
  destruct (insertDoc _ _ _ _) as [coll'|] eqn:Hins; cbn [mbind Result_bind]; [|done].
  intros _. apply insertDoc_Ok in Hins as ->. by exists i, doc.
Qed.

Lemma isbnTaken_isbn (d d' : obj) (others : collection) :
  d' !! "isbn" = d !! "isbn" → isbnTaken d' others = isbnTaken d others.
Proof. unfold isbnTaken. by intros ->. Qed.

End BookRoutes.

(** X11.  The floor [min: 0] on a book's [quantity] holds on creation
    only.  For a negative number that the Number cast leaves as it is,
    POST /books answers 400 with a validation error and stores nothing,
    while PUT /books/:id on an existing book (whose [isbn] no other book
    holds) answers 200 and writes the negative quantity. *)
Theorem book_quantity_floor_holds_on_creation_only `{External}
    (db : Db) (n : Z) :
  castNumber (VNum n) = Some (VNum n) →
  n < 0 →
  (∀ reqBody, reqBody !! "quantity" = Some (VNum n) →
     ∃ k, createBook db reqBody
          = (db, json 400 [("error", VStr (message (ValidationError k)))]))
  ∧ (∀ id i d,
       castObjectId (VStr id) = Some i →
       lookupId (books db) i = Some d →
       isbnTaken d (removeFirst i (books db)) = false →
       let r := updateBook db id {["quantity" := VNum n]} in
       status r.2 = 200
       ∧ lookupId (books r.1) i
         = Some (<["updatedAt" := now]> (<["quantity" := VNum n]> d))).
Proof.
  intros Hcast Hn. split.
  - intros reqBody Hq. unfold createBook.
    destruct (construct bookSchema reqBody) as [doc|e] eqn:Hdoc; cbn [mbind Result_bind].
    + assert (doc !! "quantity" = Some (VNum n)) as Dq.
      { rewrite (construct_path bookSchema _ doc "quantity" _ bookSchema_NoDup Hdoc eq_refl).
        unfold built. rewrite Hq. unfold castPath. cbn. by rewrite Hcast. }
      destruct (validateBook doc) as [doc'|e] eqn:Hv; cbn [mbind Result_bind].
      * apply validateBook_Ok in Hv as [_ Hmin]. rewrite Dq in Hmin. cbn in Hmin. lia.
      * apply validateBook_error in Hv as [k ->]. by exists k.
    + apply construct_error in Hdoc as [k ->]. by exists k.
  - intros id i d Hid Hd Hfree. unfold updateBook.
    rewrite (findByIdAndUpdate_sets _ _ _ _ _ _ _ Hid Hd
               (castUpdate_singleton bookSchema "quantity" (VNum n) (VNum n)
                  (withDefault (Const (VNum 1)) (path TNumber)) eq_refl
                  ltac:(done) eq_refl ltac:(unfold castPath; cbn; by rewrite Hcast))).
    cbn [fst snd].
    rewrite (isbnTaken_isbn d), Hfree.
    + cbn [fst snd status books withBooks].
      by rewrite (lookupId_replaceFirst _ _ _ _ Hd), assignments_to_document.
    + rewrite lookup_union_r; [done|]. by rewrite lookup_insert_ne, lookup_singleton_ne.
Qed.

Lemma book_quantity_floor_holds_on_creation_only_witness :
  let db : Db :=
    withBooks [(7%N, list_to_map [("title", VStr "Emma"); ("author", VStr "Austen");
                                  ("quantity", VNum 2)])] emptyDb in
  (∃ k, @createBook stub db
          (list_to_map [("title", VStr "Persuasion"); ("author", VStr "Austen");
                        ("quantity", VNum (-5))])
        = (db, json 400 [("error", VStr (@message stub (ValidationError k)))]))
  ∧ status (@updateBook stub db "000000000000000000000007" {["quantity" := VNum (-5)]}).2
    = 200
  ∧ lookupId (books (@updateBook stub db "000000000000000000000007"
                       {["quantity" := VNum (-5)]}).1) 7
    ≫= (.!! "quantity") = Some (VNum (-5)).
Proof.
  intros db.
  destruct (@book_quantity_floor_holds_on_creation_only stub db (-5))
    as [Hcreate Hupdate]; [reflexivity | lia |].
  split; [by apply Hcreate|].
  destruct (Hupdate "000000000000000000000007" 7%N
              (list_to_map [("title", VStr "Emma"); ("author", VStr "Austen");
                            ("quantity", VNum 2)]))
    as [Hst Hdoc]; [reflexivity..|].
  split; [exact Hst|]. by rewrite Hdoc.
Defined.

(** X12.  A book created by POST /books from a body without [available]
    and [quantity] is available and has quantity 1; the 201 response is
    the stored document with its [_id]. *)
Theorem new_book_defaults `{External} (db : Db) (reqBody : obj) :
  reqBody !! "available" = None →
  reqBody !! "quantity" = None →
  status (createBook db reqBody).2 = 201 →
  ∃ i d,
    createBook db reqBody
    = (withBooks (books db ++ [(i, d)]) (bumped db),
       {| status := 201; body := Json (VObj (lean i d)) |})
    ∧ d !! "available" = Some (VBool true)
    ∧ d !! "quantity" = Some (VNum 1).
Proof.
  intros Ha Hq Hst.
  destruct (createBook_created db reqBody Hst) as (i & doc & Hdoc & _ & _ & ->).
  exists i, (stamped doc). split; [done|]. rewrite !stamped_lookup by done. split.
  - rewrite (construct_path bookSchema _ doc "available" _ bookSchema_NoDup Hdoc eq_refl).
    unfold built. by rewrite Ha.
  - rewrite (construct_path bookSchema _ doc "quantity" _ bookSchema_NoDup Hdoc eq_refl).
    unfold built. by rewrite Hq.
Qed.

Lemma new_book_defaults_witness :
  ∃ i d,
    @createBook stub emptyDb
      (list_to_map [("title", VStr "Emma"); ("author", VStr "Austen")])
    = (withBooks (books emptyDb ++ [(i, d)]) (bumped emptyDb),
       {| status := 201; body := Json (VObj (lean i d)) |})
    ∧ d !! "available" = Some (VBool true)
    ∧ d !! "quantity" = Some (VNum 1).
Proof.
  apply (@new_book_defaults stub emptyDb); reflexivity.
Defined.

(** ** The loan reads and the missing [User] model *)

Section MemberReference.

Context `{External}.

(** The loan schema refers to its member as a [User]; no model is
    registered under that name, so populating a loan that names a member
    throws. *)
Lemma populate_userId (db : Db) (fields : list string) (d : obj) :
  populate (models db) borrowedSchema "userId" fields d
  = match d !! "userId" with
    | Some _ => Throw (MissingSchemaError "User")
    | None => Ok d
    end.
Proof.
  unfold populate.
  change (pathOf borrowedSchema "userId" ≫= ref) with (Some "User").
  change (models db "User") with (@None collection).
  by destruct (d !! "userId").
Qed.

Lemma populate_bookId (db : Db) (fields : list string) (d : obj) :
  ∃ d', populate (models db) borrowedSchema "bookId" fields d = Ok d'
        ∧ ∀ k, k ≠ "bookId" → d' !! k = d !! k.
Proof.
  unfold populate.
  change (pathOf borrowedSchema "bookId" ≫= ref) with (Some "Book").
  change (models db "Book") with (Some (books db)).
  destruct (d !! "bookId") as [v|]; [|by exists d].
  destruct v; try (by eexists); eexists; split; [done|].
  intros k Hk. by rewrite lookup_insert_ne.
Qed.

Lemma populated_userId (db : Db) (userFields bookFields : list string) (d : obj) :
  is_Some (d !! "userId") →
  populated db userFields bookFields d = Throw (MissingSchemaError "User").
Proof.
  intros [v Hv]. unfold populated. by rewrite populate_userId, Hv.
Qed.

Lemma populated_Ok (db : Db) (userFields bookFields : list string) (d d' : obj) :
  populated db userFields bookFields d = Ok d' → d' !! "userId" = None.
Proof.
  unfold populated. rewrite populate_userId.
  destruct (d !! "userId") eqn:Hu; [done|]. cbn [mbind Result_bind].
  destruct (populate_bookId db bookFields d) as (d2 & -> & Hsame).
  intros [= <-]. by rewrite Hsame.
Qed.

Lemma populated_error (db : Db) (userFields bookFields : list string) (d : obj) (e : Error) :
  populated db userFields bookFields d = Throw e → e = MissingSchemaError "User".
Proof.
  unfold populated. rewrite populate_userId.
  destruct (d !! "userId"); cbn [mbind Result_bind]; [by intros [= <-]|].
  by destruct (populate_bookId db bookFields d) as (d2 & -> & _).
Qed.

Lemma mapM_populated (db : Db) (userFields bookFields : list string) (found : collection) :
  match mapM (λ e, populated db userFields bookFields (lean e.1 e.2)) found with
  | Ok rows => Forall (λ e, e.2 !! "userId" = None) found
               ∧ Forall (λ row : obj, row !! "userId" = None) rows
  | Throw e => e = MissingSchemaError "User"
               ∧ Exists (λ e, is_Some (e.2 !! "userId")) found
  end.
Proof.
  induction found as [|x found IH]; cbn.
  { split; constructor. }
  destruct (populated db userFields bookFields (lean x.1 x.2)) as [d|e] eqn:Hx;
    cbn [mbind Result_bind].
  - assert (x.2 !! "userId" = None) as Hnone.
    { destruct (x.2 !! "userId") as [v|] eqn:Hv; [|done].
      rewrite populated_userId in Hx; [done|].
      rewrite lean_lookup_ne by done. by eexists. }
    destruct (mapM _ found) as [rows|e]; cbn [mbind Result_bind].
    + destruct IH as [Hf Hr]. split; constructor; try done.
      by apply (populated_Ok _ _ _ _ _ Hx).
    + destruct IH as [-> Hex]. split; [done | by apply Exists_cons_tl].
  - apply populated_error in Hx as Heq. subst e. split; [done|].
    apply Exists_cons_hd.
    destruct (x.2 !! "userId") as [v|] eqn:Hv; [by eexists|].
    unfold populated in Hx. rewrite populate_userId, lean_lookup_ne, Hv in Hx by done.
    cbn [mbind Result_bind] in Hx.
    by destruct (populate_bookId db bookFields (lean x.1 x.2)) as (d2 & Hd2 & _);
      rewrite Hd2 in Hx.
Qed.

(** A list route of the loans: what it answers, given the rows. *)
Lemma hides_userId_rows (found : collection) (db : Db) (userFields bookFields : list string)
    (finish : list obj → Result response) (fail : Error → response) (post : obj → obj) :
  (∀ rows, ∃ e, finish rows = Ok {| status := 200; body := Page e |}
                ∧ data e = map post rows)
  ∨ (∃ err, ∀ rows, finish rows = Throw err) →
  (∀ d, d !! "userId" = None → post d !! "userId" = None) →
  (∀ err, status (fail err) = 500 ∧ views Rows (fail err) = []) →
  let r := match (rows ← mapM (λ e, populated db userFields bookFields (lean e.1 e.2)) found;
                  finish rows) with
           | Ok r => r
           | Throw err => fail err
           end in
  (status r = 200 ∨ status r = 500)
  ∧ hides "userId" Rows r
  ∧ (Exists namesMember found → r = fail (MissingSchemaError "User")).
Proof.
  intros Hfinish Hpost Hfail r. subst r.
  pose proof (mapM_populated db userFields bookFields found) as Hrows.
  destruct (mapM _ found) as [rows|e]; cbn [mbind Result_bind].
  - destruct Hrows as [Hfound Hrows].
    assert (¬ Exists namesMember found) as Hnone.
    { intros Hex. apply Exists_exists in Hex as (x & Hin & [v Hv]).
      rewrite Forall_forall in Hfound. by rewrite (Hfound x Hin) in Hv. }
    destruct Hfinish as [Hfin|[err Herr]].
    + destruct (Hfin rows) as (e & -> & Hdata). split; [by left|]. split; [|done].
      unfold hides, views. cbn [body]. rewrite Hdata. apply Forall_fmap.
      eapply Forall_impl; [exact Hrows|]. intros d Hd. by apply Hpost.
    + rewrite Herr. destruct (Hfail err) as [Hst Hviews].
      split; [by right|]. split; [by apply hides_nothing | done].
  - destruct (Hfail e) as [Hst Hviews]. destruct Hrows as [-> _].
    split; [by right|]. split; [by apply hides_nothing | done].
Qed.

End MemberReference.

(** X13.  GET /loans/:id answers 500 for every stored loan that names a
    member: the loan schema refers to its member as [User], no model is
    registered under that name (the member model is [Member]), and
    [populate] throws. *)
Theorem getLoan_fails_on_a_member_reference `{External}
    (db : Db) (id : string) (i : N) (d : obj) :
  castObjectId (VStr id) = Some i →
  lookupId (loans db) i = Some d →
  is_Some (d !! "userId") →
  getLoan db id = noUserModel.
Proof.
  intros Hid Hd Hu. unfold getLoan, findById. rewrite Hid. cbn [mbind Result_bind].
  unfold lookupId in Hd. destruct (List.find _ _) as [e|] eqn:Hfind; [|done].
  injection Hd as <-. rewrite populated_userId; [done|].
  by rewrite lean_lookup_ne.
Qed.

Lemma getLoan_fails_on_a_member_reference_witness :
  @getLoan stub sampleDb id3 = @noUserModel stub
  ∧ status (@getLoan stub sampleDb id3) = 500.
Proof.
  assert (@getLoan stub sampleDb id3 = @noUserModel stub) as Hget.
  { apply (@getLoan_fails_on_a_member_reference stub sampleDb id3 3%N returnedLoan);
      [reflexivity | reflexivity | by eexists]. }
  split; [exact Hget | by rewrite Hget].
Defined.

(** ** The list routes of the loans *)

Section LoanLists.

Context `{External}.

Variable db : Db.
Variable query : obj.

Lemma listLoans_broken :
  breaks (listLoans db query) (asked (loans db) (loanFilter query) "borrowDate" 10 query)
    (λ err, json 500 [("error", VStr (message err))]).
Proof.
  unfold breaks, asked, listLoans. cbv zeta.
  destruct (skipOf _ _) as [skip|err0]; cbn [mbind Result_bind];
    [|split; [by right|]; split; [by apply hides_nothing | done]].
  destruct (runFind _ _ _ _ _) as [found|err] eqn:Hfind; cbn [mbind Result_bind].
  - match goal with
    | |- context [mapM ?f found ≫= ?k] =>
        destruct (hides_userId_rows found db ["name"; "email"; "studentId"; "role"]
                    ["title"; "author"; "isbn"; "category"] k
                    (λ err, json 500 [("error", VStr (message err))])
                    (exclude ["__v"])) as (Hst & Hh & H500)
    end.
    + destruct (countDocuments _ _) as [total|err]; cbn [mbind Result_bind].
      * left. intros rows. by eexists.
      * right. by exists err.
    + intros d Hd. rewrite exclude_lookup. by case_decide.
    + done.
    + split; [done|]. split; [done|]. intros found' [= <-]. apply H500.
  - split; [by right|]. split; [by apply hides_nothing | done].
Qed.

Lemma overdueLoans_broken :
  breaks (overdueLoans db query)
    (asked (loans db) (<["isOverdue" := VBool true]> {["returned" := VBool false]})
       "dueDate" 10 query)
    (λ err, json 500 [("error", VStr (message err))]).
Proof.
  unfold breaks, asked, overdueLoans. cbv zeta.
  destruct (skipOf _ _) as [skip|err0]; cbn [mbind Result_bind];
    [|split; [by right|]; split; [by apply hides_nothing | done]].
  destruct (runFind _ _ _ _ _) as [found|err] eqn:Hfind; cbn [mbind Result_bind].
  - match goal with
    | |- context [mapM ?f found ≫= ?k] =>
        destruct (hides_userId_rows found db ["name"; "email"; "phone"]
                    ["title"; "author"] k
                    (λ err, json 500 [("error", VStr (message err))])
                    id) as (Hst & Hh & H500)
    end.
    + destruct (countDocuments _ _) as [total|err]; cbn [mbind Result_bind].
      * left. intros rows. eexists. split; [done|]. cbn [data]. by rewrite list_fmap_id.
      * right. by exists err.
    + done.
    + done.
    + split; [done|]. split; [done|]. intros found' [= <-]. apply H500.
  - split; [by right|]. split; [by apply hides_nothing | done].
Qed.

Lemma borrowed_broken :
  breaks (borrowed db query) (asked (loans db) ∅ "borrowDate" 20 query)
    (λ err, json 500 [("message", VStr "Error fetching borrowed books");
                      ("error", VStr (message err))]).
Proof.
  unfold breaks, asked, borrowed. cbv zeta.
  destruct (skipOf _ _) as [skip|err0]; cbn [mbind Result_bind];
    [|split; [by right|]; split; [by apply hides_nothing | done]].
  destruct (runFind _ _ _ _ _) as [found|err] eqn:Hfind; cbn [mbind Result_bind].
  - match goal with
    | |- context [mapM ?f found ≫= ?k] =>
        destruct (hides_userId_rows found db ["name"; "email"]
                    ["title"; "author"] k
                    (λ err, json 500 [("message", VStr "Error fetching borrowed books");
                                      ("error", VStr (message err))])
                    id) as (Hst & Hh & H500)
    end.
    + destruct (countDocuments _ _) as [total|err]; cbn [mbind Result_bind].
      * left. intros rows. eexists. split; [done|]. cbn [data]. by rewrite list_fmap_id.
      * right. by exists err.
    + done.
    + done.
    + split; [done|]. split; [done|]. intros found' [= <-]. apply H500.
  - split; [by right|]. split; [by apply hides_nothing | done].
Qed.

(** Populating [bookId] alone never throws, and leaves the other fields
    of each loan as they are stored. *)
Lemma mapM_populate_bookId (fields : list string) (found : collection) :
  ∃ rows, mapM (λ e : N * obj, populate (models db) borrowedSchema "bookId" fields
                                 (lean e.1 e.2)) found = Ok rows
          ∧ Forall2 showsLoan found rows.
Proof.
  induction found as [|x found IH]; cbn; [eexists; split; [done | constructor]|].
  destruct (populate_bookId db fields (lean x.1 x.2)) as (d' & -> & Hsame).
  destruct IH as (rows & -> & Hrows). eexists. split; [done|].
  by constructor.
Qed.

Lemma userLoans_answers (userId : string) (found : collection) (count : Z) :
  asked (loans db) (userLoanFilter userId query) "borrowDate" 10 query = Ok found →
  countDocuments (loans db) (userLoanFilter userId query) = Ok count →
  ∃ e, userLoans db userId query = {| status := 200; body := Page e |}
       ∧ total e = count
       ∧ Forall2 showsLoan found (data e).
Proof.
  unfold asked, userLoans. cbv zeta.
  destruct (skipOf _ _) as [skip|]; cbn [mbind Result_bind]; [|done].
  intros -> ->. cbn [mbind Result_bind].
  destruct (mapM_populate_bookId ["title"; "author"; "category"] found)
    as (rows & -> & Hrows).
  cbn [mbind Result_bind]. by eexists.
Qed.

End LoanLists.

(** X14.  GET /loans, GET /loans/reports/overdue and GET /borrowed
    answer 200 or 500, and no row they return holds a [userId].  On a
    request for which the store's [find] returns a loan that names a
    member, each of them answers 500 with the message of the error that
    [populate] throws for the missing [User] model. *)
Theorem loan_lists_fail_on_member_references `{External} (db : Db) (query : obj) :
  Forall (λ r, (status r = 200 ∨ status r = 500) ∧ hides "userId" Rows r)
    [listLoans db query; overdueLoans db query; borrowed db query]
  ∧ (∀ found,
       asked (loans db) (loanFilter query) "borrowDate" 10 query = Ok found →
       Exists namesMember found →
       listLoans db query = noUserModel)
  ∧ (∀ found,
       asked (loans db) (<["isOverdue" := VBool true]> {["returned" := VBool false]})
         "dueDate" 10 query = Ok found →
       Exists namesMember found →
       overdueLoans db query = noUserModel)
  ∧ (∀ found,
       asked (loans db) ∅ "borrowDate" 20 query = Ok found →
       Exists namesMember found →
       borrowed db query
       = json 500 [("message", VStr "Error fetching borrowed books");
                   ("error", VStr (message (MissingSchemaError "User")))]).
Proof.
  destruct (listLoans_broken db query) as (L1 & L2 & L3).
  destruct (overdueLoans_broken db query) as (O1 & O2 & O3).
  destruct (borrowed_broken db query) as (B1 & B2 & B3).
  split; [by repeat apply Forall_cons_2|]. done.
Qed.

Lemma loan_lists_fail_on_member_references_witness :
  @listLoans stub sampleDb ∅ = @noUserModel stub
  ∧ @overdueLoans stub sampleDb ∅ = @noUserModel stub
  ∧ status (@borrowed stub sampleDb ∅) = 500
  ∧ status (@listLoans stub (withLoans [] sampleDb) ∅) = 200.
Proof.
  assert (Exists namesMember (loans sampleDb)) as Hm.
  { apply Exists_cons_hd. by eexists. }
  destruct (@loan_lists_fail_on_member_references stub sampleDb ∅) as (_ & H1 & H2 & H3).
  split; [exact (H1 _ eq_refl Hm)|]. split; [exact (H2 _ eq_refl Hm)|].
  split; [by rewrite (H3 _ eq_refl Hm) | reflexivity].
Defined.

(** X15.  GET /loans/user/:userId populates [bookId] only, whose model is
    registered.  On a request for which the store answers the route's
    [find] with the loans [found] and its [countDocuments] with [count],
    the route answers 200 with a page whose total is [count] and whose
    rows are the loans of [found], in that order, each as it is stored but
    for its [bookId]. *)
Theorem userLoans_answers_whenever_the_store_does `{External}
    (db : Db) (userId : string) (query : obj) (found : collection) (count : Z) :
  asked (loans db) (userLoanFilter userId query) "borrowDate" 10 query = Ok found →
  countDocuments (loans db) (userLoanFilter userId query) = Ok count →
  ∃ e, userLoans db userId query = {| status := 200; body := Page e |}
       ∧ total e = count
       ∧ Forall2 showsLoan found (data e).
Proof. apply userLoans_answers. Qed.

Lemma userLoans_answers_whenever_the_store_does_witness :
  (∃ e, @userLoans stub sampleDb id1 ∅ = {| status := 200; body := Page e |}
        ∧ total e = 1
        ∧ Forall2 showsLoan (loans sampleDb) (data e))
  ∧ status (@listLoans stub sampleDb ∅) = 500.
Proof.
  split; [|reflexivity].
  apply (@userLoans_answers_whenever_the_store_does stub sampleDb id1 ∅); reflexivity.
Defined.

(** ** The writing routes of the loans *)

Section LoanWrites.

Context `{External}.

Lemma borrowedSchema_NoDup : NoDup (map fst borrowedSchema).
Proof. apply (bool_decide_unpack _). vm_compute. exact I. Qed.

Lemma loanId_error (db : Db) (src : obj) (e : Error) :
  loanId db src = Throw e → e = ValidationError "_id".
Proof.
  unfold loanId. destruct (src !! "_id") as [v|]; [|done].
  destruct (castObjectId v); [done | by intros [= <-]].
Qed.

Lemma createLoan_refused (db : Db) (reqBody : obj) (kp : string * SchemaPath) :
  kp ∈ borrowedSchema →
  (∀ doc, construct borrowedSchema reqBody = Ok doc → invalid doc kp = true) →
  ∃ k, createLoan db reqBody
       = (db, json 400 [("error", VStr (message (ValidationError k)))]).
Proof.
  intros Hin Hbad. unfold createLoan.
  destruct (construct borrowedSchema reqBody) as [doc|e] eqn:Hdoc; cbn [mbind Result_bind].
  - destruct (loanId db reqBody) as [i|e] eqn:Hid; cbn [mbind Result_bind].
    + destruct (insertDoc_invalid borrowedSchema (loans db) i doc kp Hin (Hbad doc eq_refl))
        as [k ->].
      by exists k.
    + apply loanId_error in Hid as ->. by eexists.
  - apply construct_error in Hdoc as [k ->]. by exists k.
Qed.

Lemma absent_blank (p : SchemaPath) (k : string) (src : obj) :
  dflt p = NoDefault →
  src !! k = None ∨ src !! k = Some VNull →
  blank p (built src k p) = true.
Proof.
  intros Hd [Hk|Hk]; unfold built; rewrite Hk; [by rewrite Hd | done].
Qed.

End LoanWrites.

(** X29.  PUT /loans/:id writes before it fails.  On a stored loan that
    names a member, a body with [returned: true] is answered 400 with the
    message of the missing [User] model, thrown by [populate] after the
    update: the stored loan has been updated and is returned. *)
Theorem updateLoan_writes_before_it_fails `{External}
    (db : Db) (id : string) (i : N) (d : obj) :
  castObjectId (VStr id) = Some i →
  lookupId (loans db) i = Some d →
  is_Some (d !! "userId") →
  let r := updateLoan db id {["returned" := VBool true]} in
  r.2 = json 400 [("error", VStr (message (MissingSchemaError "User")))]
  ∧ lookupId (loans r.1) i
    = Some (<["updatedAt" := now]> (<["returned" := VBool true]> d))
  ∧ isReturned r.1 i = Some true.
Proof.
  intros Hid Hd [v Hv]. unfold updateLoan.
  rewrite (findByIdAndUpdate_sets _ _ _ _ _ _ _ Hid Hd
             (castUpdate_singleton borrowedSchema "returned" (VBool true) (VBool true)
                (withDefault (Const (VBool false)) (path TBoolean))
                eq_refl ltac:(done) eq_refl eq_refl)).
  cbn [fst snd]. rewrite assignments_to_document.
  assert (lookupId (loans (withLoans
            (replaceFirst i (<["updatedAt" := now]> (<["returned" := VBool true]> d))
               (loans db)) db)) i
          = Some (<["updatedAt" := now]> (<["returned" := VBool true]> d))) as Hstored.
  { cbn [loans withLoans]. by apply (lookupId_replaceFirst _ _ d). }
  split; [|split; [done|]].
  - unfold answer. rewrite populated_userId; [done|].
    rewrite lean_lookup_ne, !lookup_insert_ne by done. by eexists.
  - unfold isReturned. rewrite Hstored. cbn.
    by rewrite lookup_insert_ne, lookup_insert_eq.
Qed.

Lemma updateLoan_writes_before_it_fails_witness :
  let db : Db := withLoans [(3%N, <["returned" := VBool false]> returnedLoan)] sampleDb in
  isReturned db 3 = Some false
  ∧ status (@updateLoan stub db id3 {["returned" := VBool true]}).2 = 400
  ∧ isReturned (@updateLoan stub db id3 {["returned" := VBool true]}).1 3 = Some true.
Proof.
  intros db.
  destruct (@updateLoan_writes_before_it_fails stub db id3 3%N
              (<["returned" := VBool false]> returnedLoan))
    as (Hr & _ & Hret); [reflexivity | reflexivity | by eexists |].
  split; [reflexivity|]. split; [by rewrite Hr | exact Hret].
Defined.

(** X30.  POST /loans answers 400 with a validation error and stores
    nothing when the body leaves out [userId], [bookId] or [dueDate], or
    gives it as [null]. *)
Theorem createLoan_requires_member_book_and_due_date `{External}
    (db : Db) (reqBody : obj) (k : string) :
  k ∈ ["userId"; "bookId"; "dueDate"] →
  reqBody !! k = None ∨ reqBody !! k = Some VNull →
  ∃ p, createLoan db reqBody
       = (db, json 400 [("error", VStr (message (ValidationError p)))]).
Proof.
  intros Hk Habsent.
  repeat (apply elem_of_cons in Hk as [->|Hk]); [| | |by apply elem_of_nil in Hk].
  - apply (createLoan_refused db reqBody
             ("userId", withRequired (withRef "User" (path TObjectId))));
      [by apply schemaPath_elem|].
    intros doc Hdoc. unfold invalid. cbn [fst snd].
    rewrite (construct_path borrowedSchema _ doc "userId" _ borrowedSchema_NoDup Hdoc eq_refl).
    by rewrite absent_blank.
  - apply (createLoan_refused db reqBody
             ("bookId", withRequired (withRef "Book" (path TObjectId))));
      [by apply schemaPath_elem|].
    intros doc Hdoc. unfold invalid. cbn [fst snd].
    rewrite (construct_path borrowedSchema _ doc "bookId" _ borrowedSchema_NoDup Hdoc eq_refl).
    by rewrite absent_blank.
  - apply (createLoan_refused db reqBody ("dueDate", withRequired (path TDate)));
      [by apply schemaPath_elem|].
    intros doc Hdoc. unfold invalid. cbn [fst snd].
    rewrite (construct_path borrowedSchema _ doc "dueDate" _ borrowedSchema_NoDup Hdoc eq_refl).
    by rewrite absent_blank.
Qed.

Lemma createLoan_requires_member_book_and_due_date_witness :
  ∃ p, @createLoan stub sampleDb
         (list_to_map [("userId", VStr id1); ("bookId", VStr id2)])
       = (sampleDb, json 400 [("error", VStr (@message stub (ValidationError p)))]).
Proof.
  apply (@createLoan_requires_member_book_and_due_date stub sampleDb _ "dueDate").
  - set_solver.
  - by left.
Defined.

(** ** Pages *)

Section Paging.

Lemma ceilDiv_bounds (total b : Z) :
  1 ≤ b →
  ∃ n, ceilDiv total (Int b) = Int n ∧ (n - 1) * b < total ≤ n * b.
Proof.
  intros Hb. unfold ceilDiv. destruct (Z.eqb_spec b 0) as [->|_]; [lia|].
  exists (- (- total / b)). split; [done|].
  pose proof (Z.div_mod (- total) b ltac:(lia)) as Hdm.
  pose proof (Z.mod_pos_bound (- total) b ltac:(lia)) as Hmod.
  nia.
Qed.

(** A page that [parseInt] reads as a number from 1 on, below 2^53. *)
Lemma page_read (p : Z) :
  1 ≤ p < 2 ^ 53 → jsMax (Int 1) (jsOr (Int p) (Int 1)) = Int p.
Proof. intros Hp. cbn. destruct (Z.eqb_spec p 0); [lia|]. cbn. by rewrite Z.max_r by lia. Qed.

End Paging.

(** X16.  Consecutive pages are adjacent.  For two queries with the same
    [limit] whose [page] parameters read as [p] and [p + 1] with
    [1 ≤ p] (and offsets within the integers that a JavaScript number
    holds exactly): the resolver returns for both (or throws the TypeError
    of the [limit]'s conversion for both), the resolved limits are equal,
    page [p] starts at offset [(p - 1) * limit], and page [p + 1] starts
    where page [p] ends. *)
Theorem consecutive_pages_are_adjacent (q1 q2 : gmap string value) (p : Z) :
  1 ≤ p →
  (p + 1) * 100 ≤ 2 ^ 53 →
  parseInt (q1 !! "page") = Ok (Int p) →
  parseInt (q2 !! "page") = Ok (Int (p + 1)) →
  q2 !! "limit" = q1 !! "limit" →
  (getPaginationParams q1 = Throw TypeError ∧ getPaginationParams q2 = Throw TypeError)
  ∨ ∃ r1 r2 l,
      getPaginationParams q1 = Ok r1
      ∧ getPaginationParams q2 = Ok r2
      ∧ limit r1 = Int l
      ∧ limit r2 = Int l
      ∧ skip r1 = Int ((p - 1) * l)
      ∧ skip r2 = Int ((p - 1) * l + l).
Proof.
  intros Hp Hbound H1 H2 Hl. unfold getPaginationParams. rewrite H1, H2, Hl.
  cbn [mbind Result_bind].
  destruct (parseInt (q1 !! "limit")) as [x|e] eqn:Hx; cbn [mbind Result_bind].
  - right. destruct (limit_in_range x (parseInt_not_Other _ _ Hx)) as (l & Hlimit & Hrange).
    eexists _, _, l. split; [done|]. split; [done|]. cbn [page limit skip].
    rewrite Hlimit, !page_read by lia.
    split; [done|]. split; [done|].
    assert (2 ^ 53 = 9007199254740992) as Hpow by reflexivity.
    assert ((p - 1) * l ≤ (p - 1) * 100) by (apply Z.mul_le_mono_nonneg_l; lia).
    assert (p * l ≤ p * 100) by (apply Z.mul_le_mono_nonneg_l; lia).
    assert ((p + 1 - 1) * l = (p - 1) * l + l) as Hnext by ring.
    rewrite (proj2 (skip_exact p l ltac:(lia) ltac:(lia)) ltac:(lia)).
    rewrite (proj2 (skip_exact (p + 1) l ltac:(lia) ltac:(lia)) ltac:(lia)).
    split; [done|]. by rewrite Hnext.
  - left. destruct (q1 !! "limit") as [v|]; cbn in Hx; [|done].
    destruct (unprintable v); [|done]. injection Hx as <-. done.
Qed.

Lemma consecutive_pages_are_adjacent_witness :
  let q1 : gmap string value := <["page" := VStr "2"]> {["limit" := VStr "25"]} in
  let q2 : gmap string value := <["page" := VStr "3"]> {["limit" := VStr "25"]} in
  ∃ r1 r2 l,
    getPaginationParams q1 = Ok r1
    ∧ getPaginationParams q2 = Ok r2
    ∧ limit r1 = Int l
    ∧ limit r2 = Int l
    ∧ skip r1 = Int ((2 - 1) * l)
    ∧ skip r2 = Int ((2 - 1) * l + l).
Proof.
  intros q1 q2.
  destruct (consecutive_pages_are_adjacent q1 q2 2) as [[Hthrows _]|Hpages];
    [lia | lia | reflexivity | reflexivity | reflexivity | discriminate Hthrows
     | exact Hpages].
Defined.

(** X17.  Resolving pagination is idempotent: a query whose [page] and
    [limit] read as the values that [getPaginationParams] returned for
    another query resolves to the same page, limit and offset. *)
Theorem pagination_is_idempotent (query again : gmap string value)
    (r : PaginationParams) :
  getPaginationParams query = Ok r →
  parseInt (again !! "page") = Ok (page r) →
  parseInt (again !! "limit") = Ok (limit r) →
  getPaginationParams again = Ok r.
Proof.
  intros Hr Hp Hl.
  destruct (pagination_range query r Hr) as (l & Hlimit & Hrange & Hpage).
  destruct (getPaginationParams_returns _ _ Hr) as (a & b & Ha & Hb).
  rewrite (getPaginationParams_Ok _ _ _ Ha Hb) in Hr. cbv zeta in Hr.
  rewrite (getPaginationParams_Ok _ _ _ Hp Hl). cbv zeta.
  destruct r as [rp rl rs]. cbn [page limit skip] in *. subst rl.
  assert (jsMin (Int 100) (jsMax (Int 1) (jsOr (Int l) (Int 10))) = Int l) as ->.
  { cbn. destruct (Z.eqb_spec l 0); [lia|]. cbn. by rewrite Z.max_r, Z.min_r by lia. }
  assert (jsMax (Int 1) (jsOr rp (Int 1)) = rp) as ->.
  { destruct Hpage as [[-> _]|(p & -> & Hp1 & _)]; [done|].
    cbn. destruct (Z.eqb_spec p 0); [lia|]. cbn. by rewrite Z.max_r by lia. }
  f_equal. f_equal. injection Hr as Hrp Hrl Hrs. by rewrite <- Hrs, Hrp, Hrl.
Qed.

Lemma pagination_is_idempotent_witness :
  getPaginationParams (<["page" := VStr "1"]> {["limit" := VStr "100"]})
  = Ok {| page := Int 1; limit := Int 100; skip := Int 0 |}
  ∧ getPaginationParams (<["page" := VStr "-3"]> {["limit" := VStr "5000"]})
    = Ok {| page := Int 1; limit := Int 100; skip := Int 0 |}.
Proof.
  split; [|reflexivity].
  apply (pagination_is_idempotent
           (<["page" := VStr "-3"]> {["limit" := VStr "5000"]})
           (<["page" := VStr "1"]> {["limit" := VStr "100"]})); reflexivity.
Defined.

(** X18.  With the limit that [getPaginationParams] resolves and a total
    that is not negative (and below 2^53), the page count of
    [formatPaginationResponse] is an integer [n], the least number of
    pages that hold the total: [(n - 1) * limit < total ≤ n * limit], and
    [0 ≤ n]. *)
Theorem page_count_covers_the_total (query : gmap string value) (rows : list obj)
    (total : Z) (p : PaginationParams) :
  0 ≤ total < 2 ^ 53 →
  getPaginationParams query = Ok p →
  ∃ n l, limit p = Int l
         ∧ pages (formatPaginationResponse rows total (page p) (limit p)) = Int n
         ∧ 0 ≤ n
         ∧ (n - 1) * l < total ≤ n * l.
Proof.
  intros [Htotal _] Hp.
  destruct (pagination_range query p Hp) as (l & Hlimit & Hl & _).
  destruct (ceilDiv_bounds total l) as (n & Hn & Hlo & Hhi); [lia|].
  exists n, l. split; [done|]. cbn [pages formatPaginationResponse]. rewrite Hlimit.
  split; [done|]. split; [nia | lia].
Qed.

Lemma page_count_covers_the_total_witness :
  ∃ n l, Int 10 = Int l
         ∧ pages (formatPaginationResponse [] 25 (Int 1) (Int 10)) = Int n
         ∧ 0 ≤ n
         ∧ (n - 1) * l < 25 ≤ n * l.
Proof.
  apply (page_count_covers_the_total {["limit" := VStr "10"]} [] 25
           {| page := Int 1; limit := Int 10; skip := Int 0 |}); [lia | reflexivity].
Defined.

(** ** Filters and error classes *)

Section Filters.



Lemma buildSearchFilter_lookup (term : option value) (fields : list string) (k : string) :
  k ≠ "$or" → buildSearchFilter term fields !! k = None.
Proof.
  intros Hk. unfold buildSearchFilter. destruct term as [t|]; [|done].
  destruct (truthy (Some t)); [|done]. by rewrite lookup_singleton_ne.
Qed.

End Filters.



(** X20.  Unless [$or] is allow-listed, the search filter and the field
    filter bind different keys: merging them in either order gives the
    same filter, which holds the search clause under [$or] and the field
    filter's value under every other key. *)
Theorem search_and_field_filters_do_not_collide (queryParams : gmap string value)
    (allowedFields searchFields : list string) (searchTerm : option value) :
  "$or" ∉ allowedFields →
  let fields := buildFilter queryParams allowedFields in
  let search := buildSearchFilter searchTerm searchFields in
  search ∪ fields = fields ∪ search
  ∧ ∀ k, (search ∪ fields) !! k = if decide (k = "$or") then search !! k else fields !! k.
Proof.
  intros Hor fields search.
  assert (∀ k, (search ∪ fields) !! k
               = if decide (k = "$or") then search !! k else fields !! k) as Hlookup.
  { intros k. rewrite lookup_union. case_decide as Hk.
    - subst k. unfold fields. rewrite buildFilter_lookup, decide_False by (by intros [? _]).
      by destruct (search !! "$or").
    - unfold search. by rewrite buildSearchFilter_lookup, (left_id_L None _). }
  split; [|done]. apply map_eq. intros k. rewrite Hlookup, lookup_union.
  case_decide as Hk.
  - subst k. unfold fields. rewrite buildFilter_lookup, decide_False by (by intros [? _]).
    by destruct (search !! "$or").
  - unfold search. rewrite buildSearchFilter_lookup by done.
    by destruct (fields !! k).
Qed.

Lemma search_and_field_filters_do_not_collide_witness :
  let query : gmap string value :=
    list_to_map [("category", VStr "fiction"); ("available", VStr "true")] in
  buildSearchFilter (Some (VStr "emma")) ["title"; "author"]
    ∪ buildFilter query ["category"; "available"]
  = buildFilter query ["category"; "available"]
    ∪ buildSearchFilter (Some (VStr "emma")) ["title"; "author"]
  ∧ dom (buildSearchFilter (Some (VStr "emma")) ["title"; "author"]
           ∪ buildFilter query ["category"; "available"])
    = ({["$or"; "category"; "available"]} : gset string).
Proof.
  intros query.
  destruct (search_and_field_filters_do_not_collide query ["category"; "available"]
              ["title"; "author"] (Some (VStr "emma"))) as [Hcomm _]; [set_solver|].
  split; [exact Hcomm|].
  apply (bool_decide_unpack _). vm_compute. exact I.
Defined.

Section ErrorClasses.

Context `{External}.

Lemma insertDoc_error (sch : Schema) (coll : collection) (i : N) (doc : obj) (e : Error) :
  insertDoc sch coll i doc = Throw e →
  (∃ k, e = ValidationError k) ∨ (∃ k, e = DuplicateKey k).
Proof.
  unfold insertDoc, validate. destruct (List.find _ sch) as [kp|]; cbn [mbind Result_bind].
  - intros [= <-]. left. by eexists.
  - destruct (existsb _ coll); [intros [= <-]; right; by eexists|].
    destruct (duplicateOf _ _ _); [|done]. intros [= <-]. right. by eexists.
Qed.

End ErrorClasses.

(** X21.  [handleDBError] answers 400 to every error that building or
    inserting a document throws (a failed cast, a failed validation, a
    duplicate key) and to the error of a malformed id in [findById] and
    [findByIdAndDelete]. *)
Theorem handleDBError_blames_the_client_for_rejected_documents `{External}
    (sch : Schema) (coll : collection) (src : obj) (i : N) (id : string) (e : Error) :
  construct sch src = Throw e
  ∨ (∃ doc, construct sch src = Ok doc ∧ insertDoc sch coll i doc = Throw e)
  ∨ findById coll (VStr id) = Throw e
  ∨ findByIdAndDelete coll (VStr id) = Throw e →
  status (handleDBError e) = 400.
Proof.
  intros [Hc|[(doc & _ & Hi)|[Hf|Hd]]].
  - by apply construct_error in Hc as [k ->].
  - by apply insertDoc_error in Hi as [[k ->]|[k ->]].
  - unfold findById in Hf. destruct (castObjectId _); [done|]. by injection Hf as <-.
  - unfold findByIdAndDelete, findById in Hd. destruct (castObjectId _); cbn in Hd.
    + by destruct (List.find _ _).
    + by injection Hd as <-.
Qed.

Lemma handleDBError_blames_the_client_for_rejected_documents_witness :
  status (@handleDBError stub (ValidationError "name")) = 400
  ∧ status (@handleDBError stub (CastError "_id")) = 400
  ∧ status (@handleDBError stub (StoreError "connection lost")) = 500.
Proof.
  split; [|split; [|reflexivity]].
  - apply (@handleDBError_blames_the_client_for_rejected_documents stub memberSchema []
             {["name" := VArr []]} 1%N "abc"). by left.
  - apply (@handleDBError_blames_the_client_for_rejected_documents stub memberSchema []
             ∅ 1%N "abc"). right. right. by left.
Defined.

(** ** The index on [isbn] *)

Section IsbnIndex.

Context `{External}.

Lemma sameIndexKey_sym (a b : value) : sameIndexKey a b = sameIndexKey b a.
Proof. destruct a, b; try done; apply sameKey_sym. Qed.

Lemma sameIsbn_sym (a b : obj) : sameIsbn a b = sameIsbn b a.
Proof.
  unfold sameIsbn. destruct (a !! "isbn"), (b !! "isbn"); try done.
  apply sameIndexKey_sym.
Qed.

Lemma isbnTaken_sameIsbn (book : obj) (others : collection) :
  isbnTaken book others = existsb (λ e, sameIsbn book e.2) others.
Proof.
  unfold isbnTaken, sameIsbn. destruct (book !! "isbn") as [a|].
  - done.
  - induction others as [|e others IH]; cbn; [done | by rewrite <- IH].
Qed.

Lemma isbn_free (book : obj) (others : collection) :
  isbnTaken book others = false →
  forallb (λ y, negb (sameIsbn book y.2)) others = true.
Proof.
  rewrite isbnTaken_sameIsbn. induction others as [|e others IH]; cbn; [done|].
  intros [-> ?]%orb_false_elim. by rewrite IH.
Qed.

Lemma sameIsbn_isbn (a a' b : obj) :
  a' !! "isbn" = a !! "isbn" → sameIsbn a' b = sameIsbn a b.
Proof. unfold sameIsbn. by intros ->. Qed.

Lemma distinctIsbn_app (coll : collection) (x : N * obj) :
  distinctIsbn (coll ++ [x])
  = distinctIsbn coll && forallb (λ y, negb (sameIsbn y.2 x.2)) coll.
Proof.
  induction coll as [|y coll IH]; cbn [distinctIsbn app forallb]; [done|].
  rewrite IH, forallb_app. cbn [forallb].
  destruct (forallb _ coll), (distinctIsbn coll), (sameIsbn y.2 x.2); cbn;
    try done; by destruct (forallb _ coll).
Qed.

Lemma distinctIsbn_sublist (l1 l2 : collection) :
  sublist l1 l2 → distinctIsbn l2 = true → distinctIsbn l1 = true.
Proof.
  induction 1 as [|x l1 l2 Hsub IH|x l1 l2 Hsub IH]; cbn [distinctIsbn]; [done| |].
  - intros [Hx ?]%andb_prop. rewrite IH by done.
    by rewrite (forallb_sublist _ _ _ Hsub Hx).
  - intros [_ ?]%andb_prop. by apply IH.
Qed.

Lemma forallb_replaceFirst (f : N * obj → bool) (i : N) (d : obj) (coll : collection) :
  forallb f coll = true → f (i, d) = true → forallb f (replaceFirst i d coll) = true.
Proof.
  induction coll as [|e coll IH]; cbn; [done|].
  intros [He Hrest]%andb_prop Hd. destruct (e.1 =? i)%N; cbn.
  - by rewrite Hd, Hrest.
  - by rewrite He, IH.
Qed.

Lemma distinctIsbn_replaceFirst (i : N) (d : obj) (coll : collection) :
  distinctIsbn coll = true →
  isbnTaken d (removeFirst i coll) = false →
  distinctIsbn (replaceFirst i d coll) = true.
Proof.
  induction coll as [|e coll IH]; cbn [distinctIsbn replaceFirst removeFirst]; [done|].
  intros [He Hrest]%andb_prop. destruct (e.1 =? i)%N; cbn [distinctIsbn].
  - intros Hfree%isbn_free. cbn [snd]. by rewrite Hfree, Hrest.
  - rewrite isbnTaken_sameIsbn. cbn [existsb].
    intros [Hde Hfree]%orb_false_elim. rewrite <- isbnTaken_sameIsbn in Hfree.
    rewrite IH by done. rewrite forallb_replaceFirst; [done..|].
    cbn [snd]. by rewrite sameIsbn_sym, Hde.
Qed.

Lemma forallb_agree {A : Type} (f g : A → bool) (l : list A) :
  (∀ x, f x = g x) → forallb f l = forallb g l.
Proof. intros Hfg. induction l as [|x l IH]; cbn; [done|]. by rewrite Hfg, IH. Qed.

Lemma createBook_books (db : Db) (reqBody : obj) :
  books (createBook db reqBody).1 = books db
  ∨ ∃ i doc, isbnTaken doc (books db) = false
             ∧ books (createBook db reqBody).1 = books db ++ [(i, stamped doc)].
Proof.
  unfold createBook.
  destruct (construct bookSchema reqBody) as [doc|]; cbn [mbind Result_bind]; [|by left].
  destruct (validateBook doc) as [doc'|] eqn:Hv; cbn [mbind Result_bind]; [|by left].
  apply validateBook_Ok in Hv as [-> _].
  destruct (newDocumentId db reqBody) as [i|]; cbn [mbind Result_bind]; [|by left].
  destruct (isbnTaken doc (books db)) eqn:Htaken; [by left|].
  destruct (insertDoc _ _ _ _) as [coll'|] eqn:Hins; cbn [mbind Result_bind]; [|by left].
  apply insertDoc_Ok in Hins as ->. right. by exists i, doc.
Qed.

Lemma stepBook_isbn (db : Db) (op : BookOp) :
  distinctIsbn (books db) = true → distinctIsbn (books (stepBook db op)) = true.
Proof.
  intros Hd. destruct op as [b|id b|id]; cbn [stepBook].
  - destruct (createBook_books db b) as [->|(i & doc & Hfree & ->)]; [done|].
    rewrite distinctIsbn_app, Hd. cbn [andb snd].
    apply isbn_free in Hfree. rewrite <- Hfree. apply forallb_agree. intros y.
    rewrite sameIsbn_sym. f_equal. apply sameIsbn_isbn. by rewrite stamped_lookup.
  - unfold updateBook.
    destruct (findByIdAndUpdate _ _ _ _) as [[coll' [e|]]|] eqn:Hf; cbn [fst]; [|done..].
    destruct (isbnTaken e.2 _) eqn:Htaken; cbn [fst books withBooks]; [done|].
    apply findByIdAndUpdate_cases in Hf
      as [(? & _ & _ & _ & ?)|(i & u & d & d' & _ & _ & _ & _ & -> & [= ->])]; [done|].
    by apply distinctIsbn_replaceFirst.
  - unfold deleteBook, findByIdAndDelete, findById.
    destruct (castObjectId (VStr id)) as [i|]; cbn [mbind Result_bind]; [|done].
    destruct (List.find _ _) as [e|]; cbn [fst books withBooks]; [|done].
    apply (distinctIsbn_sublist _ (books db)); [apply removeFirst_sublist | done].
Qed.

End IsbnIndex.

(** X22.  No two books share an [isbn]: if the stored [isbn] keys are
    pairwise distinct ([null] counting as a key, a missing [isbn] not),
    they still are after any sequence of POST /books, PUT /books/:id and
    DELETE /books/:id. *)
Theorem book_isbns_stay_distinct `{External} (db : Db) (ops : list BookOp) :
  distinctIsbn (books db) = true → distinctIsbn (books (runBooks db ops)) = true.
Proof.
  unfold runBooks. revert db. induction ops as [|op ops IH]; intros db Hd; cbn [foldl].
  - done.
  - by apply IH, stepBook_isbn.
Qed.

Lemma book_isbns_stay_distinct_witness :
  let emma : obj := list_to_map [("title", VStr "Emma"); ("author", VStr "Austen");
                                 ("isbn", VStr "978-0")] in
  let ops : list BookOp :=
    [PostBook emma;
     PostBook (list_to_map [("title", VStr "Emma, again"); ("author", VStr "Austen");
                            ("isbn", VStr "978-0")]);
     PostBook (list_to_map [("title", VStr "Persuasion"); ("author", VStr "Austen");
                            ("isbn", VStr "978-1")]);
     PutBook id2 {["isbn" := VStr "978-0"]}] in
  distinctIsbn (books (@runBooks stub emptyDb ops)) = true
  ∧ map (λ e, e.2 !! "isbn") (books (@runBooks stub emptyDb ops))
    = [Some (VStr "978-0"); Some (VStr "978-1")].
Proof.
  intros emma ops. split; [|reflexivity].
  apply (@book_isbns_stay_distinct stub emptyDb ops). reflexivity.
Defined.

(** ** Reading back what was created *)

Section ReadBack.

Context `{External}.

Lemma find_id_new (coll : collection) (i : N) (d : obj) :
  i ∉ coll.*1 → List.find (λ e, (e.1 =? i)%N) (coll ++ [(i, d)]) = Some (i, d).
Proof.
  intros Hi. apply find_app_new; [|apply N.eqb_refl].
  apply lookupId_None in Hi. unfold lookupId in Hi.
  by destruct (List.find _ coll).
Qed.

Lemma createBook_fresh (db : Db) (reqBody : obj) :
  status (createBook db reqBody).2 = 201 →
  ∃ i doc,
    (i ∉ (books db).*1)
    ∧ createBook db reqBody
      = (withBooks (books db ++ [(i, stamped doc)]) (bumped db),
         {| status := 201; body := Json (VObj (lean i (stamped doc))) |}).
Proof.
  unfold createBook.
  destruct (construct bookSchema reqBody) as [doc|]; cbn [mbind Result_bind]; [|done].
  destruct (validateBook doc) as [doc'|] eqn:Hv; cbn [mbind Result_bind]; [|done].
  apply validateBook_Ok in Hv as [-> Hmin].
  destruct (newDocumentId db reqBody) as [i|]; cbn [mbind Result_bind]; [|done].
  destruct (isbnTaken doc (books db)) eqn:Htaken; [done|].
  destruct (insertDoc _ _ _ _) as [coll'|] eqn:Hins; cbn [mbind Result_bind]; [|done].
  intros _. apply insertDoc_fresh in Hins as (Hi & _ & ->). by exists i, doc.
Qed.

Lemma createMember_fresh (db : Db) (reqBody : obj) :
  status (createMember db reqBody).2 = 201 →
  ∃ i doc,
    (i ∉ (members db).*1)
    ∧ createMember db reqBody
      = (withMembers (members db ++ [(i, stamped doc)]) (bumped db),
         json 201 [("message", VStr "Member created"); ("_id", oid i)]).
Proof.
  unfold createMember.
  destruct (construct memberSchema reqBody) as [doc|]; cbn [mbind Result_bind]; [|done].
  destruct (newDocumentId db reqBody) as [i|]; cbn [mbind Result_bind]; [|done].
  destruct (insertDoc _ _ _ _) as [coll'|] eqn:Hins; cbn [mbind Result_bind]; [|done].
  intros _. apply insertDoc_fresh in Hins as (Hi & _ & ->). by exists i, doc.
Qed.

End ReadBack.

(** X23.  What is created can be read back.  When POST /books answers
    201 with a document, GET /books/:id for the [_id] of that document
    answers 200 with the same document minus [__v]; when POST /members
    answers 201 with an [_id], GET /members/:id for it answers 200 with
    the stored member minus [password] and [__v]. *)
Theorem created_documents_can_be_read_back `{External} (db : Db) (reqBody : obj) :
  (status (createBook db reqBody).2 = 201 →
   ∃ i d,
     (createBook db reqBody).2 = {| status := 201; body := Json (VObj (lean i d)) |}
     ∧ ∀ id, castObjectId (VStr id) = Some i →
             getBook (createBook db reqBody).1 id
             = {| status := 200; body := Json (VObj (exclude ["__v"] (lean i d))) |})
  ∧ (status (createMember db reqBody).2 = 201 →
     ∃ i d,
       (createMember db reqBody).2
       = json 201 [("message", VStr "Member created"); ("_id", oid i)]
       ∧ ∀ id, castObjectId (VStr id) = Some i →
               getMember (createMember db reqBody).1 id
               = {| status := 200; body := Json (VObj (exclude hidden (lean i d))) |}).
Proof.
  split.
  - intros Hst. destruct (createBook_fresh db reqBody Hst) as (i & doc & Hi & ->).
    exists i, (stamped doc). split; [done|]. intros id Hid.
    unfold getBook, findById. rewrite Hid. cbn [fst books withBooks bumped].
    by rewrite find_id_new.
  - intros Hst. destruct (createMember_fresh db reqBody Hst) as (i & doc & Hi & ->).
    exists i, (stamped doc). split; [done|]. intros id Hid.
    unfold getMember, findById. rewrite Hid. cbn [fst members withMembers bumped].
    by rewrite find_id_new.
Qed.

Lemma created_documents_can_be_read_back_witness :
  let body : obj := list_to_map [("title", VStr "Emma"); ("author", VStr "Austen")] in
  ∃ i d,
    (@createBook stub sampleDb body).2
    = {| status := 201; body := Json (VObj (lean i d)) |}
    ∧ ∀ id, @castObjectId stub (VStr id) = Some i →
            @getBook stub (@createBook stub sampleDb body).1 id
            = {| status := 200; body := Json (VObj (exclude ["__v"] (lean i d))) |}.
Proof.
  intros body.
  destruct (@created_documents_can_be_read_back stub sampleDb body) as [Hbook _].
  apply Hbook. reflexivity.
Defined.

(** ** Identifiers *)

Section ObjectIds.

Lemma hex_lower (c : ascii) :
  bool_decide (is_Some (digitValue 16 (lower c)))
  = bool_decide (is_Some (digitValue 16 c)).
Proof. destruct c as [[] [] [] [] [] [] [] []]; reflexivity. Qed.

Lemma allHex_lower (s : string) : allHex (lowerAscii s) = allHex s.
Proof. induction s as [|c s IH]; cbn [allHex lowerAscii]; [done|]. by rewrite hex_lower, IH. Qed.

Lemma length_lower (s : string) : String.length (lowerAscii s) = String.length s.
Proof. induction s as [|c s IH]; cbn; [done | by rewrite IH]. Qed.

End ObjectIds.

(** X24.  [isValidObjectId] does not depend on the case of the letters
    A to Z, and accepts strings of 24 characters only. *)
Theorem isValidObjectId_ignores_letter_case (id : string) :
  isValidObjectId (lowerAscii id) = isValidObjectId id
  ∧ (isValidObjectId id = true → String.length id = 24%nat).
Proof.
  unfold isValidObjectId. rewrite allHex_lower, length_lower. split; [done|].
  intros [Hlen _]%andb_prop. apply Z.eqb_eq in Hlen. lia.
Qed.

(** ** Seeding *)

(** Splits a text field of a record into its cases. *)
Ltac field_cases H :=
  match type of H with
  | nonEmptyText ?v = true =>
      destruct v as [[| | |[|? ?]| | |]|] eqn:?; try discriminate H; clear H
  | optionalText ?v = true =>
      destruct v as [[| | |?| | |]|] eqn:?; try discriminate H; clear H
  end.

Section Seeding.

Context `{External}.

Lemma mapM_Forall2 {A B : Type} (f : A → Result B) (P : A → B → Prop) (l : list A) :
  Forall (λ x, ∃ y, f x = Ok y ∧ P x y) l →
  ∃ ys, mapM f l = Ok ys ∧ Forall2 P l ys.
Proof.
  induction 1 as [|x l (y & Hy & Hp) _ (ys & Hys & Hall)]; cbn.
  - exists []. by split.
  - rewrite Hy. cbn. rewrite Hys. cbn. exists (y :: ys). split; [done | by constructor].
Qed.

Lemma optionalText_casts (p : SchemaPath) (o : option value) (v : value) :
  ty p = TString → optionalText o = true → o = Some v → is_Some (castPath p v).
Proof.
  intros Hty Ho ->. destruct v; try done. unfold castPath, castValue.
  rewrite Hty. by eexists.
Qed.

(** A seedable record with a hash for password gives a valid member
    document. *)
Lemma seed_document (m : obj) (h : string) :
  seedable m = true → h ≠ "" →
  ∃ e doc,
    m !! "email" = Some (VStr e) ∧ e ≠ ""
    ∧ construct memberSchema (<["password" := VStr h]> m) = Ok doc
    ∧ validate memberSchema doc = Ok doc
    ∧ doc !! "email" = Some (VStr (toLowerCase e))
    ∧ doc !! "password" = Some (VStr h).
Proof.
  unfold seedable. intros Hs Hh.
  repeat match goal with
         | Hf : _ && _ = true |- _ => apply andb_prop in Hf as [? ?]
         end.
  repeat match goal with
         | Hf : nonEmptyText _ = true |- _ => field_cases Hf
         end.
  match goal with
  | Hn : m !! "name" = Some (VStr (String ?a ?n)),
    He : m !! "email" = Some (VStr (String ?b ?e)) |- _ =>
      exists (String b e); set (name := String a n) in *; set (email := String b e) in *;
      rename Hn into Hname; rename He into Hemail
  end.
  destruct (m !! "role") as [[| | |r| | |]|] eqn:Hrole; try done.
  all: destruct (m !! "isActive") as [[|act| | | | |]|] eqn:Hact; try done.
  all: destruct (m !! "registrationDate") eqn:Hreg; try done.
  all: destruct (m !! "_id") eqn:Hid; try done.
  all: destruct (construct_Ok memberSchema (<["password" := VStr h]> m)) as [doc Hdoc];
    [ intros k p v Hin Hv; unfold memberSchema in Hin;
      repeat (apply elem_of_cons in Hin as [[= -> ->]|Hin]);
      try (rewrite lookup_insert_eq in Hv); try (rewrite lookup_insert_ne in Hv by done);
      try (rewrite Hv in *; simplify_eq; by eexists);
      try (refine (optionalText_casts (path TString) _ v eq_refl _ Hv); assumption);
      try congruence; by inversion Hin
    | exists doc; split; [done|]; split; [done|]; split; [done|] ].
  all: assert (doc !! "name" = Some (VStr name)) as Dn
    by (rewrite (construct_path memberSchema _ doc "name" _ memberSchema_NoDup Hdoc eq_refl);
        unfold built; by rewrite lookup_insert_ne, Hname by done).
  all: assert (doc !! "email" = Some (VStr (toLowerCase email))) as De
    by (rewrite (construct_path memberSchema _ doc "email" _ memberSchema_NoDup Hdoc eq_refl);
        unfold built; by rewrite lookup_insert_ne, Hemail by done).
  all: assert (doc !! "password" = Some (VStr h)) as Dp
    by (rewrite (construct_path memberSchema _ doc "password" _ memberSchema_NoDup Hdoc eq_refl);
        unfold built; by rewrite lookup_insert_eq).
  all: assert (inEnum (withDefault (Const (VStr "student"))
                         (withEnum ["student"; "patron"; "admin"] (path TString)))
                 (doc !! "role") = true) as Dr
    by (rewrite (construct_path memberSchema _ doc "role" _ memberSchema_NoDup Hdoc eq_refl);
        unfold built; rewrite lookup_insert_ne, Hrole by done; done).
  all: split; [|done].
  all: apply validate_valid; intros kp Hin; unfold memberSchema in Hin;
    repeat (apply elem_of_cons in Hin as [->|Hin]); try reflexivity;
    unfold invalid; cbn [fst snd];
    [ by rewrite Dn
    | rewrite De, toLowerCase_ascii by assumption; by cbn
    | rewrite Dp; cbn; by destruct h
    | by rewrite Dr | by inversion Hin ].
Qed.

Lemma mapM_Forall2_via {A B C : Type} (f : B → Result C) (P : A → C → Prop)
    (l : list A) (xs : list B) :
  Forall2 (λ a x, ∃ y, f x = Ok y ∧ P a y) l xs →
  ∃ ys, mapM f xs = Ok ys ∧ Forall2 P l ys.
Proof.
  induction 1 as [|a x l xs (y & Hy & Hp) _ (ys & Hys & Hall)]; cbn.
  - exists []. by split.
  - rewrite Hy. cbn. rewrite Hys. cbn. exists (y :: ys). split; [done | by constructor].
Qed.

Hypothesis bcrypt_agrees :
  ∀ p, ∃ h, bcryptHash (VStr p) = Ok h ∧ h ≠ ""
            ∧ bcryptCompare (VStr p) (Some (VStr h)) = Ok true.

(** Hashing a seedable record and building the member for it. *)
Lemma seed_entry (m : obj) :
  seedable m = true →
  ∃ hm, hashedMember m = Ok hm
        ∧ ∃ entry, (doc ← construct memberSchema hm;
                    doc ← validate memberSchema doc;
                    Ok (hm, doc)) = Ok entry
                   ∧ builtFor m entry.
Proof.
  intros Hs.
  assert (∃ pw, m !! "password" = Some (VStr pw) ∧ pw ≠ ""
                ∧ (m !! "_id" : option value) = None) as (pw & Hpw & Hpw0 & Hid).
  { unfold seedable in Hs.
    repeat match goal with
           | Hf : _ && _ = true |- _ => apply andb_prop in Hf as [? ?]
           end.
    destruct (m !! "password") as [[| | |[|a p]| | |]|]; try done.
    destruct (m !! "registrationDate"); [done|]. destruct (m !! "_id"); [done|].
    by exists (String a p). }
  destruct (bcrypt_agrees pw) as (h & Hh & Hh0 & Hcmp).
  destruct (seed_document m h Hs Hh0) as (e & doc & He & He0 & Hdoc & Hv & De & Dp).
  exists (<["password" := VStr h]> m). split.
  { unfold hashedMember. rewrite Hpw. cbn. by rewrite Hh. }
  exists (<["password" := VStr h]> m, doc). split.
  { rewrite Hdoc. cbn. by rewrite Hv. }
  split; [cbn [fst]; by rewrite lookup_insert_ne|]. split; [done|].
  by exists e, pw, h.
Qed.

Lemma duplicateOf_email_free (coll : collection) (doc : obj) :
  existsb (λ e, clashes "email" doc e.2) coll = false →
  duplicateOf memberSchema coll doc = None.
Proof. unfold duplicateOf, memberSchema. cbn. by intros ->. Qed.

Lemma existsb_id_fresh (coll : collection) (n : N) :
  Forall (λ x, (x.1 < n)%N) coll → existsb (λ e, (e.1 =? n)%N) coll = false.
Proof.
  induction 1 as [|x coll Hx _ IH]; cbn; [done|].
  rewrite IH. destruct (N.eqb_spec x.1 n); [lia | done].
Qed.

Lemma storedFor_lowerEmail (m : obj) (x : N * obj) :
  storedFor m x → x.2 !! "email" = Some (VStr (lowerEmail m)).
Proof. intros (e & pw & h & He & _ & _ & _ & _ & Hx & _). unfold lowerEmail. by rewrite He. Qed.

Lemma insert_entries (rest : list obj) (entries : list (obj * obj)) :
  Forall2 builtFor rest entries →
  ∀ (done : list obj) (db0 : Db),
    Forall2 storedFor done (members db0) →
    Forall (λ x, (x.1 < nextId db0)%N) (members db0) →
    NoDup (lowerEmail <$> (done ++ rest)) →
    ∃ db', foldl insertNext (Ok db0) entries = Ok db'
           ∧ Forall2 storedFor (done ++ rest) (members db').
Proof.
  induction 1 as [|m entry rest entries (Hid & Hv & Hst) _ IH];
    intros done db0 Hdone Hids Hnd; cbn [foldl].
  { exists db0. by rewrite (right_id_L [] _). }
  assert (insertNext (Ok db0) entry
          = Ok (withMembers (members db0 ++ [(nextId db0, stamped entry.2)]) (bumped db0)))
    as ->.
  { unfold insertNext, newDocumentId. cbn [mbind Result_bind]. rewrite Hid.
    cbn [mbind Result_bind]. unfold insertDoc. rewrite Hv. cbn [mbind Result_bind].
    rewrite existsb_id_fresh by done.
    rewrite duplicateOf_email_free; [done|].
    apply not_true_is_false. intros Hex. apply existsb_exists in Hex as (x & Hin & Hclash).
    apply list_elem_of_In in Hin.
    apply list_elem_of_lookup in Hin as [j Hj].
    destruct (Forall2_lookup_r _ _ _ _ _ Hdone Hj) as (m' & Hm' & Hx).
    apply storedFor_lowerEmail in Hx. apply storedFor_lowerEmail in Hst. cbn [snd] in Hst.
    unfold clashes in Hclash. rewrite Hst, Hx in Hclash. cbn in Hclash.
    apply String.eqb_eq in Hclash.
    rewrite fmap_app in Hnd. apply NoDup_app in Hnd as (_ & Hdisj & _).
    apply (Hdisj (lowerEmail m')).
    - apply list_elem_of_fmap. exists m'. split; [done|]. by apply list_elem_of_lookup_2 in Hm'.
    - rewrite <- Hclash. cbn. by left. }
  destruct (IH (done ++ [m])
              (withMembers (members db0 ++ [(nextId db0, stamped entry.2)]) (bumped db0)))
    as (db' & Hfold & Hall).
  - cbn [members withMembers bumped]. apply Forall2_app; [done|].
    constructor; [|constructor].
    destruct Hst as (e & pw & h & ? & ? & ? & ? & ? & De & Dp).
    exists e, pw, h. cbn [snd] in *. by rewrite !stamped_lookup.
  - cbn [members withMembers bumped nextId]. apply Forall_app. split.
    + eapply Forall_impl; [exact Hids|]. cbn. intros x Hx. lia.
    + constructor; [cbn; lia | constructor].
  - by rewrite <- (assoc_L (++)).
  - exists db'. split; [done|]. by rewrite <- (assoc_L (++)) in Hall.
Qed.

(** The address of a seedable record is lowered letter by letter. *)
Lemma lowerEmail_seedable (m : obj) :
  seedable m = true →
  lowerEmail m = match m !! "email" with
                 | Some (VStr e) => lowerAscii e
                 | _ => ""
                 end.
Proof.
  unfold seedable, lowerEmail. intros Hs.
  repeat match goal with
         | Hf : _ && _ = true |- _ => apply andb_prop in Hf as [Hf ?]
         end.
  destruct (m !! "email") as [[| | |e| | |]|]; try done. by apply toLowerCase_ascii.
Qed.

Lemma lowerEmail_email (m : obj) (e : string) :
  m !! "email" = Some (VStr e) → lowerEmail m = toLowerCase e.
Proof. unfold lowerEmail. by intros ->. Qed.

Lemma find_storedFor (ms : list obj) (coll : collection) (m : obj) (e : string) :
  Forall2 storedFor ms coll →
  NoDup (lowerEmail <$> ms) →
  m ∈ ms →
  m !! "email" = Some (VStr e) →
  ∃ x, List.find (λ x, emailIs e (x.2 !! "email")) coll = Some x ∧ storedFor m x.
Proof.
  intros Hall Hnd Hin He. apply lowerEmail_email in He.
  induction Hall as [|m' x ms coll Hx _ IH]; [by apply elem_of_nil in Hin|].
  cbn [fmap list_fmap] in Hnd. apply NoDup_cons in Hnd as [Hm' Hnd]. cbn [List.find].
  pose proof (storedFor_lowerEmail _ _ Hx) as Hemail.
  unfold emailIs at 1. rewrite Hemail. cbn [sameKey]. rewrite <- He.
  destruct (String.eqb_spec (lowerEmail m) (lowerEmail m')) as [Heq|Hne].
  - exists x. split; [done|].
    apply elem_of_cons in Hin as [->|Hin]; [done|].
    destruct Hm'. apply list_elem_of_fmap. exists m. by split.
  - apply elem_of_cons in Hin as [->|Hin]; [done | by apply IH].
Qed.

Lemma seeding (ms : list obj) (db : Db) :
  forallb seedable ms = true →
  NoDup (lowerEmail <$> ms) →
  ∃ db', (hashedMembers ← mapM hashedMember ms;
          insertMany (withMembers [] db) hashedMembers) = Ok db'
         ∧ length (members db') = length ms
         ∧ Forall (canLogIn db') ms.
Proof.
  intros Hs Hnd.
  destruct (mapM_Forall2 hashedMember
              (λ m hm, ∃ entry, (doc ← construct memberSchema hm;
                                 doc ← validate memberSchema doc;
                                 Ok (hm, doc)) = Ok entry ∧ builtFor m entry) ms)
    as (hms & -> & Hhms).
  { apply Forall_forall. intros m Hin. apply seed_entry.
    rewrite forallb_forall in Hs. apply Hs. by apply list_elem_of_In. }
  cbn [mbind Result_bind]. unfold insertMany.
  destruct (mapM_Forall2_via _ _ _ _ Hhms) as (entries & -> & Hentries).
  cbn [mbind Result_bind].
  destruct (insert_entries ms entries Hentries [] (withMembers [] db))
    as (db' & -> & Hall); [constructor | constructor | done |].
  cbn [app] in Hall. exists db'. split; [done|]. split.
  { symmetry. by apply (Forall2_length _ _ _ Hall). }
  apply Forall_forall. intros m Hin.
  apply list_elem_of_lookup in Hin as Hj. destruct Hj as [j Hj].
  destruct (Forall2_lookup_l _ _ _ _ _ Hall Hj) as (x0 & _ & (e & _ & _ & He & _)).
  destruct (find_storedFor ms (members db') m e Hall Hnd Hin He)
    as (x & Hfind & (e' & pw & h & He' & He0 & Hpw & Hpw0 & Hcmp & _ & Dp)).
  rewrite He in He'. injection He' as <-.
  exists e, pw. split; [done|]. split; [done|].
  rewrite (login_found db' e pw x); [done..|]. by rewrite Dp.
Qed.

End Seeding.

(** X25.  Every seeded account can log in.  With a bcrypt whose [hash]
    returns a non-empty hash that [compare] accepts for the same
    password, [seedDatabase] ends without error on any store, leaves
    exactly the six mock members, and POST /members/login with the email
    and the password of each mock member is answered 200. *)
Theorem seeded_accounts_can_log_in `{External} (db : Db) :
  (∀ p, ∃ h, bcryptHash (VStr p) = Ok h ∧ h ≠ ""
             ∧ bcryptCompare (VStr p) (Some (VStr h)) = Ok true) →
  ∃ db', seedDatabase db = Ok db'
         ∧ length (members db') = 6%nat
         ∧ Forall (canLogIn db') mockMembers.
Proof.
  intros Hbcrypt. unfold seedDatabase. cbv zeta.
  assert (forallb seedable mockMembers = true) as Hseedable by reflexivity.
  apply (seeding Hbcrypt mockMembers db); [done|].
  rewrite (proj1 (Forall_fmap_ext lowerEmail
                    (λ m : obj, match m !! "email" with
                                | Some (VStr e) => lowerAscii e
                                | _ => ""
                                end) mockMembers)).
  - apply (bool_decide_unpack _). vm_compute. exact I.
  - apply Forall_forall. intros m Hm. apply lowerEmail_seedable.
    rewrite forallb_forall in Hseedable. apply Hseedable. by apply list_elem_of_In.
Qed.

Lemma seeded_accounts_can_log_in_witness :
  ∃ db', @seedDatabase stub sampleDb = Ok db'
         ∧ length (members db') = 6%nat
         ∧ Forall (@canLogIn stub db') mockMembers.
Proof.
  apply (@seeded_accounts_can_log_in stub sampleDb).
  intros p. exists ("$2b$10$" ++ p)%string. split; [done|]. split; [done|].
  cbn. by rewrite String.eqb_refl.
Defined.

(** ** Statistics *)

Section Grouping.

Lemma sumOver_addToGroup_size (k : value) (m : bool) (groups : list Group) :
  sumOver tally (addToGroup k m groups) = sumOver tally groups + 1.
Proof.
  unfold sumOver. induction groups as [|g groups IH]; cbn [addToGroup foldr]; [cbn; lia|].
  destruct (sameGroupKey (groupId g) k); cbn [foldr tally]; lia.
Qed.

Lemma sumOver_addToGroup_marked (k : value) (m : bool) (groups : list Group) :
  sumOver flagged (addToGroup k m groups) = sumOver flagged groups + oneIf m.
Proof.
  unfold sumOver. induction groups as [|g groups IH]; cbn [addToGroup foldr]; [cbn; lia|].
  destruct (sameGroupKey (groupId g) k); cbn [foldr flagged]; lia.
Qed.

Lemma addToGroup_bounds (k : value) (m : bool) (groups : list Group) :
  Forall (λ g, 1 ≤ tally g ∧ 0 ≤ flagged g ≤ tally g) groups →
  Forall (λ g, 1 ≤ tally g ∧ 0 ≤ flagged g ≤ tally g) (addToGroup k m groups).
Proof.
  induction 1 as [|g groups Hg Hrest IH]; cbn.
  - constructor; [|constructor]. cbn. destruct m; cbn; lia.
  - destruct (sameGroupKey (groupId g) k).
    + constructor; [|done]. cbn. destruct m; cbn; lia.
    + by constructor.
Qed.

Lemma addToGroup_keys (k : value) (m : bool) (groups : list Group) (f : Group → bool) :
  (∀ g g', groupId g = groupId g' → f g = f g') →
  forallb f groups = true →
  f {| groupId := k; tally := 1; flagged := oneIf m |} = true →
  forallb f (addToGroup k m groups) = true.
Proof.
  intros Hf. induction groups as [|g groups IH]; cbn.
  - intros _ ->. done.
  - intros [Hg Hrest]%andb_prop Hk. destruct (sameGroupKey (groupId g) k); cbn.
    + rewrite Hrest, andb_true_r. by rewrite <- Hg; apply Hf.
    + by rewrite Hg, IH.
Qed.

Lemma addToGroup_distinct (k : value) (m : bool) (groups : list Group) :
  distinctKeys groups = true → distinctKeys (addToGroup k m groups) = true.
Proof.
  induction groups as [|g groups IH]; cbn [distinctKeys addToGroup]; [done|].
  intros [Hg Hrest]%andb_prop. destruct (sameGroupKey (groupId g) k) eqn:Hk.
  - cbn [distinctKeys groupId]. by rewrite Hg, Hrest.
  - cbn [distinctKeys]. rewrite IH by done. rewrite andb_true_r.
    apply addToGroup_keys; [by intros ? ? -> | done | by cbn; rewrite Hk].
Qed.

(** Distinct keys are different values. *)
Lemma distinctKeys_NoDup (groups : list Group) :
  distinctKeys groups = true → NoDup (groupId <$> groups).
Proof.
  induction groups as [|g groups IH]; cbn [distinctKeys fmap list_fmap]; [constructor|].
  intros [Hg Hrest]%andb_prop. constructor; [|by apply IH].
  intros (g' & Heq & Hin)%list_elem_of_fmap.
  rewrite forallb_forall in Hg. apply list_elem_of_In in Hin. specialize (Hg g' Hin).
  unfold sameGroupKey in Hg. apply negb_true_iff, bool_decide_eq_false in Hg. done.
Qed.

(** What a grouping stage returns, whatever the collection. *)
Lemma groupBy_counts (field flag : string) (coll : collection) :
  let groups := groupBy field flag coll in
  sumOver tally groups = Z.of_nat (length coll)
  ∧ sumOver flagged groups
    = Z.of_nat (countWhere (λ d, condTruthy (d !! flag)) coll)
  ∧ Forall (λ g, 1 ≤ tally g ∧ 0 ≤ flagged g ≤ tally g) groups
  ∧ distinctKeys groups = true.
Proof.
  unfold groupBy, countWhere.
  assert (∀ acc,
    let groups := foldl (λ groups e, addToGroup (default VNull (e.2 !! field))
                                       (condTruthy (e.2 !! flag)) groups) acc coll in
    sumOver tally groups = sumOver tally acc + Z.of_nat (length coll)
    ∧ sumOver flagged groups
      = sumOver flagged acc
        + Z.of_nat (length (List.filter (λ e, condTruthy (e.2 !! flag)) coll))
    ∧ (Forall (λ g, 1 ≤ tally g ∧ 0 ≤ flagged g ≤ tally g) acc →
       Forall (λ g, 1 ≤ tally g ∧ 0 ≤ flagged g ≤ tally g) groups)
    ∧ (distinctKeys acc = true → distinctKeys groups = true)) as Hgen.
  { induction coll as [|e coll IH]; intros acc; cbn [foldl length List.filter].
    - cbn. split; [lia|]. split; [lia | done].
    - destruct (IH (addToGroup (default VNull (e.2 !! field))
                      (condTruthy (e.2 !! flag)) acc)) as (Hs & Hm & Hb & Hd).
      cbv zeta in *. rewrite Hs, Hm, sumOver_addToGroup_size, sumOver_addToGroup_marked.
      split; [lia|]. split.
      + destruct (condTruthy (e.2 !! flag)); cbn [oneIf length]; lia.
      + split; intros Hacc.
        * by apply Hb, addToGroup_bounds.
        * by apply Hd, addToGroup_distinct. }
  destruct (Hgen []) as (Hs & Hm & Hb & Hd). cbv zeta in *. cbn in Hs, Hm.
  split; [lia|]. split; [lia|]. split; [by apply Hb | by apply Hd].
Qed.

Lemma insertBySize_perm (g : Group) (sorted : list Group) :
  insertBySize g sorted ≡ₚ g :: sorted.
Proof.
  induction sorted as [|h rest IH]; cbn; [done|].
  destruct (tally h <? tally g); [done|]. rewrite IH. apply Permutation_swap.
Qed.

Lemma sortBySize_perm (groups : list Group) : sortBySize groups ≡ₚ groups.
Proof.
  induction groups as [|g groups IH]; cbn; [done|].
  by rewrite insertBySize_perm, IH.
Qed.

Lemma insertBySize_descending (g : Group) (sorted : list Group) :
  descending sorted = true → descending (insertBySize g sorted) = true.
Proof.
  induction sorted as [|h rest IH]; cbn [descending insertBySize]; [done|].
  intros [Hh Hrest]%andb_prop. destruct (Z.ltb_spec (tally h) (tally g)) as [Hlt|Hge].
  - cbn [descending forallb]. rewrite Hh, Hrest, !andb_true_r.
    apply andb_true_intro. split; [apply Z.leb_le; lia|].
    apply forallb_forall. intros g' Hin. rewrite forallb_forall in Hh.
    specialize (Hh g' Hin). apply Z.leb_le in Hh. apply Z.leb_le. lia.
  - cbn [descending]. rewrite IH by done. rewrite andb_true_r.
    apply forallb_forall. intros g' Hin. apply list_elem_of_In in Hin.
    rewrite insertBySize_perm in Hin. apply elem_of_cons in Hin as [->|Hin].
    + apply Z.leb_le. lia.
    + rewrite forallb_forall in Hh. apply Hh. by apply list_elem_of_In.
Qed.

Lemma sortBySize_descending (groups : list Group) : descending (sortBySize groups) = true.
Proof.
  induction groups as [|g groups IH]; cbn; [done|]. by apply insertBySize_descending.
Qed.

Lemma sumOver_perm (f : Group → Z) (l1 l2 : list Group) :
  l1 ≡ₚ l2 → sumOver f l1 = sumOver f l2.
Proof. unfold sumOver. induction 1; cbn [foldr] in *; lia. Qed.

Lemma countWhere_le (test test' : obj → bool) (coll : collection) :
  (∀ d, test d = true → test' d = true) →
  (countWhere test coll ≤ countWhere test' coll ≤ length coll)%nat.
Proof.
  intros Himp. unfold countWhere. induction coll as [|e coll IH]; cbn; [lia|].
  destruct (test e.2) eqn:Ht.
  - rewrite (Himp _ Ht). cbn. lia.
  - destruct (test' e.2); cbn; lia.
Qed.

Lemma countWhere_split (coll : collection) :
  Forall (λ e, ∃ b, e.2 !! "returned" = Some (VBool b)) coll →
  (countWhere isActiveLoan coll + countWhere isReturnedLoan coll = length coll)%nat.
Proof.
  unfold countWhere, isActiveLoan, isReturnedLoan.
  induction 1 as [|e coll [b Hb] _ IH]; cbn; [done|].
  rewrite Hb. destruct b; cbn; lia.
Qed.

End Grouping.

(** X26.  The groups of GET /members/stats/overview cover the members:
    the counts add up to the number of members, the [active] figures to
    the number of members whose [isActive] is true in a [$cond], every
    group has at least one member and no more active members than
    members, and no two groups have the same [_id], whatever value (a
    string, [null], an array, an embedded document) the members hold as
    their role. *)
Theorem member_statistics_count_every_member `{External} (db : Db) :
  let groups := groupBy "role" "isActive" (members db) in
  memberStats None db
  = {| status := 200; body := Json (VArr (map (groupJson "count" "active") groups)) |}
  ∧ sumOver tally groups = Z.of_nat (length (members db))
  ∧ sumOver flagged groups
    = Z.of_nat (countWhere (λ d, condTruthy (d !! "isActive")) (members db))
  ∧ Forall (λ g, 1 ≤ tally g ∧ 0 ≤ flagged g ≤ tally g) groups
  ∧ distinctKeys groups = true
  ∧ NoDup (groupId <$> groups).
Proof.
  intros groups. split; [done|].
  destruct (groupBy_counts "role" "isActive" (members db)) as (Hs & Hm & Hb & Hd).
  split; [done|]. split; [done|]. split; [done|]. split; [done|].
  by apply distinctKeys_NoDup.
Qed.

(** X27.  The groups of GET /books/stats/by-category come in
    descending order of [total]; the totals add up to the number of
    books, the [available] figures to the number of books whose
    [available] is true in a [$cond], and no group has more available
    books than books. *)
Theorem book_statistics_are_sorted_and_complete `{External} (db : Db) :
  let groups := sortBySize (groupBy "category" "available" (books db)) in
  bookStats None db
  = {| status := 200; body := Json (VArr (map (groupJson "total" "available") groups)) |}
  ∧ descending groups = true
  ∧ sumOver tally groups = Z.of_nat (length (books db))
  ∧ sumOver flagged groups
    = Z.of_nat (countWhere (λ d, condTruthy (d !! "available")) (books db))
  ∧ Forall (λ g, 1 ≤ tally g ∧ 0 ≤ flagged g ≤ tally g) groups.
Proof.
  intros groups. split; [done|]. split; [apply sortBySize_descending|].
  destruct (groupBy_counts "category" "available" (books db)) as (Hs & Hm & Hb & _).
  cbv zeta in *. unfold groups.
  rewrite !(sumOver_perm _ _ _ (sortBySize_perm _)). split; [done|]. split; [done|].
  by rewrite sortBySize_perm.
Qed.

(** X28.  GET /loans/stats/summary: the overdue loans are among the
    active ones, no facet counts more loans than are stored, the active
    and the returned loans add up to all loans when every loan holds a
    boolean [returned], and with no loans each facet is the empty array
    (a facet that matches nothing holds no count). *)
Theorem loan_statistics_facets `{External} (db : Db) :
  let active := countWhere isActiveLoan (loans db) in
  let returned := countWhere isReturnedLoan (loans db) in
  let overdue := countWhere isOverdueLoan (loans db) in
  loanStats None db
  = json 200 [("activeLoans", counted active); ("returnedLoans", counted returned);
              ("overdueLoans", counted overdue)]
  ∧ (overdue ≤ active ≤ length (loans db))%nat
  ∧ (returned ≤ length (loans db))%nat
  ∧ (Forall (λ e, ∃ b, e.2 !! "returned" = Some (VBool b)) (loans db) →
     (active + returned = length (loans db))%nat)
  ∧ (loans db = [] →
     loanStats None db
     = json 200 [("activeLoans", VArr []); ("returnedLoans", VArr []);
                 ("overdueLoans", VArr [])]).
Proof.
  intros active returned overdue. split; [done|]. split.
  { apply countWhere_le. unfold isOverdueLoan, isActiveLoan. by intros d [_ ?]%andb_prop. }
  split.
  { apply (countWhere_le isReturnedLoan isReturnedLoan). done. }
  split; [apply countWhere_split|].
  intros Hempty. unfold loanStats. by rewrite Hempty.
Qed.

Lemma member_statistics_count_every_member_witness :
  groupBy "role" "isActive" (members sampleDb)
  = [{| groupId := VStr "patron"; tally := 1; flagged := 1 |};
     {| groupId := VStr "student"; tally := 1; flagged := 1 |}]
  ∧ sumOver tally (groupBy "role" "isActive" (members sampleDb))
    = Z.of_nat (length (members sampleDb))
  ∧ status (@memberStats stub None sampleDb) = 200
  ∧ status (@memberStats stub (Some (StoreError "down")) sampleDb) = 500
  ∧ groupBy "role" "isActive"
      [(1%N, {["role" := VArr [VStr "admin"]]} : obj);
       (2%N, {["role" := VArr [VStr "admin"]]} : obj);
       (3%N, {["role" := VArr []]} : obj)]
    = [{| groupId := VArr [VStr "admin"]; tally := 2; flagged := 0 |};
       {| groupId := VArr []; tally := 1; flagged := 0 |}].
Proof.
  destruct (@member_statistics_count_every_member stub sampleDb) as (Hr & Hs & _).
  split; [reflexivity|]. split; [exact Hs|]. split; [by rewrite Hr|].
  split; [reflexivity | vm_compute; reflexivity].
Defined.

Lemma loan_statistics_facets_witness :
  @loanStats stub None sampleDb
  = json 200 [("activeLoans", VArr []);
              ("returnedLoans", VArr [VObj {["total" := VNum 1]}]);
              ("overdueLoans", VArr [])]
  ∧ (countWhere isActiveLoan (loans sampleDb) + countWhere isReturnedLoan (loans sampleDb)
     = length (loans sampleDb))%nat.
Proof.
  destruct (@loan_statistics_facets stub sampleDb) as (Hr & _ & _ & Hsplit & _).
  split; [by rewrite Hr|]. apply Hsplit.
  repeat constructor. by exists true.
Defined.
